(** * CNCF-Architect Pro: the streaming pipeline, embedded and verified

    The development follows the two source files of the repository:

    - the client page ([handleAnalyze], [parseSections]): the frame
      decoder that turns the chunks of the response body into text
      deltas, and the section segmenter run on the accumulated report;
    - the edge function [analyze-repo] ([fetchReadme], [fetchIssues],
      [fetchRepoStats], [serve]): the collector, the prompt assembler and
      the generation proxy.

    JavaScript strings are sequences of UTF-16 code units, values are
    the values [JSON.parse] can produce (plus [undefined]), and the
    outside world (GitHub, the AI gateway, the environment) is an explicit
    record of answers that the handler consults, with every consultation
    logged in a trace.

    The handler of the page is embedded whole as well ([Page]): the
    pattern of the input box, the request sent, and what the page makes
    of the response.  The last modules state what the decoder, the
    segmenter and the edge function do on any input, valid or not, and
    compose the page with the edge function. *)

From Stdlib Require Import List NArith Arith Bool Lia.
From Stdlib.Strings Require Import String Ascii Byte.
Import ListNotations.
Local Open Scope N_scope.
Set Warnings "-register-all".

(** ** JavaScript strings *)

Module Js.

(** A string is its sequence of UTF-16 code units. *)
Definition jsstring := list N.

Definition jsstring_eqb (a b : jsstring) : bool :=
  if list_eq_dec N.eq_dec a b then true else false.

(** *** [TextDecoder] (UTF-8, replacement mode, BOM removed)

    The decoder is the byte-at-a-time machine of the Encoding standard:
    [cp] is the code point under construction, [needed] and [seen] count
    continuation bytes, [lower] and [upper] bound the next byte. *)

Record utf8_state := {
  cp : N;
  seen : N;
  needed : N;
  lower : N;
  upper : N
}.

Definition utf8_init : utf8_state :=
  {| cp := 0; seen := 0; needed := 0; lower := 0x80; upper := 0xBF |}.

Definition between (lo hi b : N) : bool := (lo <=? b) && (b <=? hi).

(** A byte read while no sequence is open. *)
Definition utf8_lead (b : N) : utf8_state * list N :=
  if b <=? 0x7F then (utf8_init, [b])
  else if between 0xC2 0xDF b then
    ({| cp := N.land b 0x1F; seen := 0; needed := 1;
        lower := 0x80; upper := 0xBF |}, [])
  else if between 0xE0 0xEF b then
    ({| cp := N.land b 0xF; seen := 0; needed := 2;
        lower := if b =? 0xE0 then 0xA0 else 0x80;
        upper := if b =? 0xED then 0x9F else 0xBF |}, [])
  else if between 0xF0 0xF4 b then
    ({| cp := N.land b 0x7; seen := 0; needed := 3;
        lower := if b =? 0xF0 then 0x90 else 0x80;
        upper := if b =? 0xF4 then 0x8F else 0xBF |}, [])
  else (utf8_init, [0xFFFD]).

(** One byte: the new state and the code points it completes.  A byte
    outside the expected range ends the open sequence with U+FFFD and is
    read again as a leading byte. *)
Definition utf8_step (s : utf8_state) (b : N) : utf8_state * list N :=
  if needed s =? 0 then utf8_lead b
  else if negb (between (lower s) (upper s) b) then
    let (s', out) := utf8_lead b in (s', 0xFFFD :: out)
  else
    let c := N.lor (N.shiftl (cp s) 6) (N.land b 0x3F) in
    if seen s + 1 =? needed s then (utf8_init, [c])
    else ({| cp := c; seen := seen s + 1; needed := needed s;
             lower := 0x80; upper := 0xBF |}, []).

(** A code point as UTF-16 code units. *)
Definition utf16_units (c : N) : list N :=
  if c <? 0x10000 then [c]
  else [0xD800 + N.shiftr (c - 0x10000) 10;
        0xDC00 + N.land (c - 0x10000) 0x3FF].

Record TextDecoder := {
  machine : utf8_state;
  bom_seen : bool
}.

Definition new_TextDecoder : TextDecoder :=
  {| machine := utf8_init; bom_seen := false |}.

(** The first code point of the stream is dropped when it is U+FEFF. *)
Definition emit_code_point (d : TextDecoder) (c : N) : TextDecoder * jsstring :=
  if bom_seen d then (d, utf16_units c)
  else ({| machine := machine d; bom_seen := true |},
        if c =? 0xFEFF then [] else utf16_units c).

Fixpoint emit_code_points (d : TextDecoder) (cs : list N)
  : TextDecoder * jsstring :=
  match cs with
  | [] => (d, [])
  | c :: cs' =>
      let (d1, o1) := emit_code_point d c in
      let (d2, o2) := emit_code_points d1 cs' in
      (d2, o1 ++ o2)
  end.

Definition decode_byte (d : TextDecoder) (b : byte) : TextDecoder * jsstring :=
  let (m, cs) := utf8_step (machine d) (Byte.to_N b) in
  emit_code_points {| machine := m; bom_seen := bom_seen d |} cs.

(** [decoder.decode(value, { stream: true })]: the bytes of an unfinished
    sequence stay in the machine for the next call. *)
Fixpoint decode (d : TextDecoder) (value : list byte) : TextDecoder * jsstring :=
  match value with
  | [] => (d, [])
  | b :: value' =>
      let (d1, o1) := decode_byte d b in
      let (d2, o2) := decode d1 value' in
      (d2, o1 ++ o2)
  end.

(** String literals of the sources, written in UTF-8 in this file. *)
Definition js (s : string) : jsstring :=
  snd (decode {| machine := utf8_init; bom_seen := true |}
              (list_byte_of_string s)).

(** The same with every apostrophe read as a double quote, for the
    literals that contain double quotes. *)
Definition jsq (s : string) : jsstring :=
  map (fun c => if c =? 39 then 34 else c) (js s).

(** *** String methods *)

(** [s.startsWith(p)] *)
Fixpoint startsWith (p s : jsstring) : bool :=
  match p, s with
  | [], _ => true
  | _ :: _, [] => false
  | a :: p', b :: s' => (a =? b) && startsWith p' s'
  end.

(** [s.includes(p)] *)
Fixpoint includes (p s : jsstring) : bool :=
  startsWith p s ||
  match s with
  | [] => false
  | _ :: s' => includes p s'
  end.

(** [s.endsWith("\r")] *)
Definition endsWith_cr (s : jsstring) : bool :=
  match rev s with
  | c :: _ => c =? 13
  | [] => false
  end.

(** [s.indexOf("\n")], [None] for -1. *)
Fixpoint indexOf_nl (s : jsstring) : option nat :=
  match s with
  | [] => None
  | c :: s' =>
      if c =? 10 then Some O
      else match indexOf_nl s' with
           | Some i => Some (S i)
           | None => None
           end
  end.

(** White space and line terminators, as [trim] and the pattern class
    [\s] recognise them. *)
Definition is_space (c : N) : bool :=
  between 9 13 c || (c =? 0x20) || (c =? 0xA0) || (c =? 0x1680)
  || between 0x2000 0x200A c || (c =? 0x2028) || (c =? 0x2029)
  || (c =? 0x202F) || (c =? 0x205F) || (c =? 0x3000) || (c =? 0xFEFF).

Fixpoint trimStart (s : jsstring) : jsstring :=
  match s with
  | c :: s' => if is_space c then trimStart s' else s
  | [] => []
  end.

Definition trimEnd (s : jsstring) : jsstring := rev (trimStart (rev s)).

(** [s.trim()] *)
Definition trim (s : jsstring) : jsstring := trimEnd (trimStart s).

(** [parts.join(sep)] on strings. *)
Fixpoint join (sep : jsstring) (parts : list jsstring) : jsstring :=
  match parts with
  | [] => []
  | [p] => p
  | p :: rest => p ++ sep ++ join sep rest
  end.

(** [s.split("\n")] *)
Fixpoint split_nl (s : jsstring) : list jsstring :=
  match s with
  | [] => [[]]
  | c :: s' =>
      if c =? 10 then [] :: split_nl s'
      else match split_nl s' with
           | l :: ls => (c :: l) :: ls
           | [] => [[c]]
           end
  end.

(** Decimal digits of a natural number, as [String(n)] prints an index. *)
Fixpoint digits_fuel (fuel : nat) (n : N) (acc : jsstring) : jsstring :=
  match fuel with
  | O => acc
  | S f =>
      let acc' := (48 + n mod 10) :: acc in
      if n <? 10 then acc' else digits_fuel f (n / 10) acc'
  end.

Definition decimal (n : N) : jsstring :=
  digits_fuel (S (N.to_nat (N.log2 n))) n [].

End Js.

(** ** JavaScript values *)

Module Value.
Import Js.

(** A number is kept as the two observations this program makes of it:
    its truth value and its decimal rendering ([String(n)]). *)
Record jsnumber := {
  number_truthy : bool;
  number_text : jsstring
}.

Inductive jsvalue :=
| JUndefined
| JNull
| JBool (b : bool)
| JNumber (n : jsnumber)
| JString (s : jsstring)
| JArray (items : list jsvalue)
| JObject (props : list (jsstring * jsvalue)).

(** The own property [k] of an object literal. *)
Fixpoint own (k : jsstring) (props : list (jsstring * jsvalue)) : option jsvalue :=
  match props with
  | [] => None
  | (k', v) :: rest => if jsstring_eqb k k' then Some v else own k rest
  end.

(** [if (v)], [!v], [v || d] *)
Definition ToBoolean (v : jsvalue) : bool :=
  match v with
  | JUndefined | JNull => false
  | JBool b => b
  | JNumber n => number_truthy n
  | JString s => negb (jsstring_eqb s [])
  | JArray _ | JObject _ => true
  end.

Definition nullish (v : jsvalue) : bool :=
  match v with
  | JUndefined | JNull => true
  | _ => false
  end.

(** [v.k] for the property names this program reads ([choices], [delta],
    [content], [owner], [title], [labels], ...), none of which exists on a
    prototype: [None] is the TypeError raised on [null] and [undefined]. *)
Definition get (v : jsvalue) (k : jsstring) : option jsvalue :=
  match v with
  | JUndefined | JNull => None
  | JObject props =>
      Some (match own k props with Some x => x | None => JUndefined end)
  | _ => Some JUndefined
  end.

(** [v?.k] *)
Definition opt_get (v : jsvalue) (k : jsstring) : jsvalue :=
  match get v k with
  | Some x => x
  | None => JUndefined
  end.

(** [v?.[0]] *)
Definition opt_index0 (v : jsvalue) : jsvalue :=
  match v with
  | JArray (x :: _) => x
  | JString (c :: _) => JString [c]
  | JObject props =>
      match own (js "0") props with Some x => x | None => JUndefined end
  | _ => JUndefined
  end.

(** [v ?? d] *)
Definition coalesce (v d : jsvalue) : jsvalue := if nullish v then d else v.

Definition option_app (a b : option jsstring) : option jsstring :=
  match a, b with
  | Some x, Some y => Some (x ++ y)
  | _, _ => None
  end.

(** [String(v)], as a template literal or [+] on a string converts [v].
    An object is printed by [Object.prototype.toString] unless it has an
    own [toString] property, which for parsed JSON is never callable: the
    conversion then raises a TypeError ([None]).  An array is joined with
    commas. *)
Fixpoint ToString (v : jsvalue) : option jsstring :=
  match v with
  | JUndefined => Some (js "undefined")
  | JNull => Some (js "null")
  | JBool true => Some (js "true")
  | JBool false => Some (js "false")
  | JNumber n => Some (number_text n)
  | JString s => Some s
  | JArray items =>
      (fix go (l : list jsvalue) : option jsstring :=
         match l with
         | [] => Some []
         | x :: rest =>
             let e := if nullish x then Some [] else ToString x in
             match rest with
             | [] => e
             | _ :: _ => option_app e (option_app (Some (js ",")) (go rest))
             end
         end) items
  | JObject props =>
      match own (js "toString") props with
      | Some _ => None
      | None => Some (js "[object Object]")
      end
  end.

(** [items.join(sep)]: [null] and [undefined] print as the empty string. *)
Fixpoint array_join (sep : jsstring) (items : list jsvalue) : option jsstring :=
  match items with
  | [] => Some []
  | x :: rest =>
      let e := if nullish x then Some [] else ToString x in
      match rest with
      | [] => e
      | _ :: _ => option_app e (option_app (Some sep) (array_join sep rest))
      end
  end.

End Value.

(** ** [JSON.parse]

    The grammar of ECMA-404.  The conversion of a number literal to a
    double is the platform's: it is a parameter of the parser. *)

Module Json.
Import Js Value.

Definition is_digit (c : N) : bool := between 48 57 c.

Definition hex_digit (c : N) : option N :=
  if between 48 57 c then Some (c - 48)
  else if between 97 102 c then Some (c - 87)
  else if between 65 70 c then Some (c - 55)
  else None.

Definition json_space (c : N) : bool :=
  (c =? 32) || (c =? 9) || (c =? 10) || (c =? 13).

Fixpoint skip_ws (s : jsstring) : jsstring :=
  match s with
  | c :: s' => if json_space c then skip_ws s' else s
  | [] => []
  end.

Definition simple_escape (e : N) : option N :=
  if e =? 34 then Some 34            (* quotation mark *)
  else if e =? 92 then Some 92       (* reverse solidus *)
  else if e =? 47 then Some 47       (* solidus *)
  else if e =? 98 then Some 8        (* backspace *)
  else if e =? 102 then Some 12      (* form feed *)
  else if e =? 110 then Some 10      (* line feed *)
  else if e =? 114 then Some 13      (* carriage return *)
  else if e =? 116 then Some 9       (* tab *)
  else None.

Definition cons_fst (c : N) (r : option (jsstring * jsstring))
  : option (jsstring * jsstring) :=
  match r with
  | Some (t, rest) => Some (c :: t, rest)
  | None => None
  end.

(** The characters of a string after its opening quote, up to the
    closing one. *)
Fixpoint string_body (s : jsstring) : option (jsstring * jsstring) :=
  match s with
  | [] => None
  | c :: s1 =>
      if c =? 34 then Some ([], s1)
      else if c =? 92 then
        match s1 with
        | [] => None
        | e :: s2 =>
            if e =? 117 then
              match s2 with
              | a :: b :: c' :: d :: s3 =>
                  match hex_digit a, hex_digit b, hex_digit c', hex_digit d with
                  | Some x3, Some x2, Some x1, Some x0 =>
                      cons_fst (4096 * x3 + 256 * x2 + 16 * x1 + x0)
                               (string_body s3)
                  | _, _, _, _ => None
                  end
              | _ => None
              end
            else
              match simple_escape e with
              | Some u => cons_fst u (string_body s2)
              | None => None
              end
        end
      else if c <? 32 then None
      else cons_fst c (string_body s1)
  end.

Fixpoint span_digits (s : jsstring) : jsstring * jsstring :=
  match s with
  | c :: s' =>
      if is_digit c then let (d, r) := span_digits s' in (c :: d, r)
      else ([], s)
  | [] => ([], [])
  end.

(** A number literal and what follows it: an optional minus sign, then
    a single zero or digits that do not start with zero, then optionally
    a point with digits, then optionally an exponent mark with an optional
    sign and digits. *)
Definition number_literal (s : jsstring) : option (jsstring * jsstring) :=
  let (sign, s0) :=
    match s with
    | 45 :: r => ([45], r)
    | _ => ([], s)
    end in
  let int_part :=
    match s0 with
    | 48 :: r => Some ([48], r)
    | c :: _ => if is_digit c then Some (span_digits s0) else None
    | [] => None
    end in
  match int_part with
  | None => None
  | Some (i, s1) =>
      let frac :=
        match s1 with
        | 46 :: r =>
            match span_digits r with
            | ([], _) => None
            | (d, r') => Some (46 :: d, r')
            end
        | _ => Some ([], s1)
        end in
      match frac with
      | None => None
      | Some (f, s2) =>
          let exp :=
            match s2 with
            | e :: r =>
                if (e =? 101) || (e =? 69) then
                  let (sg, r1) :=
                    match r with
                    | c :: r' =>
                        if (c =? 43) || (c =? 45) then ([c], r') else ([], r)
                    | [] => ([], r)
                    end in
                  match span_digits r1 with
                  | ([], _) => None
                  | (d, r2) => Some (e :: sg ++ d, r2)
                  end
                else Some ([], s2)
            | [] => Some ([], s2)
            end in
          match exp with
          | None => None
          | Some (x, s3) => Some (sign ++ i ++ f ++ x, s3)
          end
      end
  end.

(** [obj[k] = v] while an object literal is read: a repeated key keeps
    its place and takes the last value. *)
Fixpoint set_prop (k : jsstring) (v : jsvalue) (props : list (jsstring * jsvalue))
  : list (jsstring * jsvalue) :=
  match props with
  | [] => [(k, v)]
  | (k', v') :: rest =>
      if jsstring_eqb k k' then (k', v) :: rest
      else (k', v') :: set_prop k v rest
  end.

Section Parser.

Variable number_of_literal : jsstring -> jsnumber.

Fixpoint parse_value (fuel : nat) (s : jsstring) : option (jsvalue * jsstring) :=
  match fuel with
  | O => None
  | S f =>
      match skip_ws s with
      | [] => None
      | c :: r =>
          if c =? 123 then                                   (* { *)
            match skip_ws r with
            | 125 :: r' => Some (JObject [], r')
            | _ => parse_members f r []
            end
          else if c =? 91 then                               (* [ *)
            match skip_ws r with
            | 93 :: r' => Some (JArray [], r')
            | _ => parse_elements f r []
            end
          else if c =? 34 then
            match string_body r with
            | Some (t, r') => Some (JString t, r')
            | None => None
            end
          else if startsWith (js "true") (c :: r) then
            Some (JBool true, skipn 4 (c :: r))
          else if startsWith (js "false") (c :: r) then
            Some (JBool false, skipn 5 (c :: r))
          else if startsWith (js "null") (c :: r) then
            Some (JNull, skipn 4 (c :: r))
          else
            match number_literal (c :: r) with
            | Some (lit, r') => Some (JNumber (number_of_literal lit), r')
            | None => None
            end
      end
  end

with parse_elements (fuel : nat) (s : jsstring) (acc : list jsvalue)
  : option (jsvalue * jsstring) :=
  match fuel with
  | O => None
  | S f =>
      match parse_value f s with
      | None => None
      | Some (v, r) =>
          match skip_ws r with
          | 44 :: r' => parse_elements f r' (acc ++ [v])     (* , *)
          | 93 :: r' => Some (JArray (acc ++ [v]), r')       (* ] *)
          | _ => None
          end
      end
  end

with parse_members (fuel : nat) (s : jsstring) (acc : list (jsstring * jsvalue))
  : option (jsvalue * jsstring) :=
  match fuel with
  | O => None
  | S f =>
      match skip_ws s with
      | 34 :: r =>
          match string_body r with
          | None => None
          | Some (k, r1) =>
              match skip_ws r1 with
              | 58 :: r2 =>                                  (* : *)
                  match parse_value f r2 with
                  | None => None
                  | Some (v, r3) =>
                      match skip_ws r3 with
                      | 44 :: r4 => parse_members f r4 (set_prop k v acc)
                      | 125 :: r4 => Some (JObject (set_prop k v acc), r4)
                      | _ => None
                      end
                  end
              | _ => None
              end
          end
      | _ => None
      end
  end.

(** [JSON.parse(text)]; [None] is the SyntaxError.  Every recursive call
    is made after at most one call that reads no character, so twice the
    length of the text is enough fuel. *)
Definition JSON_parse (text : jsstring) : option jsvalue :=
  match parse_value (2 * List.length text + 2) text with
  | Some (v, r) =>
      match skip_ws r with
      | [] => Some v
      | _ :: _ => None
      end
  | None => None
  end.

End Parser.

(** The conversion on integer literals of at most fifteen digits, where
    the double is the integer itself and prints as its digits ([-0]
    prints as [0]).  Longer literals, fractions and exponents need the
    platform's floating point and are not characterised here: they are
    given their own literal as text. *)
Definition integer_literal (lit : jsstring) : jsnumber :=
  let digits := match lit with 45 :: d => d | _ => lit end in
  let zero := forallb (fun c => (c =? 48) || negb (is_digit c)) lit in
  {| number_truthy := negb zero;
     number_text := if zero && forallb is_digit digits then [48] else lit |}.

End Json.

(** ** The frame decoder ([handleAnalyze], the read loop) *)

Module Decoder.
Import Js Value.

Definition data_prefix : jsstring := Eval vm_compute in js "data: ".
Definition DONE : jsstring := Eval vm_compute in js "[DONE]".
Definition LF : jsstring := [10].

(** What one analysis holds while the body is read: the [TextDecoder],
    the locals [buffer] and [result], the React state [analysis] written
    by [setAnalysis], and the history of the values of [content] appended
    to [result]. *)
Record session := {
  decoder : TextDecoder;
  buffer : jsstring;
  result : jsstring;
  analysis : jsstring;
  deltas : list jsstring
}.

(** [setAnalysis("")], [new TextDecoder()], [buffer = ""], [result = ""]. *)
Definition start : session :=
  {| decoder := new_TextDecoder; buffer := []; result := [];
     analysis := []; deltas := [] |}.

Definition with_buffer (s : session) (b : jsstring) : session :=
  {| decoder := decoder s; buffer := b; result := result s;
     analysis := analysis s; deltas := deltas s |}.

(** [result += content; setAnalysis(result)] *)
Definition append (s : session) (text : jsstring) : session :=
  {| decoder := decoder s; buffer := buffer s;
     result := result s ++ text;
     analysis := result s ++ text;
     deltas := deltas s ++ [text] |}.

(** [if (line.endsWith("\r")) line = line.slice(0, -1)] *)
Definition strip_cr (line : jsstring) : jsstring :=
  if endsWith_cr line then removelast line else line.

(** [parsed.choices?.[0]?.delta?.content]; [None] when reading [choices]
    raises (the parsed value is [null]). *)
Definition content_of (parsed : jsvalue) : option jsvalue :=
  match get parsed (js "choices") with
  | None => None
  | Some choices =>
      Some (opt_get (opt_get (opt_index0 choices) (js "delta")) (js "content"))
  end.

Section Loop.

(** The platform's [JSON.parse]; [None] when it throws. *)
Variable JSON_parse : jsstring -> option jsvalue.

(** The body of [try]: [None] when anything in it throws, otherwise the
    text to append, if [content] is truthy. *)
Definition try_frame (jsonStr : jsstring) : option (option jsstring) :=
  match JSON_parse jsonStr with
  | None => None
  | Some parsed =>
      match content_of parsed with
      | None => None
      | Some content =>
          if ToBoolean content then
            match ToString content with
            | Some text => Some (Some text)
            | None => None
            end
          else Some None
      end
  end.

(** The inner [while]: one iteration per line found in the buffer.  Each
    iteration that continues removes at least the newline from the
    buffer, so [fuel] bounded below by the buffer's length is never
    exhausted. *)
Fixpoint drain (fuel : nat) (s : session) : session :=
  match indexOf_nl (buffer s) with
  | None => s
  | Some newlineIndex =>
      match fuel with
      | O => s
      | S fuel' =>
          let line := firstn newlineIndex (buffer s) in
          let s := with_buffer s (skipn (S newlineIndex) (buffer s)) in
          let line := strip_cr line in
          if negb (startsWith data_prefix line) then drain fuel' s
          else
            let jsonStr := trim (skipn 6 line) in
            if jsstring_eqb jsonStr DONE then s
            else
              match try_frame jsonStr with
              | Some (Some text) => drain fuel' (append s text)
              | Some None => drain fuel' s
              | None => with_buffer s (line ++ LF ++ buffer s)
              end
      end
  end.

(** One turn of the outer loop for a chunk [value] that [reader.read()]
    delivered. *)
Definition on_chunk (s : session) (value : list byte) : session :=
  let (d, text) := decode (decoder s) value in
  let s := {| decoder := d; buffer := buffer s ++ text; result := result s;
              analysis := analysis s; deltas := deltas s |} in
  drain (List.length (buffer s)) s.

(** The outer loop, until [done]. *)
Definition read_all (chunks : list (list byte)) : session :=
  fold_left on_chunk chunks start.

(** *** The wire format, line by line

    What the loop makes of one line of the stream, and the stream seen
    as a whole: these definitions state what the decoder is expected to
    compute, and are compared with the loop in the theorems. *)

Inductive frame :=
| Ignored                  (* not a [data: ] line *)
| Sentinel                 (* the payload is [DONE] *)
| Malformed                (* the payload does not parse *)
| Silent                   (* a record with no text *)
| Text (text : jsstring).  (* a record with a text delta *)

Definition classify (line : jsstring) : frame :=
  let line := strip_cr line in
  if negb (startsWith data_prefix line) then Ignored
  else
    let jsonStr := trim (skipn 6 line) in
    if jsstring_eqb jsonStr DONE then Sentinel
    else
      match try_frame jsonStr with
      | Some (Some text) => Text text
      | Some None => Silent
      | None => Malformed
      end.

(** The lines of a text that end with a newline, and the rest. *)
Fixpoint lines_tail (s : jsstring) : list jsstring * jsstring :=
  match s with
  | [] => ([], [])
  | c :: s' =>
      let (ls, t) := lines_tail s' in
      if c =? 10 then ([] :: ls, t)
      else
        match ls with
        | [] => ([], c :: t)
        | l :: ls' => ((c :: l) :: ls', t)
        end
  end.

Definition complete_lines (s : jsstring) : list jsstring := fst (lines_tail s).

(** The whole body as [TextDecoder] reads it. *)
Definition stream_text (bytes : list byte) : jsstring :=
  snd (decode new_TextDecoder bytes).

Definition text_frames (text : jsstring) : list frame :=
  map classify (complete_lines text).

Definition frames_of (bytes : list byte) : list frame :=
  text_frames (stream_text bytes).

(** The text deltas of a sequence of frames. *)
Fixpoint texts (fs : list frame) : list jsstring :=
  match fs with
  | [] => []
  | Text t :: rest => t :: texts rest
  | _ :: rest => texts rest
  end.

(** The frames before the first sentinel, and those after it. *)
Fixpoint until_sentinel (fs : list frame) : list frame :=
  match fs with
  | [] => []
  | Sentinel :: _ => []
  | f :: rest => f :: until_sentinel rest
  end.

Fixpoint after_sentinel (fs : list frame) : list frame :=
  match fs with
  | [] => []
  | Sentinel :: rest => rest
  | _ :: rest => after_sentinel rest
  end.

(** A valid frame stream: every [data: ] line carries the sentinel or a
    record that parses, and the sentinel ends the stream, no text delta
    follows it. *)
Definition valid_frame_stream (bytes : list byte) : Prop :=
  ~ In Malformed (frames_of bytes) /\
  texts (after_sentinel (frames_of bytes)) = [].

(** The payload text of every frame up to the sentinel. *)
Definition payload_texts (bytes : list byte) : list jsstring :=
  texts (until_sentinel (frames_of bytes)).

(** A text made of whole lines. *)
Definition aligned (c : jsstring) : Prop := snd (lines_tail c) = [].

(** What a pass of the inner loop does to a session: it takes the whole
    lines [c] off the buffer, appends their texts in order, and stops at
    the end of the complete lines or after a sentinel. *)
Definition consumes (s s' : session) (c : jsstring) : Prop :=
  buffer s = c ++ buffer s' /\
  aligned c /\
  deltas s' = deltas s ++ texts (text_frames c) /\
  decoder s' = decoder s /\
  (indexOf_nl (buffer s') = None \/ In Sentinel (text_frames c)).

End Loop.

(** *** A stream to run *)

(** The bytes of a literal, every apostrophe read as a double quote. *)
Definition bytes_of (s : string) : list byte :=
  map (fun b => if Byte.eqb b x27 then x22 else b) (list_byte_of_string s).

(** A line of the stream: the bytes of the literal and a newline. *)
Definition line (s : string) : list byte := bytes_of s ++ [x0a].

(** The reference parser, with the conversion of integer literals. *)
Definition parse : jsstring -> option jsvalue :=
  Json.JSON_parse Json.integer_literal.

Definition hello_stream : list byte :=
  line "data: {'choices':[{'delta':{'content':'He'}}]}"
  ++ line ""
  ++ line "data: {'choices':[{'index':0,'delta':{'content':'llo'}}]}"
  ++ line "data: [DONE]".

(** The same bytes cut inside the prefix, inside a record, and between a
    newline and the next payload. *)
Definition hello_chunks : list (list byte) :=
  [ bytes_of "da";
    bytes_of "ta: {'choices':[{'delta':{'content':'He'}}]}" ++ [x0a];
    [x0a] ++ bytes_of "data: {'choices':[{'index':0,'del";
    line "ta':{'content':'llo'}}]}";
    line "data: [DONE]" ].

End Decoder.

(** ** The section segmenter ([parseSections]) *)

Module Segmenter.
Import Js.

Record section := {
  icon : jsstring;
  title : jsstring;
  content : jsstring
}.

Definition sectionIcons : list (jsstring * jsstring) := Eval vm_compute in
  [ (js "Project Overview", js "🏗️");
    (js "Tech Stack Analysis", js "⚙️");
    (js "Architecture Pattern", js "🧩");
    (js "Repository Health Score", js "📊");
    (js "Good First Issues", js "🐛");
    (js "Contribution Difficulty", js "🎯");
    (js "Open Source Onboarding Plan", js "🚀") ].

Definition default_icon : jsstring := Eval vm_compute in js "📄".
Definition preamble_icon : jsstring := Eval vm_compute in js "📋".

(** *** The heading pattern

    The pattern of [line.match] reads, with the [u] flag: at the start of
    the line two number signs, one or more white-space characters, then
    optionally one code point of U+1F000..U+1FFFF followed by any number
    of white-space characters, then the capture group: one or more
    characters that are not line terminators.  It is matched with the
    priorities of a backtracking matcher: greedy quantifiers give back one
    character at a time and the optional group is tried before it is
    skipped. *)

(** [.] matches everything but the four line terminators. *)
Definition is_line_terminator (c : N) : bool :=
  (c =? 10) || (c =? 13) || (c =? 0x2028) || (c =? 0x2029).

Fixpoint dot_run (s : jsstring) : jsstring :=
  match s with
  | c :: s' => if is_line_terminator c then [] else c :: dot_run s'
  | [] => []
  end.

(** The capture group at the end of the pattern: the longest run, of at
    least one character. *)
Definition dot_plus (s : jsstring) : option jsstring :=
  match dot_run s with
  | [] => None
  | run => Some run
  end.

(** The number of leading white-space characters. *)
Fixpoint space_run (s : jsstring) : nat :=
  match s with
  | c :: s' => if is_space c then S (space_run s') else O
  | [] => O
  end.

(** A code point of U+1F000..U+1FFFF is a surrogate pair whose first unit
    is in D83C..D83F; what follows it. *)
Definition after_symbol (s : jsstring) : option jsstring :=
  match s with
  | hi :: lo :: rest =>
      if between 0xD83C 0xD83F hi && between 0xDC00 0xDFFF lo
      then Some rest else None
  | _ => None
  end.

(** Tries [k], then [k - 1], down to [0]. *)
Fixpoint backtrack {A : Type} (attempt : nat -> option A) (k : nat) : option A :=
  match attempt k with
  | Some r => Some r
  | None =>
      match k with
      | O => None
      | S k' => backtrack attempt k'
      end
  end.

(** The optional symbol with its white space, then the capture group. *)
Definition title_part (s : jsstring) : option jsstring :=
  let with_symbol :=
    match after_symbol s with
    | Some rest =>
        backtrack (fun j => dot_plus (skipn j rest)) (space_run rest)
    | None => None
    end in
  match with_symbol with
  | Some m => Some m
  | None => dot_plus s
  end.

(** [line.match(...)]: the first capture group, [None] for no match. *)
Definition h2Match (line : jsstring) : option jsstring :=
  if startsWith (js "##") line then
    let r := skipn 2 line in
    match space_run r with
    | O => None
    | S m => backtrack (fun i => title_part (skipn (S i) r)) m
    end
  else None.

(** *** The loop *)

(** The local [current]. *)
Record open_section := {
  cur_icon : jsstring;
  cur_title : jsstring;
  cur_lines : list jsstring
}.

(** [{ icon, title, content: current.lines.join("\n").trim() }] *)
Definition close (c : open_section) : section :=
  {| icon := cur_icon c; title := cur_title c;
     content := trim (join [10] (cur_lines c)) |}.

(** [Object.entries(sectionIcons).find(([k]) => rawTitle.includes(k))?.[1]
    || default] *)
Definition icon_for (rawTitle : jsstring) : jsstring :=
  match find (fun e => includes (fst e) rawTitle) sectionIcons with
  | Some (_, i) => match i with [] => default_icon | _ => i end
  | None => default_icon
  end.

(** [sections[sections.length - 1].content += text] *)
Fixpoint append_to_last (sections : list section) (text : jsstring) : list section :=
  match sections with
  | [] => []
  | [s] => [{| icon := icon s; title := title s; content := content s ++ text |}]
  | s :: rest => s :: append_to_last rest text
  end.

(** [!sections.length || sections[sections.length - 1].title !== ""] *)
Definition needs_preamble (sections : list section) : bool :=
  match rev sections with
  | [] => true
  | s :: _ => negb (jsstring_eqb (title s) [])
  end.

Record locals := {
  sections : list section;
  current : option open_section
}.

Definition push_current (st : locals) : list section :=
  match current st with
  | Some c => sections st ++ [close c]
  | None => sections st
  end.

(** The body of [for (const line of lines)]. *)
Definition step (st : locals) (line : jsstring) : locals :=
  match h2Match line with
  | Some m =>
      let rawTitle := trim m in
      {| sections := push_current st;
         current := Some {| cur_icon := icon_for rawTitle;
                            cur_title := rawTitle; cur_lines := [] |} |}
  | None =>
      match current st with
      | Some c =>
          {| sections := sections st;
             current := Some {| cur_icon := cur_icon c; cur_title := cur_title c;
                                cur_lines := cur_lines c ++ [line] |} |}
      | None =>
          match trim line with
          | [] => st
          | _ :: _ =>
              let ss :=
                if needs_preamble (sections st)
                then sections st ++ [{| icon := preamble_icon; title := [];
                                        content := [] |}]
                else sections st in
              {| sections := append_to_last ss (line ++ [10]);
                 current := None |}
          end
      end
  end.

Definition parseSections (md : jsstring) : list section :=
  push_current
    (fold_left step (split_nl md) {| sections := []; current := None |}).

(** *** Text before the first heading

    What the loop collects while no heading has been seen: the lines that
    are not blank, each followed by a newline, in one section without a
    title; nothing at all when every line is blank. *)

Definition blank (line : jsstring) : bool :=
  match trim line with
  | [] => true
  | _ :: _ => false
  end.

Definition preamble_text (lines : list jsstring) : jsstring :=
  List.concat (map (fun l => l ++ [10]) (filter (fun l => negb (blank l)) lines)).

Definition preamble_sections (text : jsstring) : list section :=
  match text with
  | [] => []
  | _ :: _ => [{| icon := preamble_icon; title := []; content := text |}]
  end.

(** *** The memo cell of the page

    [useMemo(() => parseSections(analysis), [analysis])]: the cell keeps
    the dependency and the value of the last computation, and a render
    computes again when the dependency differs (or the cell was dropped). *)
Record memo := {
  memo_dep : jsstring;
  memo_value : list section
}.

Definition useMemo (cell : option memo) (analysis : jsstring)
  : option memo * list section :=
  let fresh := parseSections analysis in
  match cell with
  | Some m =>
      if jsstring_eqb (memo_dep m) analysis then (cell, memo_value m)
      else (Some {| memo_dep := analysis; memo_value := fresh |}, fresh)
  | None => (Some {| memo_dep := analysis; memo_value := fresh |}, fresh)
  end.

(** A cell that holds what [parseSections] gives for its dependency. *)
Definition consistent (cell : option memo) : Prop :=
  match cell with
  | Some m => memo_value m = parseSections (memo_dep m)
  | None => True
  end.

(** The renders of the page for a sequence of values of [analysis]: the
    sections shown by the last one. *)
Fixpoint render_all (cell : option memo) (shown : list section)
    (analyses : list jsstring) : option memo * list section :=
  match analyses with
  | [] => (cell, shown)
  | a :: rest =>
      let (cell', v) := useMemo cell a in
      render_all cell' v rest
  end.

End Segmenter.

(** ** The edge function [analyze-repo] *)

Module Aggregator.
Import Js Value.

(** *** [JSON.stringify] of the error objects *)

Definition hex_char (d : N) : N := if d <? 10 then 48 + d else 87 + d.

(** A code unit as a four-digit escape. *)
Definition unicode_escape (c : N) : jsstring :=
  [92; 117; hex_char (c / 4096 mod 16); hex_char (c / 256 mod 16);
   hex_char (c / 16 mod 16); hex_char (c mod 16)].

Definition quote_unit (c : N) : jsstring :=
  if c =? 8 then [92; 98]
  else if c =? 9 then [92; 116]
  else if c =? 10 then [92; 110]
  else if c =? 12 then [92; 102]
  else if c =? 13 then [92; 114]
  else if c =? 34 then [92; 34]
  else if c =? 92 then [92; 92]
  else if c <? 32 then unicode_escape c
  else [c].

(** The characters of a quoted string: surrogate pairs are kept, lone
    surrogates are escaped. *)
Fixpoint quote_units (s : jsstring) : jsstring :=
  match s with
  | [] => []
  | c :: r =>
      if between 0xD800 0xDBFF c then
        match r with
        | lo :: r' =>
            if between 0xDC00 0xDFFF lo then c :: lo :: quote_units r'
            else unicode_escape c ++ quote_units r
        | [] => unicode_escape c
        end
      else if between 0xDC00 0xDFFF c then unicode_escape c ++ quote_units r
      else quote_unit c ++ quote_units r
  end.

(** [JSON.stringify({ error: message })] *)
Definition stringify_error (message : jsstring) : jsstring :=
  [123; 34] ++ js "error" ++ [34; 58; 34] ++ quote_units message ++ [34; 125].

(** *** Requests, responses and the outside world *)

Inductive body :=
| BodyNull
| BodyText (text : jsstring)
| BodyStream (chunks : list (list byte)).

Record response := {
  status : N;
  headers : list (jsstring * jsstring);
  payload : body
}.

Definition corsHeaders : list (jsstring * jsstring) :=
  [ (js "Access-Control-Allow-Origin", js "*");
    (js "Access-Control-Allow-Headers",
     js "authorization, x-client-info, apikey, content-type, x-supabase-client-platform, x-supabase-client-platform-version, x-supabase-client-runtime, x-supabase-client-runtime-version") ].

(** [new Response(JSON.stringify({ error }), { status, headers })] *)
Definition error_response (code : N) (message : jsstring) : response :=
  {| status := code;
     headers := corsHeaders ++ [(js "Content-Type", js "application/json")];
     payload := BodyText (stringify_error message) |}.

(** An inbound request: its method and what [req.json()] yields, the
    parsed body or the message of the error it rejects with. *)
Record request := {
  method : jsstring;
  json_body : jsstring + jsvalue
}.

(** What a GitHub endpoint answers: the status and what [res.text()] and
    [res.json()] yield ([None] when they reject). *)
Record github_response := {
  gh_status : N;
  gh_text : option jsstring;
  gh_json : option jsvalue
}.

(** What the AI gateway answers: the status, the body stream, and what
    [response.text()] yields (the text, or the message it rejects with). *)
Record gateway_response := {
  gw_status : N;
  gw_body : list (list byte);
  gw_text : jsstring + jsstring
}.

(** [res.ok] *)
Definition ok (code : N) : bool := between 200 299 code.

(** The request sent to the gateway. *)
Record gateway_request := {
  authorization : jsstring;
  model : jsstring;
  system_content : jsstring;
  user_content : jsstring;
  stream : bool
}.

(** Errors raised by the runtime itself; their messages are the
    runtime's. *)
Inductive runtime_error :=
| DestructureNullish   (* destructuring [null] *)
| ReadOfNullish        (* a property of [null] or [undefined] *)
| NotPrimitive         (* an object that cannot be printed *)
| NotAFunction.        (* [map] or [join] of a value that is no array *)

(** [fetch] rejects with a message or resolves with a response. *)
Record world := {
  env_LOVABLE_API_KEY : option jsstring;
  github : jsstring -> jsstring + github_response;
  gateway : gateway_request -> jsstring + gateway_response;
  runtime_message : runtime_error -> jsstring
}.

Inductive event :=
| EnvGet (name : jsstring)
| FetchGitHub (url accept : jsstring)
| FetchGateway (req : gateway_request)
| ConsoleError (args : list jsstring).

(** *** Computations that log events and may throw

    The left summand is the message of the thrown [Error]. *)
Definition M (A : Type) : Type := ((jsstring + A) * list event)%type.

Definition ret {A : Type} (a : A) : M A := (inr a, []).
Definition throw {A : Type} (message : jsstring) : M A := (inl message, []).
Definition tell (e : event) : M unit := (inr tt, [e]).

Definition bind {A B : Type} (m : M A) (k : A -> M B) : M B :=
  match m with
  | (inl e, t) => (inl e, t)
  | (inr a, t) => let (r, t') := k a in (r, t ++ t')
  end.

Notation "x <- m ;; k" := (bind m (fun x => k))
  (at level 61, m at next level, right associativity).
Notation "m ;;; k" := (bind m (fun _ => k))
  (at level 61, right associativity).

(** [try { m } catch { return fallback }] *)
Definition try_catch {A : Type} (m : M A) (fallback : A) : M A :=
  match m with
  | (inl _, t) => (inr fallback, t)
  | (inr a, t) => (inr a, t)
  end.

(** The calls to the gateway in a trace. *)
Definition is_gateway_call (e : event) : bool :=
  match e with
  | FetchGateway _ => true
  | _ => false
  end.

Definition gateway_calls (t : list event) : nat :=
  List.length (filter is_gateway_call t).

Section Handler.

Variable w : world.

(** A resolved or rejected promise, awaited. *)
Definition await {A : Type} (p : jsstring + A) : M A :=
  match p with
  | inl message => throw message
  | inr a => ret a
  end.

Definition raise {A : Type} (e : runtime_error) : M A :=
  throw (runtime_message w e).

(** [`${v}`] *)
Definition str (v : jsvalue) : M jsstring :=
  match ToString v with
  | Some s => ret s
  | None => raise NotPrimitive
  end.

(** [v.k], raising on [null] and [undefined]. *)
Definition prop (v : jsvalue) (k : jsstring) : M jsvalue :=
  match get v k with
  | Some x => ret x
  | None => raise ReadOfNullish
  end.

(** The field [k] in [const { ... } = v]. *)
Definition field (v : jsvalue) (k : jsstring) : M jsvalue :=
  match get v k with
  | Some x => ret x
  | None => raise DestructureNullish
  end.

Definition GITHUB_API : jsstring := js "https://api.github.com".

(** [`${GITHUB_API}/repos/${owner}/${repo}`] *)
Definition repo_url (owner repo : jsvalue) : M jsstring :=
  o <- str owner ;;
  r <- str repo ;;
  ret (GITHUB_API ++ js "/repos/" ++ o ++ js "/" ++ r).

(** The three addresses, for an owner and a repository already printed. *)
Definition stats_url (o r : jsstring) : jsstring :=
  GITHUB_API ++ js "/repos/" ++ o ++ js "/" ++ r.
Definition readme_url (o r : jsstring) : jsstring :=
  stats_url o r ++ js "/readme".
Definition issues_url (o r : jsstring) : jsstring :=
  stats_url o r ++ js "/issues?state=open&per_page=15".

Definition github_fetch (url accept : jsstring) : M github_response :=
  tell (FetchGitHub url accept) ;;;
  await (github w url).

(** Reading the body of a GitHub response; a rejection is always caught
    by the [catch] of the function that reads, which drops its message. *)
Definition read_body {A : Type} (o : option A) : M A :=
  match o with
  | Some a => ret a
  | None => throw []
  end.

(** [fetchReadme] *)
Definition fetchReadme (owner repo : jsvalue) : M jsstring :=
  try_catch
    (base <- repo_url owner repo ;;
     res <- github_fetch (base ++ js "/readme") (js "application/vnd.github.raw") ;;
     if negb (ok (gh_status res)) then ret (js "README not found.")
     else
       text <- read_body (gh_text res) ;;
       ret (firstn (N.to_nat 6000) text))
    (js "Failed to fetch README.").

(** One entry of the list [fetchIssues] returns. *)
Record issue := {
  issue_title : jsvalue;
  issue_labels : list jsvalue;
  issue_state : jsvalue;
  issue_comments : jsvalue;
  issue_url : jsvalue
}.

(** [xs.map(f)] for an [f] that may throw. *)
Fixpoint map_M {A B : Type} (f : A -> M B) (xs : list A) : M (list B) :=
  match xs with
  | [] => ret []
  | x :: rest =>
      y <- f x ;;
      ys <- map_M f rest ;;
      ret (y :: ys)
  end.

(** [i.labels?.map((l) => l.name) ?? []] *)
Definition labels_of (i : jsvalue) : M (list jsvalue) :=
  labels <- prop i (js "labels") ;;
  match labels with
  | JUndefined | JNull => ret []
  | JArray ls => map_M (fun l => prop l (js "name")) ls
  | _ => raise NotAFunction
  end.

(** The callback of [issues.map]. *)
Definition summarize (i : jsvalue) : M issue :=
  t <- prop i (js "title") ;;
  ls <- labels_of i ;;
  s <- prop i (js "state") ;;
  c <- prop i (js "comments") ;;
  u <- prop i (js "html_url") ;;
  ret {| issue_title := t; issue_labels := ls; issue_state := s;
         issue_comments := c; issue_url := u |}.

(** [fetchIssues] *)
Definition fetchIssues (owner repo : jsvalue) : M (list issue) :=
  try_catch
    (base <- repo_url owner repo ;;
     res <- github_fetch (base ++ js "/issues?state=open&per_page=15")
                         (js "application/vnd.github+json") ;;
     if negb (ok (gh_status res)) then ret []
     else
       issues <- read_body (gh_json res) ;;
       match issues with
       | JArray items => map_M summarize items
       | _ => raise NotAFunction
       end)
    [].

(** The object [fetchRepoStats] returns. *)
Record repo_stats := {
  stars : jsvalue;
  forks : jsvalue;
  open_issues : jsvalue;
  language : jsvalue;
  license : jsvalue;
  last_updated : jsvalue;
  description : jsvalue;
  topics : jsvalue
}.

(** [fetchRepoStats]; [None] is [null]. *)
Definition fetchRepoStats (owner repo : jsvalue) : M (option repo_stats) :=
  try_catch
    (base <- repo_url owner repo ;;
     res <- github_fetch base (js "application/vnd.github+json") ;;
     if negb (ok (gh_status res)) then throw (js "Repo not found")
     else
       data <- read_body (gh_json res) ;;
       st <- prop data (js "stargazers_count") ;;
       fk <- prop data (js "forks_count") ;;
       oi <- prop data (js "open_issues_count") ;;
       lg <- prop data (js "language") ;;
       lc <- prop data (js "license") ;;
       up <- prop data (js "updated_at") ;;
       ds <- prop data (js "description") ;;
       tp <- prop data (js "topics") ;;
       ret (Some {| stars := st; forks := fk; open_issues := oi; language := lg;
                    license := coalesce (opt_get lc (js "spdx_id"))
                                        (JString (js "None"));
                    last_updated := up; description := ds;
                    topics := coalesce tp (JArray []) |}))
    None.

(** [xs.join(sep) || fallback] for a value [xs] that must be an array. *)
Definition join_or (xs : jsvalue) (sep fallback : jsstring) : M jsstring :=
  match xs with
  | JArray items =>
      match array_join sep items with
      | Some [] => ret fallback
      | Some s => ret s
      | None => raise NotPrimitive
      end
  | _ => raise NotAFunction
  end.

(** [xs.map((x, idx) => f(idx, x))] *)
Fixpoint map_index_M {A B : Type} (f : N -> A -> M B) (idx : N) (xs : list A)
  : M (list B) :=
  match xs with
  | [] => ret []
  | x :: rest =>
      y <- f idx x ;;
      ys <- map_index_M f (idx + 1) rest ;;
      ret (y :: ys)
  end.

(** One line of the issue list of the prompt. *)
Definition issue_line (idx : N) (i : issue) : M jsstring :=
  t <- str (issue_title i) ;;
  ls <- join_or (JArray (issue_labels i)) (js ", ") (js "none") ;;
  c <- str (issue_comments i) ;;
  ret (decimal (idx + 1) ++ js ". **" ++ t ++ js "** — Labels: [" ++ ls
       ++ js "] — Comments: " ++ c).

(** The last interpolation of [userContent]. *)
Definition issues_block (issues : list issue) : M jsstring :=
  match issues with
  | [] => ret (js "No open issues found.")
  | _ :: _ =>
      ls <- map_index_M issue_line 0 issues ;;
      ret (join [10] ls)
  end.

Definition systemPrompt : jsstring :=
  join [10]
    [ js "You are a Senior CNCF Architect & Open Source Maintainer. Analyze the given GitHub repository data and provide a comprehensive, structured analysis.";
      [];
      js "You MUST format your response using these exact sections with markdown:";
      [];
      js "## 🏗️ Project Overview";
      js "Summarize purpose and goals.";
      [];
      js "## ⚙️ Tech Stack Analysis";
      js "Identify languages, frameworks, tools.";
      [];
      js "## 🧩 Architecture Pattern";
      js "Identify: Microservices / Monolith / Operator / CLI / Library / Framework / etc.";
      [];
      js "## 📊 Repository Health Score: X/100";
      js "Score 0-100 considering: stars, recent activity, open issues, beginner issues, README quality. Justify clearly.";
      [];
      js "## 🐛 Good First Issues";
      jsq "List issues labeled 'good first issue', 'help wanted', 'beginner'. If none, say so.";
      [];
      js "## 🎯 Contribution Difficulty: [Easy/Medium/Hard]";
      js "Explain reasoning.";
      [];
      js "## 🚀 Open Source Onboarding Plan";
      js "Step-by-step beginner guide to contribute to this project." ].

(** The text of [userContent] up to the README, between the README and
    the issue list, and the whole. *)
Definition stats_block (o r : jsstring) (s1 s2 s3 s4 s5 s6 s7 tp : jsstring)
  : jsstring :=
  join [10]
    [ js "Analyze this GitHub repository: **" ++ o ++ js "/" ++ r ++ js "**";
      [];
      js "**Repository Stats:**";
      js "- ⭐ Stars: " ++ s1;
      js "- 🍴 Forks: " ++ s2;
      js "- 🐛 Open Issues: " ++ s3;
      js "- 💻 Language: " ++ s4;
      js "- 📜 License: " ++ s5;
      js "- 📅 Last Updated: " ++ s6;
      js "- 📝 Description: " ++ s7;
      js "- 🏷️ Topics: " ++ tp;
      [];
      js "**README (first 6000 chars):**";
      js "```";
      [] ].

Definition issues_heading : jsstring :=
  join [10] [ []; js "```"; []; js "**Open Issues (up to 15):**"; [] ].

(** The interpolations of [userContent] that come before the README. *)
Definition stats_head (owner repo : jsvalue) (st : repo_stats) : M jsstring :=
  o <- str owner ;;
  r <- str repo ;;
  s1 <- str (stars st) ;;
  s2 <- str (forks st) ;;
  s3 <- str (open_issues st) ;;
  s4 <- str (language st) ;;
  s5 <- str (license st) ;;
  s6 <- str (last_updated st) ;;
  s7 <- str (description st) ;;
  tp <- join_or (topics st) (js ", ") (js "None") ;;
  ret (stats_block o r s1 s2 s3 s4 s5 s6 s7 tp).

Definition userContent (owner repo : jsvalue) (st : repo_stats)
    (readme : jsstring) (issues : list issue) : M jsstring :=
  head <- stats_head owner repo st ;;
  block <- issues_block issues ;;
  ret (head ++ readme ++ issues_heading ++ block).

(** [`Repository ${owner}/${repo} not found or inaccessible.`] *)
Definition not_found_message (owner repo : jsvalue) : M jsstring :=
  o <- str owner ;;
  r <- str repo ;;
  ret (js "Repository " ++ o ++ js "/" ++ r ++ js " not found or inaccessible.").

(** The handler from the start of [try] to the request for the gateway:
    an early response ([inl]) or the request to send ([inr]). *)
Definition prepare (req : request) : M (response + gateway_request) :=
  body <- await (json_body req) ;;
  owner <- field body (js "owner") ;;
  repo <- field body (js "repo") ;;
  if negb (ToBoolean owner) || negb (ToBoolean repo) then
    ret (inl (error_response 400 (js "Please provide owner and repo")))
  else
    tell (EnvGet (js "LOVABLE_API_KEY")) ;;;
    match env_LOVABLE_API_KEY w with
    | None | Some [] => throw (js "LOVABLE_API_KEY is not configured")
    | Some LOVABLE_API_KEY =>
        readme <- fetchReadme owner repo ;;
        issues <- fetchIssues owner repo ;;
        stats <- fetchRepoStats owner repo ;;
        match stats with
        | None =>
            message <- not_found_message owner repo ;;
            ret (inl (error_response 404 message))
        | Some st =>
            user <- userContent owner repo st readme issues ;;
            ret (inr {| authorization := js "Bearer " ++ LOVABLE_API_KEY;
                        model := js "google/gemini-3-flash-preview";
                        system_content := systemPrompt;
                        user_content := user;
                        stream := true |})
        end
    end.

(** From [if (!response.ok)] to the end of [try]. *)
Definition relay (res : gateway_response) : M response :=
  if negb (ok (gw_status res)) then
    if gw_status res =? 429 then
      ret (error_response 429 (js "Rate limit exceeded. Please try again later."))
    else if gw_status res =? 402 then
      ret (error_response 402 (js "AI usage limit reached. Please add credits."))
    else
      t <- await (gw_text res) ;;
      tell (ConsoleError [js "AI gateway error:"; decimal (gw_status res); t]) ;;;
      ret (error_response 500 (js "AI analysis failed."))
  else
    ret {| status := 200;
           headers := corsHeaders ++ [(js "Content-Type", js "text/event-stream")];
           payload := BodyStream (gw_body res) |}.

(** The body of [try]. *)
Definition serve_try (req : request) : M response :=
  p <- prepare req ;;
  match p with
  | inl early => ret early
  | inr greq =>
      tell (FetchGateway greq) ;;;
      res <- await (gateway w greq) ;;
      relay res
  end.

(** The handler given to [serve]: the response and the trace. *)
Definition serve (req : request) : response * list event :=
  if jsstring_eqb (method req) (js "OPTIONS") then
    ({| status := 200; headers := corsHeaders; payload := BodyNull |}, [])
  else
    match serve_try req with
    | (inr r, t) => (r, t)
    | (inl message, t) =>
        (error_response 500 message,
         t ++ [ConsoleError [js "analyze-repo error:"; message]])
    end.

(** *** Requests and failures, as the theorems name them *)

(** A request that is not a preflight and whose body gives a truthy
    [owner] and a truthy [repo]. *)
Definition analysis_request (req : request) (owner repo : jsvalue) : Prop :=
  jsstring_eqb (method req) (js "OPTIONS") = false /\
  exists body,
    json_body req = inr body /\
    get body (js "owner") = Some owner /\
    get body (js "repo") = Some repo /\
    ToBoolean owner = true /\ ToBoolean repo = true.

(** The credential is set. *)
Definition configured (key : jsstring) : Prop :=
  env_LOVABLE_API_KEY w = Some key /\ key <> [].

(** The README endpoint answered with a status outside 200..299. *)
Definition readme_not_found (answer : jsstring + github_response) : Prop :=
  exists res, answer = inr res /\ ok (gh_status res) = false.


(** The issue list failed: [fetch] rejected, the status is outside
    200..299, the body is not JSON, it is not an array, or one of its
    entries cannot be summarized. *)
Definition issues_failed (answer : jsstring + github_response) : Prop :=
  (exists e, answer = inl e) \/
  (exists res, answer = inr res /\
     (ok (gh_status res) = false \/
      gh_json res = None \/
      (exists v, gh_json res = Some v /\ forall items, v <> JArray items) \/
      (exists items e, gh_json res = Some (JArray items) /\
                       fst (map_M summarize items) = inl e))).

(** The statistics failed: [fetch] rejected, the status is outside
    200..299, the body is not JSON, or it is [null]. *)
Definition stats_failed (answer : jsstring + github_response) : Prop :=
  (exists e, answer = inl e) \/
  (exists res, answer = inr res /\
     (ok (gh_status res) = false \/
      gh_json res = None \/
      (exists v, gh_json res = Some v /\ nullish v = true))).



Definition issues_render (owner repo : jsvalue) : Prop :=
  exists issues block,
    fst (fetchIssues owner repo) = inr issues /\
    fst (issues_block issues) = inr block.

(** An entry of the issue list on which the callback of [issues.map]
    does not raise: the entry is not [null], and its [labels] are absent,
    [null], or an array that holds no [null]. *)
Definition well_formed_entry (i : jsvalue) : bool :=
  negb (nullish i) &&
  match opt_get i (js "labels") with
  | JUndefined | JNull => true
  | JArray ls => forallb (fun l => negb (nullish l)) ls
  | _ => false
  end.

(** The object that the callback of [issues.map] makes of such an entry:
    [{ title: i.title, labels: i.labels?.map((l) => l.name) ?? [],
    state: i.state, comments: i.comments, url: i.html_url }]. *)
Definition summary (i : jsvalue) : issue :=
  {| issue_title := opt_get i (js "title");
     issue_labels :=
       match opt_get i (js "labels") with
       | JArray ls => map (fun l => opt_get l (js "name")) ls
       | _ => []
       end;
     issue_state := opt_get i (js "state");
     issue_comments := opt_get i (js "comments");
     issue_url := opt_get i (js "html_url") |}.

End Handler.

(** A computation whose trace has only events that satisfy [P]. *)
Definition only {A : Type} (P : event -> Prop) (m : M A) : Prop :=
  Forall P (snd m).

Definition not_gateway (e : event) : Prop := is_gateway_call e = false.

(** *** Sample data *)

Definition number (n : N) : jsvalue :=
  JNumber {| number_truthy := negb (n =? 0); number_text := decimal n |}.

Definition text (s : string) : jsvalue := JString (js s).

Definition sample_request : request :=
  {| method := js "POST";
     json_body := inr (JObject [(js "owner", text "foo"); (js "repo", text "bar")]) |}.

Definition sample_repo : jsvalue :=
  JObject [ (js "stargazers_count", number 120); (js "forks_count", number 7);
            (js "open_issues_count", number 2); (js "language", text "Go");
            (js "license", JObject [(js "spdx_id", text "MIT")]);
            (js "updated_at", text "2025-01-01T00:00:00Z");
            (js "description", JNull);
            (js "topics", JArray [text "cli"; text "cncf"]) ].

(** The record [fetchRepoStats] makes of [sample_repo]. *)
Definition sample_stats : repo_stats :=
  {| stars := number 120; forks := number 7; open_issues := number 2;
     language := text "Go"; license := text "MIT";
     last_updated := text "2025-01-01T00:00:00Z"; description := JNull;
     topics := JArray [text "cli"; text "cncf"] |}.

Definition sample_issue (n : N) : jsvalue :=
  JObject [ (js "title", JString (js "Issue " ++ decimal n));
            (js "labels", JArray [JObject [(js "name", text "help wanted")]]);
            (js "state", text "open"); (js "comments", number n);
            (js "html_url", text "https://github.com/foo/bar/issues") ].

Definition answered (code : N) (body_text : option jsstring)
    (body_json : option jsvalue) : jsstring + github_response :=
  inr {| gh_status := code; gh_text := body_text; gh_json := body_json |}.

(** A world for the repository [foo/bar], given the answers of the three
    endpoints and of the gateway. *)
Definition sample_world (readme issues stats : jsstring + github_response)
    (answer : jsstring + gateway_response) : world :=
  {| env_LOVABLE_API_KEY := Some (js "secret");
     github := fun url =>
       if jsstring_eqb url (readme_url (js "foo") (js "bar")) then readme
       else if jsstring_eqb url (issues_url (js "foo") (js "bar")) then issues
       else if jsstring_eqb url (stats_url (js "foo") (js "bar")) then stats
       else inl (js "no route");
     gateway := fun _ => answer;
     runtime_message := fun _ => js "TypeError" |}.

Definition readme_ok : jsstring + github_response :=
  answered 200 (Some (js "# bar")) None.
Definition issues_ok : jsstring + github_response :=
  answered 200 None (Some (JArray [sample_issue 1; sample_issue 2])).
Definition stats_ok : jsstring + github_response :=
  answered 200 None (Some sample_repo).
Definition gateway_ok : jsstring + gateway_response :=
  inr {| gw_status := 200; gw_body := []; gw_text := inr [] |}.

(** The metadata endpoint answers 404. *)
Definition world_not_found : world :=
  sample_world readme_ok issues_ok (answered 404 None None) gateway_ok.

(** The gateway answers 503 with a body of its own. *)
Definition world_overloaded : world :=
  sample_world readme_ok issues_ok stats_ok
    (inr {| gw_status := 503; gw_body := [];
            gw_text := inr (js "upstream stack trace") |}).

(** The README is not found and the issue list cannot be fetched. *)
Definition world_degraded : world :=
  sample_world (answered 404 None None) (inl (js "network error")) stats_ok
    gateway_ok.


(** The README is not found and the only issue has a title that cannot
    be printed: an object with a [toString] of its own. *)
Definition world_unprintable_issue : world :=
  sample_world (answered 404 None None)
    (answered 200 None
       (Some (JArray [JObject [(js "title", JObject [(js "toString", JNull)]);
                               (js "comments", number 0)]])))
    stats_ok gateway_ok.

(** The issues endpoint returns sixteen entries. *)
Definition world_long_list : world :=
  sample_world readme_ok
    (answered 200 None
       (Some (JArray (map sample_issue
                          [1; 2; 3; 4; 5; 6; 7; 8; 9; 10; 11; 12; 13; 14; 15; 16]))))
    stats_ok gateway_ok.

(** A request whose [owner] is the empty string. *)
Definition request_without_owner : request :=
  {| method := js "POST";
     json_body := inr (JObject [(js "owner", JString []); (js "repo", text "bar")]) |}.

End Aggregator.

(** ** The decoder on any stream

    What the read loop does when the stream is not a valid frame stream:
    the states in which it is stuck, and what it has made of the text
    received so far. *)

Module Stall.
Import Js Value Decoder.

Section Loop.
Variable JSON_parse : jsstring -> option jsvalue.

(** A session whose buffer starts with a whole line that does not parse. *)
Definition stalled (s : session) : Prop :=
  exists l rest,
    buffer s = l ++ 10 :: rest /\
    indexOf_nl l = None /\
    classify JSON_parse l = Malformed.

(** A pass of the inner loop that ends at a malformed line [l]: the whole
    lines [c] before it are taken off the buffer and their texts
    appended, and [l] is put back without its carriage return. *)
Definition halts_at (s s' : session) (c l rest : jsstring) : Prop :=
  buffer s = c ++ l ++ 10 :: rest /\
  aligned c /\
  indexOf_nl l = None /\
  classify JSON_parse l = Malformed /\
  deltas s' = deltas s ++ texts (text_frames JSON_parse c) /\
  decoder s' = decoder s /\
  buffer s' = strip_cr l ++ 10 :: rest.

(** What the loop has made of the text [text] received so far, in a
    session [s]: the texts of the frames of [text] up to a point, in
    order, none of them malformed; the point is the end of the whole
    lines, or a line after a sentinel, or a malformed line at which the
    session is stalled. *)
Definition tracks (s : session) (text : jsstring) : Prop :=
  (exists c,
      text = c ++ buffer s /\
      aligned c /\
      deltas s = texts (text_frames JSON_parse c) /\
      ~ In Malformed (text_frames JSON_parse c) /\
      (indexOf_nl (buffer s) = None \/ In Sentinel (text_frames JSON_parse c)))
  \/
  (exists c l rest,
      text = c ++ l ++ 10 :: rest /\
      aligned c /\
      indexOf_nl l = None /\
      classify JSON_parse l = Malformed /\
      deltas s = texts (text_frames JSON_parse c) /\
      ~ In Malformed (text_frames JSON_parse c) /\
      stalled s).

End Loop.

(** *** A stream to run *)

(** A session stalled on a record that was cut short. *)
Definition stalled_session : session :=
  read_all parse [line "data: {'choices':[{'delta':"].

End Stall.

(** ** The report as an outline *)

Module Outline.
Import Js Segmenter Aggregator.

(** *** Headings and bodies

    The lines before the first heading, and for every heading its
    capture group and the lines up to the next heading. *)
Fixpoint outline (lines : list jsstring)
  : list jsstring * list (jsstring * list jsstring) :=
  match lines with
  | [] => ([], [])
  | l :: rest =>
      let (pre, gs) := outline rest in
      match h2Match l with
      | Some m => ([], (m, pre) :: gs)
      | None => (l :: pre, gs)
      end
  end.

(** The section of a heading with its lines. *)
Definition titled (g : jsstring * list jsstring) : section :=
  {| icon := icon_for (trim (fst g));
     title := trim (fst g);
     content := trim (join [10] (snd g)) |}.

(** A code point of U+1F000..U+1FFFF, as a surrogate pair. *)
Definition symbol (hi lo : N) : Prop :=
  between 0xD83C 0xD83F hi = true /\ between 0xDC00 0xDFFF lo = true.

Definition spaces (s : jsstring) : Prop := Forall (fun c => is_space c = true) s.

(** What stands between the number signs and the capture group: white
    space, at least one character, and optionally a symbol with the white
    space after it. *)
Definition heading_gap (g : jsstring) : Prop :=
  exists s1, s1 <> [] /\ spaces s1 /\
    (g = s1 \/ exists hi lo s2, symbol hi lo /\ spaces s2 /\ g = s1 ++ hi :: lo :: s2).

(** A run of characters that are not line terminators, up to the first
    line terminator or to the end. *)
Definition dot_span (m rest : jsstring) : Prop :=
  m <> [] /\
  Forall (fun c => is_line_terminator c = false) m /\
  match rest with
  | [] => True
  | c :: _ => is_line_terminator c = true
  end.

(** *** Sections that are finished

    The sections that no later line can change: those pushed before the
    section that is open.  The section without title is rewritten by
    every line that comes before the first heading. *)
Definition finished (st : locals) : list section :=
  match current st with
  | Some _ => sections st
  | None => []
  end.

(** The states of the loop: with no section open, the list holds at most
    the section without title. *)
Definition reachable (st : locals) : Prop :=
  match current st with
  | Some _ => True
  | None => exists acc, sections st = preamble_sections acc
  end.

(** *** The headings of the prompt *)

(** The heading lines of the system prompt. *)
Definition prescribed_headings : list jsstring :=
  filter (startsWith (js "##")) (split_nl systemPrompt).

End Outline.

(** ** The answers of the handler *)

Module Answers.
Import Js Value Aggregator.

(** *** What the handler answers and asks *)

(** A computation that, when it returns, returns a value that satisfies
    [P]. *)
Definition yields {A : Type} (P : A -> Prop) (m : M A) : Prop :=
  match fst m with
  | inr a => P a
  | inl _ => True
  end.

(** The answers of the handler: the answer to a preflight, the event
    stream of the gateway, or an error object with one of five statuses. *)
Definition response_shape (r : response) : Prop :=
  r = {| status := 200; headers := corsHeaders; payload := BodyNull |} \/
  (exists chunks,
      r = {| status := 200;
             headers := corsHeaders ++ [(js "Content-Type", js "text/event-stream")];
             payload := BodyStream chunks |}) \/
  (exists code message,
      In code [400; 402; 404; 429; 500] /\ r = error_response code message).

(** The requests the handler sends to the gateway: a stream is asked
    from the one model, with the system prompt, under the credential of
    the environment. *)
Definition request_shape (w : world) (greq : gateway_request) : Prop :=
  stream greq = true /\
  model greq = js "google/gemini-3-flash-preview" /\
  system_content greq = systemPrompt /\
  exists key, configured w key /\ authorization greq = js "Bearer " ++ key.

(** An entry of the log. *)
Definition logs (e : event) : Prop := exists args, e = ConsoleError args.

(** The calls to GitHub in a trace: the address and the [Accept] header
    of each, in order. *)
Definition github_calls (t : list event) : list (jsstring * jsstring) :=
  flat_map (fun e => match e with
                     | FetchGitHub url accept => [(url, accept)]
                     | _ => []
                     end) t.

(** *** The credential

    The request [greq] under the credential [key]. *)
Definition with_credential (greq : gateway_request) (key : jsstring)
  : gateway_request :=
  {| authorization := js "Bearer " ++ key;
     model := model greq;
     system_content := system_content greq;
     user_content := user_content greq;
     stream := stream greq |}.

(** The world [w] with another credential, everything else being equal:
    GitHub answers the same, and the gateway answers a request as it
    answers in [w] the same request under the credential of [w]. *)
Definition rekeyed (w : world) (old new : jsstring) : world :=
  {| env_LOVABLE_API_KEY := Some new;
     github := github w;
     gateway := fun greq => gateway w (with_credential greq old);
     runtime_message := runtime_message w |}.

(** A trace without the [Authorization] header of the calls to the
    gateway. *)
Definition redact (t : list event) : list event :=
  map (fun e => match e with
                | FetchGateway greq => FetchGateway (with_credential greq [])
                | _ => e
                end) t.

(** What the handler has prepared, under the credential [key]. *)
Definition set_key (key : jsstring) (p : response + gateway_request)
  : response + gateway_request :=
  match p with
  | inl early => inl early
  | inr greq => inr (with_credential greq key)
  end.

(** [f] applied to the value that a computation returns. *)
Definition fmap {A B : Type} (f : A -> B) (m : M A) : M B :=
  match m with
  | (inl e, t) => (inl e, t)
  | (inr a, t) => (inr (f a), t)
  end.

(** *** Sample data *)

(** A world without credential. *)
Definition world_without_key : world :=
  {| env_LOVABLE_API_KEY := None;
     github := fun _ => inl (js "no route");
     gateway := fun _ => inl (js "no route");
     runtime_message := fun _ => js "TypeError" |}.

(** A request whose [owner] cannot be printed. *)
Definition request_with_object : request :=
  {| method := js "POST";
     json_body := inr (JObject [(js "owner", JObject [(js "toString", JNull)]);
                                (js "repo", text "bar")]) |}.

(** A request whose body is not JSON. *)
Definition request_not_json : request :=
  {| method := js "POST"; json_body := inl (js "Unexpected end of JSON input") |}.

End Answers.

(** ** The page ([handleAnalyze]) *)

Module Page.
Import Js Value Segmenter Decoder Aggregator.

(** *** The pattern of the input box

    [repoInput.trim().match(...)]: from the start of the text, optionally
    the address of GitHub with [http] or [https], then the first group,
    one or more characters that are neither a slash nor white space, a
    slash, the second group of the same kind, optionally a slash, and the
    end of the text.  As for the headings, the greedy quantifiers give
    back one character at a time and the optional parts are tried before
    they are skipped. *)

Definition name_char (c : N) : bool := negb (c =? 47) && negb (is_space c).

(** The number of leading characters of a group. *)
Fixpoint name_run (s : jsstring) : nat :=
  match s with
  | c :: s' => if name_char c then S (name_run s') else O
  | [] => O
  end.

(** The second group, the optional slash and the end of the text. *)
Definition repo_and_end (owner s : jsstring) : option (jsstring * jsstring) :=
  match name_run s with
  | O => None
  | S k =>
      backtrack (fun j =>
                   let repo := firstn (S j) s in
                   match skipn (S j) s with
                   | [] => Some (owner, repo)
                   | [c] => if c =? 47 then Some (owner, repo) else None
                   | _ => None
                   end) k
  end.

(** The first group, the slash and what follows. *)
Definition owner_and_repo (s : jsstring) : option (jsstring * jsstring) :=
  match name_run s with
  | O => None
  | S k =>
      backtrack (fun i =>
                   match skipn (S i) s with
                   | c :: s2 =>
                       if c =? 47 then repo_and_end (firstn (S i) s) s2 else None
                   | [] => None
                   end) k
  end.

(** The optional address: what follows it, when it is there. *)
Definition after_address (s : jsstring) : option jsstring :=
  if startsWith (js "https://github.com/") s then Some (skipn 19 s)
  else if startsWith (js "http://github.com/") s then Some (skipn 18 s)
  else None.

(** The two groups of the match, [None] for no match. *)
Definition match_repo (repoInput : jsstring) : option (jsstring * jsstring) :=
  let s := trim repoInput in
  let with_address :=
    match after_address s with
    | Some rest => owner_and_repo rest
    | None => None
    end in
  match with_address with
  | Some m => Some m
  | None => owner_and_repo s
  end.

(** *** The request and the response *)

(** [JSON.stringify({ owner, repo })] for two strings. *)
Definition stringify_request (owner repo : jsstring) : jsstring :=
  [123; 34] ++ js "owner" ++ [34; 58; 34] ++ quote_units owner ++ [34; 44; 34]
  ++ js "repo" ++ [34; 58; 34] ++ quote_units repo ++ [34; 125].

(** The request given to [fetch]; the address and the credential come
    from the environment of the build and are left out. *)
Record fetch_request := {
  fetch_method : jsstring;
  fetch_body : jsstring
}.

(** What [fetch] resolves with: the status, what [resp.json()] yields
    (the value, or the message it rejects with), and [resp.body]: the
    chunks that [reader.read()] delivers, and then the end of the stream
    ([None]) or the message of the error it rejects with.  A rejection is
    known by the [message] of what is thrown; the empty message also
    stands for a thrown value that has none. *)
Record fetch_response := {
  resp_status : N;
  resp_json : jsstring + jsvalue;
  resp_body : option (list (list byte) * option jsstring)
}.

Record browser := {
  fetch : fetch_request -> jsstring + fetch_response;
  browser_message : runtime_error -> jsstring
}.

(** The state of the page, with the toasts shown and the requests sent. *)
Record page := {
  analysis : jsstring;
  isLoading : bool;
  error : jsstring;
  toasts : list (jsstring * jsstring);
  requests : list fetch_request
}.

Section Handler.

Variable JSON_parse : jsstring -> option jsvalue.
Variable w : browser.

(** The body of [try]: the analysis shown when it ends, and the message
    of the error it throws, if any. *)
Definition attempt (req : fetch_request) : jsstring * option jsstring :=
  match fetch w req with
  | inl message => ([], Some message)
  | inr resp =>
      if negb (ok (resp_status resp)) then
        match resp_json resp with
        | inl message => ([], Some message)
        | inr data =>
            match get data (js "error") with
            | None => ([], Some (browser_message w ReadOfNullish))
            | Some e =>
                let v := if ToBoolean e then e else JString (js "Analysis failed") in
                match ToString v with
                | Some message => ([], Some message)
                | None => ([], Some (browser_message w NotPrimitive))
                end
            end
        end
      else
        match resp_body resp with
        | None => ([], Some (js "No response stream"))
        | Some (chunks, ending) =>
            (Decoder.analysis (Decoder.read_all JSON_parse chunks), ending)
        end
  end.

(** The [catch] block. *)
Definition failure (p : page) (message : jsstring) : page :=
  let msg := match message with
             | [] => js "Something went wrong"
             | _ :: _ => message
             end in
  {| analysis := analysis p; isLoading := isLoading p; error := msg;
     toasts := toasts p ++ [(js "Error", msg)]; requests := requests p |}.

(** [handleAnalyze], from the state [p] of the page, with [repoInput]
    in the input box. *)
Definition handleAnalyze (repoInput : jsstring) (p : page) : page :=
  match match_repo repoInput with
  | None =>
      {| analysis := []; isLoading := isLoading p;
         error := js "Invalid format. Use owner/repo or a GitHub URL.";
         toasts := toasts p; requests := requests p |}
  | Some (owner, repo) =>
      let req := {| fetch_method := js "POST";
                    fetch_body := stringify_request owner repo |} in
      let (shown, thrown) := attempt req in
      let p1 := {| analysis := shown; isLoading := true; error := [];
                   toasts := toasts p; requests := requests p ++ [req] |} in
      let p2 := match thrown with
                | Some message => failure p1 message
                | None => p1
                end in
      {| analysis := analysis p2; isLoading := false; error := error p2;
         toasts := toasts p2; requests := requests p2 |}
  end.

End Handler.

(** *** The page and the handler

    What [json()] yields for a body whose text is [text], on either
    side: the value that [JSON.parse] gives, or the rejection with the
    message of the syntax error. *)
Definition json_of (JSON_parse : jsstring -> option jsvalue)
    (syntax_error text : jsstring) : jsstring + jsvalue :=
  match JSON_parse text with
  | Some v => inr v
  | None => inl syntax_error
  end.

(** The request of the page as it reaches the handler. *)
Definition arrives (JSON_parse : jsstring -> option jsvalue)
    (syntax_error : jsstring) (sent : fetch_request) : request :=
  {| method := fetch_method sent;
     json_body := json_of JSON_parse syntax_error (fetch_body sent) |}.

(** The answer [r] of the handler as the page receives it: the status,
    the text of an error body, and the bytes of a body stream, which the
    network may cut into chunks of its own. *)
Definition delivers (JSON_parse : jsstring -> option jsvalue)
    (syntax_error : jsstring) (r : response) (resp : fetch_response) : Prop :=
  resp_status resp = status r /\
  match payload r with
  | BodyNull => resp_body resp = None
  | BodyText text => resp_json resp = json_of JSON_parse syntax_error text
  | BodyStream chunks =>
      exists chunks',
        resp_body resp = Some (chunks', None) /\
        List.concat chunks' = List.concat chunks
  end.

(** *** The forms of the input *)

(** A group of the pattern: at least one character, no slash and no
    white space. *)
Definition name (s : jsstring) : Prop :=
  s <> [] /\ Forall (fun c => name_char c = true) s.

(** A text of 16-bit code units. *)
Definition code_units (s : jsstring) : Prop := Forall (fun c => c < 65536) s.

(** *** Sample data *)

(** The request of the page for [foo/bar]. *)
Definition foo_bar : fetch_request :=
  {| fetch_method := js "POST"; fetch_body := stringify_request (js "foo") (js "bar") |}.

(** A browser in which every request is answered with [resp]. *)
Definition browser_with (resp : fetch_response) : browser :=
  {| fetch := fun _ => inr resp; browser_message := fun _ => js "TypeError" |}.

(** The answer 404 of the handler for [foo/bar], as the page receives it. *)
Definition not_found_received : fetch_response :=
  {| resp_status := 404;
     resp_json := json_of parse (js "SyntaxError")
                    (jsq "{'error':'Repository foo/bar not found or inaccessible.'}");
     resp_body :=
       Some ([bytes_of "{'error':'Repository foo/bar not found or inaccessible.'}"],
             None) |}.

(** The stream [hello_stream], in the chunks [hello_chunks]. *)
Definition hello_received : fetch_response :=
  {| resp_status := 200;
     resp_json := inl (js "SyntaxError");
     resp_body := Some (hello_chunks, None) |}.

(** The page before the first request. *)
Definition blank_page : page :=
  {| analysis := []; isLoading := false; error := []; toasts := []; requests := [] |}.

End Page.

(** * Theorems *)

(** ** The frame decoder *)

Module DecoderFacts.
Import Js Value Decoder.

(** *** Lines *)

Lemma indexOf_nl_split (b : jsstring) (i : nat) :
  indexOf_nl b = Some i ->
  b = firstn i b ++ 10 :: skipn (S i) b /\ indexOf_nl (firstn i b) = None.
Proof.
  revert i. induction b as [|c b IH]; intros i H; simpl in H; [discriminate|].
  destruct (c =? 10) eqn:E.
  - injection H as <-. apply N.eqb_eq in E. subst c. simpl. auto.
  - destruct (indexOf_nl b) as [j|] eqn:Ej; [|discriminate].
    injection H as <-. destruct (IH j eq_refl) as [H1 H2].
    split.
    + simpl. f_equal. exact H1.
    + simpl. rewrite E, H2. reflexivity.
Qed.

Lemma indexOf_nl_length (b : jsstring) (i : nat) :
  indexOf_nl b = Some i -> (i < List.length b)%nat.
Proof.
  revert i. induction b as [|c b IH]; intros i H; simpl in H; [discriminate|].
  destruct (c =? 10).
  - injection H as <-. simpl. lia.
  - destruct (indexOf_nl b) as [j|]; [|discriminate].
    injection H as <-. specialize (IH j eq_refl). simpl. lia.
Qed.

Lemma lines_tail_no_newline (b : jsstring) :
  indexOf_nl b = None -> lines_tail b = ([], b).
Proof.
  induction b as [|c b IH]; intros H; simpl in *; [reflexivity|].
  destruct (c =? 10); [discriminate|].
  destruct (indexOf_nl b); [discriminate|].
  rewrite IH by reflexivity. reflexivity.
Qed.

Lemma lines_tail_first_line (l r : jsstring) :
  indexOf_nl l = None ->
  lines_tail (l ++ 10 :: r) = (l :: fst (lines_tail r), snd (lines_tail r)).
Proof.
  induction l as [|c l IH]; intros H; simpl in *.
  - destruct (lines_tail r). reflexivity.
  - destruct (c =? 10); [discriminate|].
    destruct (indexOf_nl l); [discriminate|].
    rewrite IH by reflexivity. reflexivity.
Qed.

Lemma lines_tail_app (a b : jsstring) :
  lines_tail (a ++ b) =
  (fst (lines_tail a) ++ fst (lines_tail (snd (lines_tail a) ++ b)),
   snd (lines_tail (snd (lines_tail a) ++ b))).
Proof.
  induction a as [|c a IH]; simpl.
  - destruct (lines_tail b). reflexivity.
  - rewrite IH. destruct (lines_tail a) as [la ta]. simpl.
    destruct (c =? 10) eqn:E; simpl.
    + reflexivity.
    + destruct la as [|l la']; simpl.
      * rewrite E. destruct (lines_tail (ta ++ b)) as [lb tb]. simpl.
        destruct lb; reflexivity.
      * reflexivity.
Qed.

Lemma complete_lines_aligned_app (c x : jsstring) :
  aligned c -> complete_lines (c ++ x) = complete_lines c ++ complete_lines x.
Proof.
  unfold aligned, complete_lines. intros H. rewrite lines_tail_app, H. reflexivity.
Qed.

Lemma aligned_app (c d : jsstring) :
  aligned c -> aligned d -> aligned (c ++ d).
Proof.
  unfold aligned. intros Hc Hd. rewrite lines_tail_app, Hc. exact Hd.
Qed.

Lemma aligned_line (l c : jsstring) :
  indexOf_nl l = None -> aligned c -> aligned (l ++ 10 :: c).
Proof.
  unfold aligned. intros Hl Hc. rewrite lines_tail_first_line by exact Hl. exact Hc.
Qed.

Lemma complete_lines_prefix (a b l : jsstring) :
  In l (complete_lines a) -> In l (complete_lines (a ++ b)).
Proof.
  unfold complete_lines. rewrite lines_tail_app. simpl. intros H.
  apply in_or_app. left. exact H.
Qed.

(** *** The decoder of bytes *)

Lemma decode_app (d : TextDecoder) (a b : list byte) :
  decode d (a ++ b) =
  (fst (decode (fst (decode d a)) b),
   snd (decode d a) ++ snd (decode (fst (decode d a)) b)).
Proof.
  revert d. induction a as [|x a IH]; intros d; simpl.
  - destruct (decode d b). reflexivity.
  - destruct (decode_byte d x) as [d1 o1]. rewrite IH.
    destruct (decode d1 a) as [d2 o2]. simpl.
    rewrite app_assoc. reflexivity.
Qed.

(** *** Frames *)

Lemma texts_app (f g : list frame) : texts (f ++ g) = texts f ++ texts g.
Proof.
  induction f as [|x f IH]; simpl; [reflexivity|].
  destruct x; simpl; rewrite IH; reflexivity.
Qed.

Lemma texts_until_sentinel (f1 f2 : list frame) :
  texts (after_sentinel (f1 ++ f2)) = [] ->
  f2 = [] \/ In Sentinel f1 ->
  texts f1 = texts (until_sentinel (f1 ++ f2)).
Proof.
  induction f1 as [|x f1 IH]; intros Hq Hp.
  - destruct Hp as [-> | []]. reflexivity.
  - destruct x; simpl in *;
      try (rewrite IH; [reflexivity | exact Hq |
                        destruct Hp as [Hp | [Hp | Hp]]; [left; exact Hp | discriminate | right; exact Hp]]).
    rewrite texts_app in Hq. apply app_eq_nil in Hq. apply Hq.
Qed.

Section Loop.

Variable JSON_parse : jsstring -> option jsvalue.

Lemma text_frames_first_line (l r : jsstring) :
  indexOf_nl l = None ->
  text_frames JSON_parse (l ++ 10 :: r) =
  classify JSON_parse l :: text_frames JSON_parse r.
Proof.
  intros H. unfold text_frames, complete_lines.
  rewrite lines_tail_first_line by exact H. reflexivity.
Qed.

Lemma text_frames_no_newline (b : jsstring) :
  indexOf_nl b = None -> text_frames JSON_parse b = [].
Proof.
  intros H. unfold text_frames, complete_lines.
  rewrite lines_tail_no_newline by exact H. reflexivity.
Qed.

Lemma text_frames_aligned_app (c x : jsstring) :
  aligned c ->
  text_frames JSON_parse (c ++ x) =
  text_frames JSON_parse c ++ text_frames JSON_parse x.
Proof.
  intros H. unfold text_frames.
  rewrite complete_lines_aligned_app by exact H. apply map_app.
Qed.

Lemma text_frames_prefix (a b : jsstring) (f : frame) :
  In f (text_frames JSON_parse a) -> In f (text_frames JSON_parse (a ++ b)).
Proof.
  unfold text_frames. rewrite !in_map_iff. intros (l & Hl & Hin).
  exists l. split; [exact Hl | apply complete_lines_prefix; exact Hin].
Qed.

(** The frame that the loop sees in a line, as the loop tests it. *)
Lemma classify_cases (line : jsstring) :
  let l := strip_cr line in
  let jsonStr := trim (skipn 6 l) in
  (negb (startsWith data_prefix l) = true /\ classify JSON_parse line = Ignored) \/
  (negb (startsWith data_prefix l) = false /\
   ((jsstring_eqb jsonStr DONE = true /\ classify JSON_parse line = Sentinel) \/
    (jsstring_eqb jsonStr DONE = false /\
     match try_frame JSON_parse jsonStr with
     | Some (Some text) => classify JSON_parse line = Text text
     | Some None => classify JSON_parse line = Silent
     | None => classify JSON_parse line = Malformed
     end))).
Proof.
  unfold classify. cbv zeta.
  destruct (negb (startsWith data_prefix (strip_cr line))); [left; auto|].
  right. split; [reflexivity|].
  destruct (jsstring_eqb (trim (skipn 6 (strip_cr line))) DONE); [left; auto|].
  right. split; [reflexivity|].
  destruct (try_frame JSON_parse (trim (skipn 6 (strip_cr line)))) as [[t|]|];
    reflexivity.
Qed.

(** The inner loop, unfolded once. *)
Lemma drain_stop (fuel : nat) (s : session) :
  indexOf_nl (buffer s) = None -> drain JSON_parse fuel s = s.
Proof. intros H. destruct fuel; simpl; rewrite H; reflexivity. Qed.

Lemma drain_step (fuel : nat) (s : session) (i : nat) :
  indexOf_nl (buffer s) = Some i ->
  drain JSON_parse (S fuel) s =
  let line := strip_cr (firstn i (buffer s)) in
  let s1 := with_buffer s (skipn (S i) (buffer s)) in
  if negb (startsWith data_prefix line) then drain JSON_parse fuel s1
  else
    let jsonStr := trim (skipn 6 line) in
    if jsstring_eqb jsonStr DONE then s1
    else
      match try_frame JSON_parse jsonStr with
      | Some (Some text) => drain JSON_parse fuel (append s1 text)
      | Some None => drain JSON_parse fuel s1
      | None => with_buffer s1 (line ++ LF ++ buffer s1)
      end.
Proof. intros H. simpl. rewrite H. reflexivity. Qed.

Lemma consumes_line (s s1 s' : session) (line c : jsstring) (ts : list jsstring) :
  indexOf_nl line = None ->
  buffer s = line ++ 10 :: buffer s1 ->
  decoder s1 = decoder s ->
  deltas s1 = deltas s ++ ts ->
  texts [classify JSON_parse line] = ts ->
  consumes JSON_parse s1 s' c ->
  consumes JSON_parse s s' (line ++ 10 :: c).
Proof.
  intros Hline Hb Hdec Hd Hts (Hb' & Hal & Hd' & Hdec' & Hp).
  unfold consumes. rewrite text_frames_first_line by exact Hline.
  repeat split.
  - rewrite Hb, Hb', <- app_assoc. reflexivity.
  - apply aligned_line; assumption.
  - rewrite Hd', Hd, <- app_assoc. f_equal.
    change (classify JSON_parse line :: text_frames JSON_parse c)
      with ([classify JSON_parse line] ++ text_frames JSON_parse c).
    rewrite texts_app, Hts. reflexivity.
  - rewrite Hdec'. exact Hdec.
  - destruct Hp as [Hp|Hp]; [left; exact Hp | right; right; exact Hp].
Qed.

(** One pass of the inner loop over a buffer without malformed lines: it
    consumes whole lines, appends their texts in order, and stops at the
    end of the complete lines or after a sentinel. *)
Lemma drain_consumes (fuel : nat) (s : session) :
  (List.length (buffer s) <= fuel)%nat ->
  ~ In Malformed (text_frames JSON_parse (buffer s)) ->
  exists c, consumes JSON_parse s (drain JSON_parse fuel s) c.
Proof.
  revert s. induction fuel as [|fuel IH]; intros s Hlen Hok.
  - destruct (buffer s) as [|x b] eqn:Eb; [|simpl in Hlen; lia].
    exists []. unfold consumes. simpl. rewrite Eb. simpl. rewrite Eb.
    repeat split; auto. rewrite app_nil_r. reflexivity.
  - destruct (indexOf_nl (buffer s)) as [i|] eqn:Ei.
    + rewrite (drain_step _ _ _ Ei). cbv zeta.
      destruct (indexOf_nl_split _ _ Ei) as [Hsplit Hline].
      pose proof (indexOf_nl_length _ _ Ei) as Hi.
      set (line := firstn i (buffer s)) in *.
      set (rest := skipn (S i) (buffer s)) in *.
      assert (Hrest : (List.length rest <= fuel)%nat).
      { unfold rest. rewrite length_skipn. lia. }
      rewrite Hsplit, text_frames_first_line in Hok by exact Hline.
      assert (Hok' : ~ In Malformed (text_frames JSON_parse rest)).
      { intros H. apply Hok. right. exact H. }
      assert (Hhead : classify JSON_parse line <> Malformed).
      { intros H. apply Hok. left. exact H. }
      destruct (classify_cases line) as [[E Hc] | [E [[E2 Hc] | [E2 Hc]]]];
        cbv zeta in *; rewrite E.
      * destruct (IH (with_buffer s rest) Hrest Hok') as [c Hcons].
        exists (line ++ 10 :: c).
        apply consumes_line with (s1 := with_buffer s rest) (ts := []); auto.
        -- simpl. rewrite app_nil_r. reflexivity.
        -- rewrite Hc. reflexivity.
      * rewrite E2.
        exists (line ++ [10]). unfold consumes.
        rewrite text_frames_first_line by exact Hline. rewrite Hc. simpl.
        repeat split.
        -- rewrite <- app_assoc. exact Hsplit.
        -- apply aligned_line; [exact Hline | reflexivity].
        -- rewrite app_nil_r. reflexivity.
        -- right. left. reflexivity.
      * rewrite E2.
        destruct (try_frame JSON_parse (trim (skipn 6 (strip_cr line))))
          as [[text|]|] eqn:Etry.
        -- destruct (IH (append (with_buffer s rest) text) Hrest Hok') as [c Hcons].
           exists (line ++ 10 :: c).
           apply consumes_line with (s1 := append (with_buffer s rest) text)
                                    (ts := [text]); auto.
           rewrite Hc. reflexivity.
        -- destruct (IH (with_buffer s rest) Hrest Hok') as [c Hcons].
           exists (line ++ 10 :: c).
           apply consumes_line with (s1 := with_buffer s rest) (ts := []); auto.
           ++ simpl. rewrite app_nil_r. reflexivity.
           ++ rewrite Hc. reflexivity.
        -- contradiction.
    + rewrite (drain_stop _ _ Ei).
      exists []. unfold consumes. simpl. repeat split; auto.
      rewrite app_nil_r. reflexivity.
Qed.


(** X29. The bound of the inner loop is never reached: any two bounds
    that cover the buffer give the same pass, so that the loop of the model
    is the [while] of the source, which has no bound. *)
Lemma drain_fuel (f1 f2 : nat) (s : session) :
  (List.length (buffer s) <= f1)%nat ->
  (List.length (buffer s) <= f2)%nat ->
  drain JSON_parse f1 s = drain JSON_parse f2 s.
Proof.
  revert f2 s. induction f1 as [|f1 IH]; intros f2 s H1 H2.
  - destruct (buffer s) as [|x b] eqn:Eb; [|simpl in H1; lia].
    rewrite !drain_stop; auto; rewrite Eb; reflexivity.
  - destruct (indexOf_nl (buffer s)) as [i|] eqn:Ei.
    + pose proof (indexOf_nl_length _ _ Ei) as Hi.
      destruct f2 as [|f2]; [lia|].
      rewrite !(drain_step _ _ _ Ei). cbv zeta.
      assert (Hr : forall f, (List.length (buffer s) <= S f)%nat ->
                (List.length (skipn (S i) (buffer s)) <= f)%nat).
      { intros f Hf. rewrite length_skipn. lia. }
      destruct (negb (startsWith data_prefix (strip_cr (firstn i (buffer s))))).
      * apply IH; simpl; auto.
      * destruct (jsstring_eqb _ DONE); [reflexivity|].
        destruct (try_frame JSON_parse _) as [[t|]|]; [| |reflexivity];
          apply IH; simpl; auto.
    + rewrite !drain_stop by exact Ei. reflexivity.
Qed.

(** *** The outer loop *)

Lemma on_chunk_eq (s : session) (value : list byte) :
  on_chunk JSON_parse s value =
  let s1 := {| decoder := fst (decode (decoder s) value);
               buffer := buffer s ++ snd (decode (decoder s) value);
               result := result s; analysis := analysis s;
               deltas := deltas s |} in
  drain JSON_parse (List.length (buffer s1)) s1.
Proof.
  unfold on_chunk. destruct (decode (decoder s) value). reflexivity.
Qed.

Lemma read_loop_consumes (chunks : list (list byte)) :
  forall (s : session) (consumed : jsstring),
    aligned consumed ->
    deltas s = texts (text_frames JSON_parse consumed) ->
    (indexOf_nl (buffer s) = None \/
     In Sentinel (text_frames JSON_parse consumed)) ->
    ~ In Malformed
        (text_frames JSON_parse
           (consumed ++ buffer s ++ snd (decode (decoder s) (List.concat chunks)))) ->
    exists consumed',
      consumed' ++ buffer (fold_left (on_chunk JSON_parse) chunks s) =
        consumed ++ buffer s ++ snd (decode (decoder s) (List.concat chunks)) /\
      aligned consumed' /\
      deltas (fold_left (on_chunk JSON_parse) chunks s) =
        texts (text_frames JSON_parse consumed') /\
      (indexOf_nl (buffer (fold_left (on_chunk JSON_parse) chunks s)) = None \/
       In Sentinel (text_frames JSON_parse consumed')).
Proof.
  induction chunks as [|value chunks IH]; intros s consumed Hal Hd Hp Hok.
  - exists consumed. simpl. rewrite app_nil_r. auto.
  - simpl fold_left. simpl List.concat in *. rewrite decode_app in Hok |- *.
    simpl snd in *. rewrite on_chunk_eq. cbv zeta.
    set (d := fst (decode (decoder s) value)) in *.
    set (x := snd (decode (decoder s) value)) in *.
    set (s1 := {| decoder := d; buffer := buffer s ++ x; result := result s;
                  analysis := analysis s; deltas := deltas s |}).
    set (future := snd (decode d (List.concat chunks))) in *.
    assert (HT : consumed ++ buffer s ++ x ++ future =
                 consumed ++ buffer s1 ++ future).
    { simpl. rewrite <- app_assoc. reflexivity. }
    rewrite HT in Hok |- *.
    assert (Hok1 : ~ In Malformed (text_frames JSON_parse (buffer s1))).
    { intros H. apply Hok. rewrite text_frames_aligned_app by exact Hal.
      apply in_or_app. right. apply text_frames_prefix. exact H. }
    destruct (drain_consumes (List.length (buffer s1)) s1 (le_n _) Hok1)
      as (c & Hb & Halc & Hdc & Hdec & Hpc).
    set (s2 := drain JSON_parse (List.length (buffer s1)) s1) in *.
    assert (HT2 : consumed ++ buffer s1 ++ future =
                  (consumed ++ c) ++ buffer s2 ++ future).
    { rewrite Hb, <- !app_assoc. reflexivity. }
    rewrite HT2 in Hok |- *.
    assert (Hfut : future = snd (decode (decoder s2) (List.concat chunks))).
    { rewrite Hdec. reflexivity. }
    rewrite Hfut in Hok |- *.
    apply IH.
    + apply aligned_app; assumption.
    + rewrite Hdc, text_frames_aligned_app, texts_app by exact Hal.
      simpl. rewrite Hd. reflexivity.
    + destruct Hpc as [Hpc|Hpc]; [left; exact Hpc|].
      right. rewrite text_frames_aligned_app by exact Hal.
      apply in_or_app. right. exact Hpc.
    + exact Hok.
Qed.

(** Over a valid frame stream, cut into chunks in any way, the loop
    appends the payload texts of the frames up to the sentinel. *)
Lemma read_all_payload_texts (chunks : list (list byte)) :
  valid_frame_stream JSON_parse (List.concat chunks) ->
  deltas (read_all JSON_parse chunks) = payload_texts JSON_parse (List.concat chunks).
Proof.
  intros [Hok Hquiet].
  unfold payload_texts, frames_of, stream_text in *.
  destruct (read_loop_consumes chunks start []) as (c & HT & Hal & Hd & Hp).
  - reflexivity.
  - reflexivity.
  - left. reflexivity.
  - exact Hok.
  - simpl in HT. fold (read_all JSON_parse chunks) in *.
    rewrite <- HT in Hquiet |- *.
    rewrite text_frames_aligned_app in Hquiet |- * by exact Hal.
    rewrite Hd. apply texts_until_sentinel; [exact Hquiet|].
    destruct Hp as [Hp|Hp]; [left | right; exact Hp].
    apply text_frames_no_newline. exact Hp.
Qed.

(** [result] and [analysis] through a pass of the inner loop. *)
Lemma drain_accumulates (fuel : nat) (s : session) :
  result s = List.concat (deltas s) -> analysis s = result s ->
  result (drain JSON_parse fuel s) = List.concat (deltas (drain JSON_parse fuel s)) /\
  analysis (drain JSON_parse fuel s) = result (drain JSON_parse fuel s).
Proof.
  revert s. induction fuel as [|fuel IH]; intros s Hr Ha.
  - simpl. destruct (indexOf_nl (buffer s)); auto.
  - destruct (indexOf_nl (buffer s)) as [i|] eqn:Ei.
    + rewrite (drain_step _ _ _ Ei). cbv zeta.
      destruct (negb (startsWith data_prefix _)); [apply IH; assumption|].
      destruct (jsstring_eqb _ DONE); [auto|].
      destruct (try_frame JSON_parse _) as [[t|]|]; [| apply IH; assumption | auto].
      apply IH; simpl; [|reflexivity].
      rewrite concat_app. simpl. rewrite app_nil_r, Hr. reflexivity.
    + rewrite (drain_stop _ _ Ei). auto.
Qed.

Lemma read_loop_accumulates (chunks : list (list byte)) (s : session) :
  result s = List.concat (deltas s) -> analysis s = result s ->
  result (fold_left (on_chunk JSON_parse) chunks s) =
    List.concat (deltas (fold_left (on_chunk JSON_parse) chunks s)) /\
  analysis (fold_left (on_chunk JSON_parse) chunks s) =
    result (fold_left (on_chunk JSON_parse) chunks s).
Proof.
  revert s. induction chunks as [|value chunks IH]; intros s Hr Ha; simpl; [auto|].
  apply IH; rewrite on_chunk_eq; cbv zeta; apply drain_accumulates; assumption.
Qed.


(** C1. Chunk-boundary invariance: for every byte sequence that is a
    valid frame stream and every way of cutting it into chunks, wherever
    the cuts fall, the decoder run over the chunks appends the same text
    deltas, in the same order, as the decoder run over the whole sequence
    as a single chunk. *)
Theorem chunk_boundary_invariance
    (bytes : list byte) (chunks : list (list byte)) :
  List.concat chunks = bytes ->
  valid_frame_stream JSON_parse bytes ->
  deltas (read_all JSON_parse chunks) = deltas (read_all JSON_parse [bytes]).
Proof.
  intros Hcut Hvalid. subst bytes.
  rewrite read_all_payload_texts by exact Hvalid.
  rewrite read_all_payload_texts; simpl List.concat; rewrite app_nil_r;
    [reflexivity | exact Hvalid].
Qed.

(** The accumulated report: after any sequence of chunks, [result] (and
    the state [analysis] shown by the page) is the concatenation, in
    order, of the text deltas appended so far; and over a valid frame
    stream these deltas are exactly the payload texts of the frames up to
    the sentinel, so that their concatenation reconstructs that text. *)
Lemma accumulated_report_invariant (chunks : list (list byte)) :
  result (read_all JSON_parse chunks)
    = List.concat (deltas (read_all JSON_parse chunks)) /\
  analysis (read_all JSON_parse chunks) = result (read_all JSON_parse chunks) /\
  (valid_frame_stream JSON_parse (List.concat chunks) ->
   deltas (read_all JSON_parse chunks)
     = payload_texts JSON_parse (List.concat chunks) /\
   result (read_all JSON_parse chunks)
     = List.concat (payload_texts JSON_parse (List.concat chunks))).
Proof.
  destruct (read_loop_accumulates chunks start eq_refl eq_refl) as [Hr Ha].
  fold (read_all JSON_parse chunks) in Hr, Ha.
  split; [exact Hr | split; [exact Ha|]].
  intros Hvalid. rewrite Hr, read_all_payload_texts by exact Hvalid. auto.
Qed.

(** The session keeps no trace of a sentinel: once a chunk that ends
    with the sentinel line is read, the loop is where a fresh read would
    be (past the check for a byte order mark), and whatever follows is
    decoded as the start of a stream. *)
Lemma sentinel_leaves_the_loop_running (chunks : list (list byte)) :
  read_all JSON_parse (line "data: [DONE]" :: chunks) =
  fold_left (on_chunk JSON_parse) chunks
    {| decoder := {| machine := utf8_init; bom_seen := true |};
       buffer := []; result := []; analysis := []; deltas := [] |}.
Proof.
  unfold read_all. simpl fold_left. f_equal.
Qed.

End Loop.

(** *** The theorems on a stream *)

Lemma hello_stream_valid : valid_frame_stream parse hello_stream.
Proof.
  split.
  - vm_compute. intros H.
    repeat (destruct H as [H|H]; [discriminate H|]). exact H.
  - vm_compute. reflexivity.
Defined.

Lemma chunk_boundary_invariance_witness :
  List.concat hello_chunks = hello_stream /\
  valid_frame_stream parse hello_stream /\
  deltas (read_all parse hello_chunks) = deltas (read_all parse [hello_stream]).
Proof.
  split; [reflexivity|]. split; [exact hello_stream_valid|].
  apply (chunk_boundary_invariance parse hello_stream hello_chunks).
  - reflexivity.
  - exact hello_stream_valid.
Defined.

Lemma accumulated_report_invariant_witness :
  valid_frame_stream parse (List.concat hello_chunks) /\
  result (read_all parse hello_chunks) = js "Hello".
Proof.
  split; [exact hello_stream_valid|].
  destruct (accumulated_report_invariant parse hello_chunks) as (_ & _ & H).
  destruct (H hello_stream_valid) as [_ Hr].
  rewrite Hr. vm_compute. reflexivity.
Defined.

(** The scenario of three chunks: the record cut in two gives nothing in
    the first chunk and the whole delta in the second. *)
Example three_chunk_scenario :
  let chunks :=
    [ bytes_of "data: {'choices':[{'delta':{'content':'He";
      line "llo'}}]}";
      line "data: [DONE]" ] in
  deltas (read_all parse (firstn 1 chunks)) = [] /\
  deltas (read_all parse (firstn 2 chunks)) = [js "Hello"] /\
  analysis (read_all parse chunks) = js "Hello".
Proof. vm_compute. auto. Qed.

(** C3. The sentinel does not end the stream for the loop: [break] leaves
    the inner loop only, and a frame that arrives after the sentinel is
    decoded and appended like any other. *)
Theorem delta_after_sentinel :
  let chunks :=
    [ line "data: {'choices':[{'delta':{'content':'A'}}]}" ++ line "data: [DONE]";
      line "data: {'choices':[{'delta':{'content':'B'}}]}" ] in
  frames_of parse (List.concat chunks) = [Text (js "A"); Sentinel; Text (js "B")] /\
  deltas (read_all parse chunks) = [js "A"; js "B"] /\
  analysis (read_all parse chunks) = js "AB".
Proof. vm_compute. auto. Qed.

(** C2. The report does not stop at the sentinel.  The stream holds a
    record, the sentinel, and one more record in a second chunk: the
    payload text of the frames up to and including the sentinel is "A".
    After the first chunk the report is "A"; after the second it is
    "AB", still the concatenation of the deltas appended, but no longer
    the payload text up to the sentinel. *)
Theorem report_runs_past_the_sentinel :
  let first :=
    line "data: {'choices':[{'delta':{'content':'A'}}]}" ++ line "data: [DONE]" in
  let second := line "data: {'choices':[{'delta':{'content':'B'}}]}" in
  payload_texts parse (List.concat [first; second]) = [js "A"] /\
  result (read_all parse [first]) = js "A" /\
  result (read_all parse [first; second]) = js "AB" /\
  result (read_all parse [first; second])
    = List.concat (deltas (read_all parse [first; second])) /\
  result (read_all parse [first; second])
    <> List.concat (payload_texts parse (List.concat [first; second])).
Proof.
  vm_compute.
  split; [reflexivity|]. split; [reflexivity|]. split; [reflexivity|].
  split; [reflexivity | discriminate].
Qed.

(** Frames left in the buffer behind the sentinel are decoded as soon as
    another chunk arrives, even an empty one, and are lost otherwise: on
    such a stream the deltas depend on the chunking. *)
Example sentinel_chunking_dependence :
  let stream :=
    line "data: [DONE]" ++ line "data: {'choices':[{'delta':{'content':'B'}}]}" in
  deltas (read_all parse [stream]) = [] /\
  deltas (read_all parse [stream; []]) = [js "B"].
Proof. vm_compute. auto. Qed.

End DecoderFacts.

(** ** The section segmenter *)

Module SegmenterFacts.
Import Js Segmenter.

Lemma jsstring_eqb_eq (a b : jsstring) : jsstring_eqb a b = true <-> a = b.
Proof.
  unfold jsstring_eqb. destruct (list_eq_dec N.eq_dec a b); split; auto; discriminate.
Qed.

Lemma jsstring_eqb_refl (a : jsstring) : jsstring_eqb a a = true.
Proof. apply jsstring_eqb_eq. reflexivity. Qed.

(** One turn of the loop on a line that is no heading, before any
    heading. *)
Lemma step_before_heading (acc line : jsstring) :
  h2Match line = None ->
  step {| sections := preamble_sections acc; current := None |} line =
  {| sections := preamble_sections
                   (acc ++ if blank line then [] else line ++ [10]);
     current := None |}.
Proof.
  intros H. unfold step, blank. rewrite H. simpl current.
  destruct (trim line) as [|c t].
  - rewrite app_nil_r. reflexivity.
  - simpl sections. destruct acc as [|a acc].
    + simpl. destruct line; reflexivity.
    + reflexivity.
Qed.

Lemma preamble_text_cons (line : jsstring) (lines : list jsstring) :
  preamble_text (line :: lines) =
  (if blank line then [] else line ++ [10]) ++ preamble_text lines.
Proof.
  unfold preamble_text. simpl. destruct (blank line); reflexivity.
Qed.

Lemma loop_before_heading (lines : list jsstring) :
  forall acc : jsstring,
    (forall l, In l lines -> h2Match l = None) ->
    fold_left step lines {| sections := preamble_sections acc; current := None |} =
    {| sections := preamble_sections (acc ++ preamble_text lines);
       current := None |}.
Proof.
  induction lines as [|line lines IH]; intros acc H.
  - simpl. unfold preamble_text. simpl. rewrite app_nil_r. reflexivity.
  - simpl fold_left. rewrite step_before_heading by (apply H; left; reflexivity).
    rewrite IH by (intros l Hl; apply H; right; exact Hl).
    rewrite preamble_text_cons, app_assoc. reflexivity.
Qed.

Lemma preamble_text_blank (lines : list jsstring) :
  (forall l, In l lines -> blank l = true) -> preamble_text lines = [].
Proof.
  induction lines as [|line lines IH]; intros H; [reflexivity|].
  rewrite preamble_text_cons, (H line) by (left; reflexivity).
  apply IH. intros l Hl. apply H. right. exact Hl.
Qed.

Lemma preamble_text_not_blank (lines : list jsstring) (l : jsstring) :
  In l lines -> blank l = false -> preamble_text lines <> [].
Proof.
  induction lines as [|line lines IH]; intros Hin Hl; [contradiction|].
  rewrite preamble_text_cons. destruct Hin as [-> | Hin].
  - rewrite Hl. destruct l; discriminate.
  - intros H. apply app_eq_nil in H. destruct H as [_ H].
    exact (IH Hin Hl H).
Qed.

(** C4, as the code has it.  The empty string has no section.  A text
    without heading line has no section either when all its lines are
    blank; otherwise it has exactly one section, without title, whose
    content is the lines that are not blank, each followed by a newline
    (blank lines are left out, so the content is not the whole text). *)
Theorem sections_without_heading :
  parseSections [] = [] /\
  forall md : jsstring,
    (forall l, In l (split_nl md) -> h2Match l = None) ->
    ((forall l, In l (split_nl md) -> blank l = true) -> parseSections md = []) /\
    ((exists l, In l (split_nl md) /\ blank l = false) ->
     parseSections md =
       [{| icon := preamble_icon; title := [];
           content := preamble_text (split_nl md) |}]).
Proof.
  split; [reflexivity|].
  intros md H.
  assert (E : parseSections md = preamble_sections (preamble_text (split_nl md))).
  { unfold parseSections.
    change {| sections := []; current := None |}
      with {| sections := preamble_sections []; current := None |}.
    rewrite loop_before_heading by exact H. reflexivity. }
  split.
  - intros Hb. rewrite E, preamble_text_blank by exact Hb. reflexivity.
  - intros (l & Hin & Hl). rewrite E.
    pose proof (preamble_text_not_blank _ _ Hin Hl) as Hne.
    destruct (preamble_text (split_nl md)); [contradiction | reflexivity].
Qed.

(** No line of a text is a heading, checked by running the pattern. *)
Lemma no_heading_by_check (md : jsstring) :
  forallb (fun l => match h2Match l with None => true | Some _ => false end)
          (split_nl md) = true ->
  forall l, In l (split_nl md) -> h2Match l = None.
Proof.
  intros H l Hl. rewrite forallb_forall in H. specialize (H l Hl).
  destruct (h2Match l); [discriminate H | reflexivity].
Defined.

Lemma sections_without_heading_witness :
  let md := join [10] [js "Summary"; js "   "; js "of the report"] in
  (forall l, In l (split_nl md) -> h2Match l = None) /\
  parseSections md =
    [{| icon := js "📋"; title := [];
        content := js "Summary" ++ [10] ++ js "of the report" ++ [10] |}].
Proof.
  intros md.
  assert (H : forall l, In l (split_nl md) -> h2Match l = None)
    by (apply no_heading_by_check; vm_compute; reflexivity).
  split; [exact H|].
  destruct sections_without_heading as [_ Hs].
  destruct (Hs md H) as [_ Hone].
  rewrite Hone.
  - vm_compute. reflexivity.
  - exists (js "Summary"). split; [vm_compute; auto | reflexivity].
Defined.

(** A text that is not empty and has no heading line, for which the
    segmenter returns no section at all. *)
Lemma blank_text_has_no_section :
  js " " <> [] /\
  (forall l, In l (split_nl (js " ")) -> h2Match l = None) /\
  ~ (exists s, parseSections (js " ") = [s]).
Proof.
  split; [discriminate|]. split.
  - apply no_heading_by_check. vm_compute. reflexivity.
  - intros [s H]. vm_compute in H. discriminate H.
Qed.

(** Blank lines between paragraphs are not kept in the content. *)
Example blank_lines_are_dropped :
  map content (parseSections (join [10] [js "a"; []; js "b"]))
  = [js "a" ++ [10] ++ js "b" ++ [10]].
Proof. vm_compute. reflexivity. Qed.

(** *** The memo cell *)

Lemma useMemo_recomputes (cell : option memo) (a : jsstring) :
  consistent cell ->
  consistent (fst (useMemo cell a)) /\ snd (useMemo cell a) = parseSections a.
Proof.
  unfold useMemo. destruct cell as [m|]; simpl; intros H.
  - destruct (jsstring_eqb (memo_dep m) a) eqn:E; simpl.
    + apply jsstring_eqb_eq in E. subst a. auto.
    + auto.
  - auto.
Qed.

Lemma render_all_last (history : list jsstring) :
  forall (cell : option memo) (shown : list section) (md : jsstring),
    consistent cell ->
    consistent (fst (render_all cell shown (history ++ [md]))) /\
    snd (render_all cell shown (history ++ [md])) = parseSections md.
Proof.
  induction history as [|a history IH]; intros cell shown md H; simpl.
  - destruct (useMemo_recomputes cell md H) as [Hc Hv].
    destruct (useMemo cell md). simpl in *. auto.
  - destruct (useMemo_recomputes cell a H) as [Hc Hv].
    destruct (useMemo cell a). simpl in *. apply IH. exact Hc.
Qed.

(** C5. The segmenter is a function of the text alone: whatever texts
    the page segmented before, and whatever its memo cell kept of them,
    segmenting [md] gives [parseSections md], and segmenting the same
    text once more gives the very same list of sections. *)
Theorem segmenter_rerun_identical (md : jsstring) (history : list jsstring) :
  snd (render_all None [] (history ++ [md])) = parseSections md /\
  snd (render_all None [] (history ++ [md; md]))
    = snd (render_all None [] (history ++ [md])).
Proof.
  destruct (render_all_last history None [] md I) as [_ H1].
  split; [exact H1|].
  rewrite H1.
  change (history ++ [md; md]) with (history ++ [md] ++ [md]).
  rewrite app_assoc.
  apply (render_all_last (history ++ [md]) None [] md I).
Qed.

End SegmenterFacts.

(** ** The edge function *)

Module AggregatorFacts.
Import Js Value Aggregator.

#[local] Arguments js : simpl never.
#[local] Arguments jsq : simpl never.
#[local] Arguments decimal : simpl never.
#[local] Arguments N.to_nat : simpl never.
#[local] Arguments firstn : simpl never.

(** *** Computations *)

Lemma bind_inr {A B : Type} (m : M A) (k : A -> M B) (a : A) (t : list event) :
  m = (inr a, t) -> bind m k = (fst (k a), t ++ snd (k a)).
Proof. intros ->. unfold bind. destruct (k a). reflexivity. Qed.

Lemma bind_inl {A B : Type} (m : M A) (k : A -> M B) (e : jsstring) (t : list event) :
  m = (inl e, t) -> bind m k = (inl e, t).
Proof. intros ->. reflexivity. Qed.

Lemma try_catch_returns {A : Type} (m : M A) (fallback : A) :
  exists a, try_catch m fallback = (inr a, snd m).
Proof.
  unfold try_catch. destruct m as [[e|a] t]; simpl; eauto.
Qed.

(** *** Traces *)

Lemma only_ret {A : Type} (P : event -> Prop) (a : A) : only P (ret a).
Proof. constructor. Qed.

Lemma only_throw {A : Type} (P : event -> Prop) (e : jsstring) :
  only P (@throw A e).
Proof. constructor. Qed.

Lemma only_tell (P : event -> Prop) (e : event) : P e -> only P (tell e).
Proof. intros H. constructor; [exact H | constructor]. Qed.

Lemma only_bind {A B : Type} (P : event -> Prop) (m : M A) (k : A -> M B) :
  only P m -> (forall a, only P (k a)) -> only P (bind m k).
Proof.
  unfold only, bind. intros Hm Hk. destruct m as [[e|a] t]; simpl in *.
  - exact Hm.
  - specialize (Hk a). destruct (k a) as [r t']. simpl in *.
    apply Forall_app. split; assumption.
Qed.

Lemma only_try_catch {A : Type} (P : event -> Prop) (m : M A) (fallback : A) :
  only P m -> only P (try_catch m fallback).
Proof.
  unfold only. destruct (try_catch_returns m fallback) as [a ->]. auto.
Qed.

Lemma only_await {A : Type} (P : event -> Prop) (p : jsstring + A) :
  only P (await p).
Proof. destruct p; constructor. Qed.

Lemma only_if {A : Type} (P : event -> Prop) (b : bool) (m n : M A) :
  only P m -> only P n -> only P (if b then m else n).
Proof. destruct b; auto. Qed.

Lemma only_read_body {A : Type} (P : event -> Prop) (o : option A) :
  only P (read_body o).
Proof. destruct o; constructor. Qed.

Lemma only_map_M {A B : Type} (P : event -> Prop) (f : A -> M B) (xs : list A) :
  (forall x, only P (f x)) -> only P (map_M f xs).
Proof.
  intros H. induction xs as [|x xs IH]; simpl.
  - apply only_ret.
  - apply only_bind; [apply H|]. intros y.
    apply only_bind; [exact IH|]. intros ys. apply only_ret.
Qed.

Lemma only_map_index_M {A B : Type} (P : event -> Prop) (f : N -> A -> M B)
    (xs : list A) :
  (forall i x, only P (f i x)) -> forall idx, only P (map_index_M f idx xs).
Proof.
  intros H. induction xs as [|x xs IH]; intros idx; simpl.
  - apply only_ret.
  - apply only_bind; [apply H|]. intros y.
    apply only_bind; [apply IH|]. intros ys. apply only_ret.
Qed.

Lemma gateway_calls_app (t u : list event) :
  gateway_calls (t ++ u) = (gateway_calls t + gateway_calls u)%nat.
Proof. unfold gateway_calls. rewrite filter_app, length_app. reflexivity. Qed.

Lemma only_not_gateway {A : Type} (m : M A) (r : jsstring + A) (t : list event) :
  only not_gateway m -> m = (r, t) -> gateway_calls t = O.
Proof.
  intros H ->. unfold only in H. simpl in H.
  induction H as [|e t He Ht IH]; [reflexivity|].
  unfold gateway_calls in *. simpl. rewrite He. exact IH.
Qed.

Lemma only_silent {A : Type} (m : M A) : only (fun _ => False) m -> snd m = [].
Proof.
  unfold only. intros H. destruct (snd m); [reflexivity|].
  inversion H; contradiction.
Qed.

Section World.

Variable w : world.

Lemma only_raise {A : Type} (P : event -> Prop) (e : runtime_error) :
  only P (@raise w A e).
Proof. constructor. Qed.

Lemma only_str (P : event -> Prop) (v : jsvalue) : only P (str w v).
Proof. unfold str. destruct (ToString v); constructor. Qed.

Lemma only_prop (P : event -> Prop) (v : jsvalue) (k : jsstring) :
  only P (prop w v k).
Proof. unfold prop. destruct (get v k); constructor. Qed.

Lemma only_field (P : event -> Prop) (v : jsvalue) (k : jsstring) :
  only P (field w v k).
Proof. unfold field. destruct (get v k); constructor. Qed.

Lemma only_join_or (P : event -> Prop) (xs : jsvalue) (sep fallback : jsstring) :
  only P (join_or w xs sep fallback).
Proof.
  unfold join_or. destruct xs; try constructor.
  destruct (array_join sep items) as [[|c s]|]; constructor.
Qed.

Create HintDb trace.

#[local] Hint Resolve only_ret only_throw only_raise only_str only_prop only_field
  only_read_body only_await only_join_or only_try_catch only_if only_map_M
  only_map_index_M : trace.
#[local] Hint Extern 1 (only _ (bind _ _)) =>
  apply only_bind; [|intros ?] : trace.
#[local] Hint Extern 1 (only _ (tell _)) =>
  apply only_tell; reflexivity : trace.
#[local] Hint Extern 4 (only _ (match ?x with _ => _ end)) =>
  destruct x : trace.

Lemma only_repo_url (P : event -> Prop) (owner repo : jsvalue) :
  only P (repo_url w owner repo).
Proof. unfold repo_url. auto 10 with trace. Qed.

#[local] Hint Resolve only_repo_url : trace.

(** The callback of [issues.map] logs nothing. *)
Lemma only_summarize (P : event -> Prop) (i : jsvalue) : only P (summarize w i).
Proof. unfold summarize, labels_of. auto 20 with trace. Qed.

Lemma only_issue_line (P : event -> Prop) (idx : N) (i : issue) :
  only P (issue_line w idx i).
Proof. unfold issue_line. auto 10 with trace. Qed.

#[local] Hint Resolve only_summarize only_issue_line : trace.

Lemma only_issues_block (P : event -> Prop) (issues : list issue) :
  only P (issues_block w issues).
Proof. unfold issues_block. auto 10 with trace. Qed.

Lemma only_stats_head (P : event -> Prop) owner repo st :
  only P (stats_head w owner repo st).
Proof. unfold stats_head. auto 30 with trace. Qed.

#[local] Hint Resolve only_issues_block only_stats_head : trace.

Lemma no_call_fetchReadme (owner repo : jsvalue) :
  only not_gateway (fetchReadme w owner repo).
Proof. unfold fetchReadme, github_fetch. auto 10 with trace. Qed.

Lemma no_call_fetchIssues (owner repo : jsvalue) :
  only not_gateway (fetchIssues w owner repo).
Proof. unfold fetchIssues, github_fetch. auto 10 with trace. Qed.

Lemma no_call_fetchRepoStats (owner repo : jsvalue) :
  only not_gateway (fetchRepoStats w owner repo).
Proof. unfold fetchRepoStats, github_fetch. auto 20 with trace. Qed.

#[local] Hint Resolve no_call_fetchReadme no_call_fetchIssues
  no_call_fetchRepoStats : trace.

(** Up to the request for the gateway, the handler does not call it. *)
Lemma no_call_prepare (req : request) : only not_gateway (prepare w req).
Proof.
  unfold prepare, not_found_message, userContent. auto 30 with trace.
Qed.

(** *** The handler, phase by phase *)

Lemma bind_ret {A B : Type} (a : A) (k : A -> M B) : bind (ret a) k = k a.
Proof. unfold bind, ret. destruct (k a). reflexivity. Qed.

Lemma serve_early (req : request) (early : response) (t : list event) :
  jsstring_eqb (method req) (js "OPTIONS") = false ->
  prepare w req = (inr (inl early), t) ->
  serve w req = (early, t).
Proof.
  intros Hm Hp. unfold serve, serve_try. rewrite Hm, Hp. simpl.
  rewrite app_nil_r. reflexivity.
Qed.

Lemma serve_thrown (req : request) (message : jsstring) (t : list event) :
  jsstring_eqb (method req) (js "OPTIONS") = false ->
  prepare w req = (inl message, t) ->
  serve w req =
    (error_response 500 message,
     t ++ [ConsoleError [js "analyze-repo error:"; message]]).
Proof.
  intros Hm Hp. unfold serve, serve_try. rewrite Hm, Hp. reflexivity.
Qed.

Lemma serve_proxied (req : request) (greq : gateway_request)
    (res : gateway_response) (t : list event) :
  jsstring_eqb (method req) (js "OPTIONS") = false ->
  prepare w req = (inr (inr greq), t) ->
  gateway w greq = inr res ->
  serve w req =
    match relay res with
    | (inr r, t') => (r, t ++ FetchGateway greq :: t')
    | (inl message, t') =>
        (error_response 500 message,
         (t ++ FetchGateway greq :: t')
           ++ [ConsoleError [js "analyze-repo error:"; message]])
    end.
Proof.
  intros Hm Hp Hg. unfold serve, serve_try. rewrite Hm, Hp. simpl.
  rewrite Hg. simpl. destruct (relay res) as [[e|r] t']; reflexivity.
Qed.

(** After validation and the credential check, the handler collects the
    three sources and then either answers 404 or assembles the prompt. *)
Lemma prepare_collects (req : request) (owner repo : jsvalue) (key : jsstring) :
  analysis_request req owner repo -> configured w key ->
  prepare w req =
    (tell (EnvGet (js "LOVABLE_API_KEY")) ;;;
     readme <- fetchReadme w owner repo ;;
     issues <- fetchIssues w owner repo ;;
     stats <- fetchRepoStats w owner repo ;;
     match stats with
     | None =>
         message <- not_found_message w owner repo ;;
         ret (inl (error_response 404 message))
     | Some st =>
         user <- userContent w owner repo st readme issues ;;
         ret (inr {| authorization := js "Bearer " ++ key;
                     model := js "google/gemini-3-flash-preview";
                     system_content := systemPrompt;
                     user_content := user;
                     stream := true |})
     end).
Proof.
  intros (_ & body & Hb & Ho & Hr & Hto & Htr) [Hk Hne].
  unfold prepare. rewrite Hb. unfold await. rewrite bind_ret.
  unfold field. rewrite Ho, Hr, !bind_ret, Hto, Htr, Hk. simpl negb. simpl orb.
  cbv iota. destruct key; [contradiction|]. reflexivity.
Qed.

Lemma fetchReadme_returns (owner repo : jsvalue) :
  exists readme t, fetchReadme w owner repo = (inr readme, t).
Proof.
  unfold fetchReadme.
  match goal with |- context [try_catch ?m ?f] =>
    destruct (try_catch_returns m f) as [a Ha]; rewrite Ha end.
  eauto.
Qed.

Lemma fetchIssues_returns (owner repo : jsvalue) :
  exists issues t, fetchIssues w owner repo = (inr issues, t).
Proof.
  unfold fetchIssues.
  match goal with |- context [try_catch ?m ?f] =>
    destruct (try_catch_returns m f) as [a Ha]; rewrite Ha end.
  eauto.
Qed.

Lemma fetchRepoStats_returns (owner repo : jsvalue) :
  exists stats t, fetchRepoStats w owner repo = (inr stats, t).
Proof.
  unfold fetchRepoStats.
  match goal with |- context [try_catch ?m ?f] =>
    destruct (try_catch_returns m f) as [a Ha]; rewrite Ha end.
  eauto.
Qed.

(** C6. When the statistics are unavailable, whatever the README and the
    issue list gave, the handler answers 404 with the error object that
    names the repository, and its trace has no call to the gateway. *)
Theorem stats_unavailable_is_not_found
    (req : request) (owner repo : jsvalue) (key o r : jsstring) :
  analysis_request req owner repo ->
  configured w key ->
  ToString owner = Some o ->
  ToString repo = Some r ->
  fst (fetchRepoStats w owner repo) = inr None ->
  fst (serve w req) =
    error_response 404
      (js "Repository " ++ o ++ js "/" ++ r ++ js " not found or inaccessible.") /\
  status (fst (serve w req)) = 404 /\
  gateway_calls (snd (serve w req)) = O.
Proof.
  intros Hreq Hkey Ho Hr Hstats.
  pose proof (prepare_collects req owner repo key Hreq Hkey) as Hp.
  destruct (fetchReadme_returns owner repo) as (readme & t1 & E1).
  destruct (fetchIssues_returns owner repo) as (issues & t2 & E2).
  destruct (fetchRepoStats w owner repo) as [stats t3] eqn:E3.
  simpl in Hstats. subst stats.
  rewrite E1, E2 in Hp. unfold not_found_message, str in Hp.
  rewrite Ho, Hr in Hp. simpl in Hp.
  destruct Hreq as [Hm _].
  rewrite (serve_early _ _ _ Hm Hp). simpl fst. simpl snd.
  repeat split.
  apply (only_not_gateway _ _ _ (no_call_prepare req) Hp).
Qed.


Lemma serve_calls_gateway (req : request) (greq : gateway_request) (t : list event) :
  jsstring_eqb (method req) (js "OPTIONS") = false ->
  prepare w req = (inr (inr greq), t) ->
  In (FetchGateway greq) (snd (serve w req)).
Proof.
  intros Hm Hp. unfold serve, serve_try. rewrite Hm, Hp. simpl.
  destruct (gateway w greq) as [e|res]; simpl.
  - apply in_or_app. left. apply in_or_app. right. left. reflexivity.
  - destruct (relay res) as [[e|r] t']; simpl.
    + apply in_or_app. left. apply in_or_app. right. left. reflexivity.
    + apply in_or_app. right. left. reflexivity.
Qed.

(** C7. The answer of the gateway is mapped before anything is streamed:
    429 and 402 keep their status with a fixed message, any other status
    outside 200..299 gives 500 with a fixed message while the upstream
    body goes to the log only, and a success passes the body stream on,
    unread, as an event stream.  The gateway is called once. *)
Theorem gateway_status_mapping
    (req : request) (greq : gateway_request) (res : gateway_response)
    (t : list event) :
  jsstring_eqb (method req) (js "OPTIONS") = false ->
  prepare w req = (inr (inr greq), t) ->
  gateway w greq = inr res ->
  gateway_calls (snd (serve w req)) = 1%nat /\
  (gw_status res = 429 ->
   serve w req =
     (error_response 429 (js "Rate limit exceeded. Please try again later."),
      t ++ [FetchGateway greq])) /\
  (gw_status res = 402 ->
   serve w req =
     (error_response 402 (js "AI usage limit reached. Please add credits."),
      t ++ [FetchGateway greq])) /\
  (ok (gw_status res) = false -> gw_status res <> 429 -> gw_status res <> 402 ->
   status (fst (serve w req)) = 500 /\
   match gw_text res with
   | inr upstream =>
       serve w req =
         (error_response 500 (js "AI analysis failed."),
          t ++ [FetchGateway greq;
                ConsoleError [js "AI gateway error:"; decimal (gw_status res);
                              upstream]])
   | inl message =>
       serve w req =
         (error_response 500 message,
          t ++ [FetchGateway greq;
                ConsoleError [js "analyze-repo error:"; message]])
   end) /\
  (ok (gw_status res) = true ->
   serve w req =
     ({| status := 200;
         headers := corsHeaders ++ [(js "Content-Type", js "text/event-stream")];
         payload := BodyStream (gw_body res) |},
      t ++ [FetchGateway greq])).
Proof.
  intros Hm Hp Hg.
  pose proof (only_not_gateway _ _ _ (no_call_prepare req) Hp) as Ht.
  rewrite (serve_proxied req greq res t Hm Hp Hg).
  unfold relay.
  destruct (ok (gw_status res)) eqn:Eok; simpl negb; cbv iota.
  - (* success *)
    unfold ret. split; [|split; [|split; [|split]]].
    + simpl snd. rewrite gateway_calls_app, Ht. reflexivity.
    + intros E. rewrite E in Eok. discriminate Eok.
    + intros E. rewrite E in Eok. discriminate Eok.
    + intros E. discriminate E.
    + intros _. reflexivity.
  - destruct (gw_status res =? 429) eqn:E429;
      [|destruct (gw_status res =? 402) eqn:E402].
    + (* rate limit *)
      apply N.eqb_eq in E429.
      unfold ret. split; [|split; [|split; [|split]]].
      * simpl snd. rewrite gateway_calls_app, Ht. reflexivity.
      * intros _. reflexivity.
      * intros E. rewrite E in E429. discriminate E429.
      * intros _ Hne. contradiction.
      * intros E. discriminate E.
    + (* quota *)
      apply N.eqb_eq in E402.
      unfold ret. split; [|split; [|split; [|split]]].
      * simpl snd. rewrite gateway_calls_app, Ht. reflexivity.
      * intros E. rewrite E in E402. discriminate E402.
      * intros _. reflexivity.
      * intros _ _ Hne. contradiction.
      * intros E. discriminate E.
    + (* any other failure *)
      apply N.eqb_neq in E429, E402.
      destruct (gw_text res) as [message|upstream]; unfold await, throw, ret, tell, bind.
      * split; [|split; [|split; [|split]]].
        -- simpl snd. rewrite !gateway_calls_app, Ht. reflexivity.
        -- intros E. contradiction.
        -- intros E. contradiction.
        -- intros _ _ _. split; [reflexivity|].
           rewrite <- app_assoc. reflexivity.
        -- intros E. discriminate E.
      * split; [|split; [|split; [|split]]].
        -- simpl snd. rewrite gateway_calls_app, Ht. reflexivity.
        -- intros E. contradiction.
        -- intros E. contradiction.
        -- intros _ _ _. split; reflexivity.
        -- intros E. discriminate E.
Qed.

(** C10. An [owner] or a [repo] that is the empty string is refused like
    a field that is absent: 400 with the fixed message, before the
    credential is read and before anything is fetched. *)
Theorem empty_field_is_rejected
    (req : request) (props : list (jsstring * jsvalue)) :
  jsstring_eqb (method req) (js "OPTIONS") = false ->
  json_body req = inr (JObject props) ->
  own (js "owner") props = Some (JString []) \/
  own (js "repo") props = Some (JString []) \/
  own (js "owner") props = None \/
  own (js "repo") props = None ->
  serve w req = (error_response 400 (js "Please provide owner and repo"), []).
Proof.
  intros Hm Hb Hf. apply (serve_early _ _ _ Hm).
  unfold prepare. rewrite Hb. unfold await. rewrite bind_ret.
  unfold field, get. rewrite !bind_ret.
  assert (E : negb (ToBoolean match own (js "owner") props with
                              | Some x => x | None => JUndefined end)
              || negb (ToBoolean match own (js "repo") props with
                                 | Some x => x | None => JUndefined end) = true).
  { destruct Hf as [H | [H | [H | H]]]; rewrite H; simpl;
      auto using orb_true_r. }
  rewrite E. reflexivity.
Qed.


(** *** The collector, source by source *)

Lemma repo_url_printed (owner repo : jsvalue) (o r : jsstring) :
  ToString owner = Some o -> ToString repo = Some r ->
  repo_url w owner repo = ret (stats_url o r).
Proof.
  intros Ho Hr. unfold repo_url, str. rewrite Ho, Hr, !bind_ret. reflexivity.
Qed.

(** What [fetchReadme] returns, by the answer of the endpoint. *)
Lemma fetchReadme_eq (owner repo : jsvalue) (o r : jsstring) :
  ToString owner = Some o -> ToString repo = Some r ->
  fetchReadme w owner repo =
    (inr match github w (readme_url o r) with
         | inl _ => js "Failed to fetch README."
         | inr res =>
             if negb (ok (gh_status res)) then js "README not found."
             else match gh_text res with
                  | Some text => firstn (N.to_nat 6000) text
                  | None => js "Failed to fetch README."
                  end
         end,
     [FetchGitHub (readme_url o r) (js "application/vnd.github.raw")]).
Proof.
  intros Ho Hr. unfold fetchReadme.
  rewrite (repo_url_printed _ _ _ _ Ho Hr), bind_ret.
  unfold github_fetch, readme_url, tell, await, bind, try_catch.
  destruct (github w (stats_url o r ++ js "/readme")) as [e|res]; simpl.
  - reflexivity.
  - destruct (negb (ok (gh_status res))); simpl; [reflexivity|].
    destruct (gh_text res); reflexivity.
Qed.

(** What [fetchIssues] returns, by the answer of the endpoint. *)
Lemma fetchIssues_eq (owner repo : jsvalue) (o r : jsstring) :
  ToString owner = Some o -> ToString repo = Some r ->
  fetchIssues w owner repo =
    (inr match github w (issues_url o r) with
         | inl _ => []
         | inr res =>
             if negb (ok (gh_status res)) then []
             else match gh_json res with
                  | Some (JArray items) =>
                      match fst (map_M (summarize w) items) with
                      | inr issues => issues
                      | inl _ => []
                      end
                  | _ => []
                  end
         end,
     [FetchGitHub (issues_url o r) (js "application/vnd.github+json")]).
Proof.
  intros Ho Hr. unfold fetchIssues.
  rewrite (repo_url_printed _ _ _ _ Ho Hr), bind_ret.
  unfold github_fetch, issues_url, tell, await.
  destruct (github w (stats_url o r ++ js "/issues?state=open&per_page=15"))
    as [e|res]; simpl; [reflexivity|].
  destruct (negb (ok (gh_status res))); simpl; [reflexivity|].
  destruct (gh_json res) as [v|]; simpl; [|reflexivity].
  destruct v; try reflexivity.
  pose proof (only_silent _ (only_map_M _ _ items (only_summarize _))) as Hs.
  destruct (map_M (summarize w) items) as [[e|issues] t]; simpl in *;
    subst t; reflexivity.
Qed.

Lemma map_M_entries {A B : Type} (f : A -> M B) (xs : list A) (ys : list B) :
  fst (map_M f xs) = inr ys -> Forall2 (fun x y => fst (f x) = inr y) xs ys.
Proof.
  revert ys. induction xs as [|x xs IH]; intros ys H; simpl in H.
  - injection H as <-. constructor.
  - unfold bind in H. destruct (f x) as [[e|y] t] eqn:Ex; simpl in H;
      [discriminate|].
    destruct (map_M f xs) as [[e|ys'] t']; simpl in H; [discriminate|].
    injection H as <-. constructor; [rewrite Ex; reflexivity|].
    apply IH. reflexivity.
Qed.


Lemma prop_defined (v : jsvalue) (k : jsstring) :
  nullish v = false -> prop w v k = ret (opt_get v k).
Proof.
  intros H. unfold prop, opt_get. destruct v; try discriminate; reflexivity.
Qed.

(** X30. The statistics are unavailable exactly when the endpoint
    failed: a body that is read always gives a whole record, whatever
    fields it lacks. *)
Lemma stats_unavailable_iff (owner repo : jsvalue) (o r : jsstring) :
  ToString owner = Some o -> ToString repo = Some r ->
  fst (fetchRepoStats w owner repo) = inr None <->
  stats_failed (github w (stats_url o r)).
Proof.
  intros Ho Hr. unfold fetchRepoStats, stats_failed.
  rewrite (repo_url_printed _ _ _ _ Ho Hr), bind_ret.
  unfold github_fetch, tell.
  destruct (github w (stats_url o r)) as [e|res]; simpl.
  - split; [intros _; left; eauto | reflexivity].
  - destruct (ok (gh_status res)) eqn:Eok; simpl.
    2:{ split; [intros _; right; exists res; auto | reflexivity]. }
    destruct (gh_json res) as [data|] eqn:Ej; simpl.
    2:{ split; [intros _; right; exists res; auto | reflexivity]. }
    destruct (nullish data) eqn:En.
    + split; [intros _; right; exists res; split; [reflexivity|];
              right; right; exists data; auto|].
      intros _. unfold prop. destruct data; try discriminate; reflexivity.
    + rewrite !(prop_defined _ _ En), !bind_ret. simpl.
      split; [discriminate|].
      intros [[e H] | [res' [H [H1 | [H1 | [v [H1 H2]]]]]]];
        try discriminate; injection H as <-; try congruence.
Qed.

Lemma bind_pair {A B : Type} (a : A) (t : list event) (k : A -> M B) :
  bind (inr a, t) k = (fst (k a), t ++ snd (k a)).
Proof. unfold bind. destruct (k a). reflexivity. Qed.



(** *** Substrings *)

Lemma startsWith_app (p b : jsstring) : startsWith p (p ++ b) = true.
Proof.
  induction p as [|c p IH]; simpl; [reflexivity|].
  rewrite N.eqb_refl. exact IH.
Qed.

Lemma includes_unfold (p s : jsstring) :
  includes p s =
  startsWith p s || match s with [] => false | _ :: s' => includes p s' end.
Proof. destruct s; reflexivity. Qed.

Lemma includes_middle (p a b : jsstring) : includes p (a ++ p ++ b) = true.
Proof.
  induction a as [|c a IH].
  - simpl app. rewrite includes_unfold, startsWith_app. reflexivity.
  - simpl app. rewrite includes_unfold, IH. apply orb_true_r.
Qed.



Lemma fetchIssues_failed (owner repo : jsvalue) (o r : jsstring) :
  ToString owner = Some o -> ToString repo = Some r ->
  issues_failed w (github w (issues_url o r)) ->
  fst (fetchIssues w owner repo) = inr [].
Proof.
  intros Ho Hr Hf. rewrite (fetchIssues_eq _ _ _ _ Ho Hr). simpl fst.
  destruct Hf as [[e ->] | [res [-> [H | [H | [[v [H Hv]] | [items [e [H He]]]]]]]]].
  - reflexivity.
  - rewrite H. reflexivity.
  - rewrite H. destruct (negb (ok (gh_status res))); reflexivity.
  - rewrite H. destruct (negb (ok (gh_status res))); [reflexivity|].
    destruct v; try reflexivity. exfalso. exact (Hv items eq_refl).
  - rewrite H, He. destruct (negb (ok (gh_status res))); reflexivity.
Qed.


(** The callback of [issues.map] on one entry: the summary of a
    well-formed entry, an error on any other. *)
Lemma label_names (ls : list jsvalue) :
  fst (map_M (fun l => prop w l (js "name")) ls) =
  if forallb (fun l => negb (nullish l)) ls
  then inr (map (fun l => opt_get l (js "name")) ls)
  else inl (runtime_message w ReadOfNullish).
Proof.
  induction ls as [|l ls IH]; [reflexivity|].
  cbn [map_M forallb map].
  destruct (nullish l) eqn:En.
  - unfold prop. destruct l; try discriminate En; reflexivity.
  - rewrite (prop_defined _ _ En), bind_ret. cbn [negb andb].
    destruct (map_M (fun l0 => prop w l0 (js "name")) ls) as [[e|names] t];
      simpl in IH;
      destruct (forallb (fun l0 => negb (nullish l0)) ls);
      try discriminate IH; injection IH as ->.
    + reflexivity.
    + rewrite bind_pair. reflexivity.
Qed.

Lemma summarize_entry (i : jsvalue) :
  if well_formed_entry i
  then fst (summarize w i) = inr (summary i)
  else exists e, fst (summarize w i) = inl e.
Proof.
  unfold well_formed_entry, summarize, summary, labels_of.
  destruct (nullish i) eqn:En; cbn [negb andb].
  - eexists. unfold prop. destruct i; try discriminate En; reflexivity.
  - rewrite !(prop_defined _ _ En), !bind_ret.
    destruct (opt_get i (js "labels")) as [| | | | |ls|] eqn:El;
      try (eexists; reflexivity); try (rewrite !bind_ret; reflexivity).
    pose proof (label_names ls) as Hn.
    pose proof (only_silent _
                  (only_map_M (fun _ => False) (fun l => prop w l (js "name")) ls
                     (fun l => only_prop _ l (js "name")))) as Hs.
    destruct (map_M (fun l => prop w l (js "name")) ls) as [r t].
    simpl in Hn, Hs. subst r t.
    destruct (forallb (fun l => negb (nullish l)) ls).
    + rewrite bind_pair. cbv beta. rewrite !bind_ret. reflexivity.
    + eexists. reflexivity.
Qed.

(** [issues.map] on the whole array: the summaries of the entries, in
    their order, when every entry is well formed, an error otherwise. *)
Lemma summarize_entries (items : list jsvalue) :
  if forallb well_formed_entry items
  then fst (map_M (summarize w) items) = inr (map summary items)
  else exists e, fst (map_M (summarize w) items) = inl e.
Proof.
  induction items as [|i items IH]; [reflexivity|].
  cbn [map_M forallb map].
  pose proof (summarize_entry i) as Hi.
  pose proof (only_silent _ (only_summarize (fun _ => False) i)) as Hs.
  destruct (summarize w i) as [r t]. simpl in Hi, Hs. subst t.
  destruct (well_formed_entry i); cbn [andb].
  - subst r. rewrite bind_pair. cbv beta.
    destruct (map_M (summarize w) items) as [[e|ys] t'].
    + destruct (forallb well_formed_entry items); [discriminate IH|].
      eexists. reflexivity.
    + destruct (forallb well_formed_entry items).
      * simpl in IH. injection IH as ->. rewrite bind_pair. reflexivity.
      * destruct IH as [e He]. discriminate He.
  - destruct Hi as [e ->]. eexists. reflexivity.
Qed.

(** C9, as the code has it.  The collector asks the issues endpoint for
    fifteen entries ([per_page=15] in the address) and makes no other
    request.  When the endpoint answers with an array of well-formed
    entries, the collector returns the summary of each entry, in the
    order of the answer: the list is as long as the array, whatever its
    length, and has at most fifteen entries when the answer has.  When
    the fetch fails, or an entry is not well formed, it returns the empty
    list. *)
Theorem issue_list_follows_answer (owner repo : jsvalue) (o r : jsstring) :
  ToString owner = Some o ->
  ToString repo = Some r ->
  snd (fetchIssues w owner repo)
    = [FetchGitHub
         (js "https://api.github.com/repos/" ++ o ++ js "/" ++ r
          ++ js "/issues?state=open&per_page=15")
         (js "application/vnd.github+json")] /\
  (forall res items,
     github w (issues_url o r) = inr res ->
     ok (gh_status res) = true ->
     gh_json res = Some (JArray items) ->
     (forallb well_formed_entry items = true ->
      fst (fetchIssues w owner repo) = inr (map summary items) /\
      List.length (map summary items) = List.length items /\
      ((List.length items <= 15)%nat ->
       (List.length (map summary items) <= 15)%nat)) /\
     (forallb well_formed_entry items = false ->
      fst (fetchIssues w owner repo) = inr [])) /\
  (issues_failed w (github w (issues_url o r)) ->
   fst (fetchIssues w owner repo) = inr []).
Proof.
  intros Ho Hr. split; [|split].
  - rewrite (fetchIssues_eq _ _ _ _ Ho Hr). simpl snd.
    unfold issues_url, stats_url, GITHUB_API.
    do 2 f_equal. rewrite <- !app_assoc. reflexivity.
  - intros res items Ha Hok Hj.
    rewrite (fetchIssues_eq _ _ _ _ Ho Hr), Ha, Hok, Hj. simpl fst.
    pose proof (summarize_entries items) as Hs.
    split; intros Hwf; rewrite Hwf in Hs.
    + rewrite Hs. split; [reflexivity|].
      rewrite length_map. split; [reflexivity | exact (fun H => H)].
    + destruct Hs as [e ->]. reflexivity.
  - exact (fetchIssues_failed _ _ _ _ Ho Hr).
Qed.

End World.

(** *** The theorems on sample worlds *)

Lemma sample_request_is_analysis :
  analysis_request sample_request (text "foo") (text "bar").
Proof.
  split; [reflexivity|]. eexists. split; [reflexivity|].
  repeat split; reflexivity.
Defined.

Lemma sample_world_configured readme issues stats answer :
  configured (sample_world readme issues stats answer) (js "secret").
Proof. split; [reflexivity | discriminate]. Defined.

(** The scenario of the metadata endpoint answering 404 for [foo/bar]. *)
Lemma stats_unavailable_is_not_found_witness :
  fst (fetchRepoStats world_not_found (text "foo") (text "bar")) = inr None /\
  payload (fst (serve world_not_found sample_request)) =
    BodyText (jsq "{'error':'Repository foo/bar not found or inaccessible.'}") /\
  status (fst (serve world_not_found sample_request)) = 404 /\
  gateway_calls (snd (serve world_not_found sample_request)) = O.
Proof.
  assert (Hs : fst (fetchRepoStats world_not_found (text "foo") (text "bar"))
               = inr None) by (vm_compute; reflexivity).
  destruct (stats_unavailable_is_not_found world_not_found sample_request
              (text "foo") (text "bar") (js "secret") (js "foo") (js "bar")
              sample_request_is_analysis (sample_world_configured _ _ _ _)
              eq_refl eq_refl Hs) as (Hr & Hc & Hg).
  split; [exact Hs|]. split; [|split; [exact Hc | exact Hg]].
  rewrite Hr. vm_compute. reflexivity.
Defined.

Lemma gateway_status_mapping_witness :
  exists greq t,
    prepare world_overloaded sample_request = (inr (inr greq), t) /\
    status (fst (serve world_overloaded sample_request)) = 500 /\
    payload (fst (serve world_overloaded sample_request)) =
      BodyText (jsq "{'error':'AI analysis failed.'}") /\
    gateway_calls (snd (serve world_overloaded sample_request)) = 1%nat.
Proof.
  destruct (prepare world_overloaded sample_request) as [[e|[early|greq]] t] eqn:Hp;
    try (vm_compute in Hp; discriminate Hp).
  exists greq, t. split; [reflexivity|].
  destruct (gateway_status_mapping world_overloaded sample_request greq
              {| gw_status := 503; gw_body := [];
                 gw_text := inr (js "upstream stack trace") |} t
              eq_refl Hp eq_refl) as (Hcalls & _ & _ & Hother & _).
  destruct Hother as [Hs Hresp]; [reflexivity | discriminate | discriminate |].
  simpl in Hresp. split; [exact Hs|]. split; [|exact Hcalls].
  rewrite Hresp. vm_compute. reflexivity.
Defined.



(** The README is not found, the statistics are fine, and the issue
    list is fetched but holds a title that cannot be printed: the prompt
    is not assembled, the handler answers 500 and the gateway is not
    called. *)
Example unprintable_issue_stops_the_request :
  readme_not_found
    (github world_unprintable_issue (readme_url (js "foo") (js "bar"))) /\
  fst (fetchRepoStats world_unprintable_issue (text "foo") (text "bar"))
    = inr (Some sample_stats) /\
  (exists i, fst (fetchIssues world_unprintable_issue (text "foo") (text "bar"))
             = inr [i]) /\
  ~ issues_render world_unprintable_issue (text "foo") (text "bar") /\
  status (fst (serve world_unprintable_issue sample_request)) = 500 /\
  gateway_calls (snd (serve world_unprintable_issue sample_request)) = 0%nat.
Proof.
  split; [eexists; split; [vm_compute; reflexivity | reflexivity]|].
  split; [vm_compute; reflexivity|].
  split; [eexists; vm_compute; reflexivity|].
  split; [|split; vm_compute; reflexivity].
  intros (issues & block & Hi & Hb).
  vm_compute in Hi. injection Hi as <-.
  vm_compute in Hb. discriminate Hb.
Qed.

(** The collector on an answer of two entries and on a network error. *)
Lemma issue_list_follows_answer_witness :
  snd (fetchIssues world_overloaded (text "foo") (text "bar"))
    = [FetchGitHub
         (js "https://api.github.com/repos/foo/bar/issues?state=open&per_page=15")
         (js "application/vnd.github+json")] /\
  fst (fetchIssues world_overloaded (text "foo") (text "bar"))
    = inr [summary (sample_issue 1); summary (sample_issue 2)] /\
  issue_labels (summary (sample_issue 1)) = [text "help wanted"] /\
  fst (fetchIssues world_degraded (text "foo") (text "bar")) = inr [].
Proof.
  destruct (issue_list_follows_answer world_overloaded (text "foo") (text "bar")
              (js "foo") (js "bar") eq_refl eq_refl) as (Ht & Hl & _).
  destruct (issue_list_follows_answer world_degraded (text "foo") (text "bar")
              (js "foo") (js "bar") eq_refl eq_refl) as (_ & _ & Hf).
  split; [exact Ht|].
  split.
  - refine (proj1 (proj1 (Hl _ [sample_issue 1; sample_issue 2] _ _ _) _));
      vm_compute; reflexivity.
  - split; [reflexivity|].
    apply Hf. left. eexists. vm_compute. reflexivity.
Defined.

(** An answer of sixteen entries gives sixteen summaries. *)
Lemma sixteen_issues_are_kept :
  exists issues,
    fst (fetchIssues world_long_list (text "foo") (text "bar")) = inr issues /\
    List.length issues = 16%nat /\
    ~ (List.length issues <= 15)%nat.
Proof.
  eexists. split; [vm_compute; reflexivity|].
  split; [reflexivity | simpl; lia].
Qed.

Lemma empty_field_is_rejected_witness :
  own (js "owner") [(js "owner", JString []); (js "repo", text "bar")]
    = Some (JString []) /\
  serve world_not_found request_without_owner =
    (error_response 400 (js "Please provide owner and repo"), []) /\
  payload (fst (serve world_not_found request_without_owner)) =
    BodyText (jsq "{'error':'Please provide owner and repo'}").
Proof.
  assert (H : serve world_not_found request_without_owner =
              (error_response 400 (js "Please provide owner and repo"), [])).
  { apply (empty_field_is_rejected world_not_found request_without_owner
             [(js "owner", JString []); (js "repo", text "bar")]);
      [reflexivity | reflexivity | left; reflexivity]. }
  split; [reflexivity|]. split; [exact H|].
  rewrite H. vm_compute. reflexivity.
Defined.

End AggregatorFacts.

(** ** The frame decoder on any stream *)

Module StallFacts.
Import Js Value Decoder DecoderFacts Stall.

(** *** Trimming *)

Lemma trimStart_snoc_space (x : jsstring) (c : N) :
  is_space c = true ->
  trimStart (x ++ [c]) = trimStart x ++ [c] \/
  (trimStart (x ++ [c]) = [] /\ trimStart x = []).
Proof.
  intros Hc. induction x as [|a x IH]; simpl.
  - rewrite Hc. right. auto.
  - destruct (is_space a); [exact IH | left; reflexivity].
Qed.

Lemma trimEnd_snoc_space (y : jsstring) (c : N) :
  is_space c = true -> trimEnd (y ++ [c]) = trimEnd y.
Proof.
  intros Hc. unfold trimEnd. rewrite rev_app_distr. simpl. rewrite Hc. reflexivity.
Qed.

Lemma trim_snoc_space (x : jsstring) (c : N) :
  is_space c = true -> trim (x ++ [c]) = trim x.
Proof.
  intros Hc. unfold trim.
  destruct (trimStart_snoc_space x c Hc) as [-> | [-> ->]].
  - apply trimEnd_snoc_space. exact Hc.
  - reflexivity.
Qed.

(** *** Lines that end with a carriage return *)

Lemma endsWith_cr_snoc (l : jsstring) :
  endsWith_cr l = true -> l = removelast l ++ [13].
Proof.
  unfold endsWith_cr. intros H.
  destruct l as [|a l'] using rev_ind; [discriminate H|].
  rewrite rev_app_distr in H. simpl in H. apply N.eqb_eq in H. subst.
  rewrite removelast_last. reflexivity.
Qed.

Lemma indexOf_nl_app_none (a b : jsstring) :
  indexOf_nl (a ++ b) = None -> indexOf_nl a = None.
Proof.
  induction a as [|c a IH]; simpl; [reflexivity|].
  destruct (c =? 10); [discriminate|].
  destruct (indexOf_nl (a ++ b)); [discriminate|].
  intros _. rewrite IH by reflexivity. reflexivity.
Qed.

Lemma strip_cr_no_newline (l : jsstring) :
  indexOf_nl l = None -> indexOf_nl (strip_cr l) = None.
Proof.
  intros H. unfold strip_cr. destruct (endsWith_cr l) eqn:E; [|exact H].
  rewrite (endsWith_cr_snoc l E) in H. exact (indexOf_nl_app_none _ _ H).
Qed.

Lemma startsWith_snoc (p x : jsstring) (c : N) :
  (List.length p <= List.length x)%nat ->
  startsWith p (x ++ [c]) = startsWith p x.
Proof.
  revert x. induction p as [|a p IH]; intros x H; [reflexivity|].
  destruct x as [|b x]; simpl in *; [lia|].
  rewrite IH by lia. reflexivity.
Qed.

Lemma startsWith_length (p x : jsstring) :
  startsWith p x = true -> (List.length p <= List.length x)%nat.
Proof.
  revert x. induction p as [|a p IH]; intros x H; simpl; [lia|].
  destruct x as [|b x]; simpl in *; [discriminate|].
  apply andb_true_iff in H. destruct H as [_ H]. specialize (IH x H). lia.
Qed.

Lemma startsWith_split (p x : jsstring) :
  startsWith p x = true -> exists t, x = p ++ t.
Proof.
  revert x. induction p as [|a p IH]; intros x H; [exists x; reflexivity|].
  destruct x as [|b x]; simpl in *; [discriminate|].
  apply andb_true_iff in H. destruct H as [Hab H]. apply N.eqb_eq in Hab. subst b.
  destruct (IH x H) as [t ->]. exists t. reflexivity.
Qed.

Lemma skipn_snoc {A : Type} (n : nat) (x : list A) (c : A) :
  (n <= List.length x)%nat -> skipn n (x ++ [c]) = skipn n x ++ [c].
Proof.
  intros H. rewrite skipn_app.
  replace (n - List.length x)%nat with O by lia. reflexivity.
Qed.

(** The line put back in the buffer is read the same way the next time:
    the carriage return that was cut is white space for [trim]. *)
Lemma strip_cr_same_payload (l : jsstring) :
  startsWith data_prefix (strip_cr l) = true ->
  startsWith data_prefix (strip_cr (strip_cr l)) = true /\
  trim (skipn 6 (strip_cr (strip_cr l))) = trim (skipn 6 (strip_cr l)).
Proof.
  generalize (strip_cr l). clear l. intros l1 Hp.
  unfold strip_cr. destruct (endsWith_cr l1) eqn:E; [|auto].
  pose proof (endsWith_cr_snoc l1 E) as Hs.
  pose proof (startsWith_length _ _ Hp) as Hlen.
  assert (Hlen' : (6 <= List.length (removelast l1))%nat).
  { destruct (Nat.eq_dec (List.length l1) 6) as [H6|H6].
    - exfalso.
      destruct l1 as [|c1 [|c2 [|c3 [|c4 [|c5 [|c6 [|c7 t]]]]]]]; try discriminate H6.
      unfold endsWith_cr in E. simpl in E. apply N.eqb_eq in E. subst c6.
      apply startsWith_split in Hp. destruct Hp as [t Hp].
      unfold data_prefix in Hp. simpl in Hp. discriminate Hp.
    - rewrite Hs, length_app in Hlen. simpl in Hlen.
      rewrite Hs, length_app in H6. simpl in H6.
      change (List.length data_prefix) with 6%nat in Hlen. lia. }
  rewrite Hs in Hp. rewrite startsWith_snoc in Hp by exact Hlen'.
  split; [exact Hp|].
  rewrite Hs at 2. rewrite skipn_snoc by exact Hlen'.
  symmetry. apply trim_snoc_space. reflexivity.
Qed.

Section Loop.

Variable JSON_parse : jsstring -> option jsvalue.

Lemma classify_malformed_iff (l : jsstring) :
  classify JSON_parse l = Malformed <->
  startsWith data_prefix (strip_cr l) = true /\
  jsstring_eqb (trim (skipn 6 (strip_cr l))) DONE = false /\
  try_frame JSON_parse (trim (skipn 6 (strip_cr l))) = None.
Proof.
  unfold classify. cbv zeta.
  destruct (startsWith data_prefix (strip_cr l)); unfold negb; cbv iota.
  2:{ split; [discriminate | intros [H _]; discriminate H]. }
  destruct (jsstring_eqb (trim (skipn 6 (strip_cr l))) DONE).
  { split; [discriminate | intros (_ & H & _); discriminate H]. }
  destruct (try_frame JSON_parse (trim (skipn 6 (strip_cr l)))) as [[t|]|].
  - split; [discriminate | intros (_ & _ & H); discriminate H].
  - split; [discriminate | intros (_ & _ & H); discriminate H].
  - split; auto.
Qed.

Lemma classify_strip_cr (l : jsstring) :
  classify JSON_parse l = Malformed ->
  classify JSON_parse (strip_cr l) = Malformed.
Proof.
  rewrite !classify_malformed_iff. intros (Hp & Hd & Ht).
  destruct (strip_cr_same_payload l Hp) as [Hp' Hj].
  rewrite Hj. auto.
Qed.

Lemma indexOf_nl_first_line (l rest : jsstring) :
  indexOf_nl l = None -> indexOf_nl (l ++ 10 :: rest) = Some (List.length l).
Proof.
  induction l as [|c l IH]; simpl; intros H; [reflexivity|].
  destruct (c =? 10); [discriminate|].
  destruct (indexOf_nl l); [discriminate|].
  rewrite IH by reflexivity. reflexivity.
Qed.

(** A pass over a buffer that starts with a malformed line changes only
    the buffer: the line, without its carriage return, is put back. *)
Lemma drain_malformed (fuel : nat) (s : session) (l rest : jsstring) :
  buffer s = l ++ 10 :: rest ->
  indexOf_nl l = None ->
  classify JSON_parse l = Malformed ->
  drain JSON_parse (S fuel) s = with_buffer s (strip_cr l ++ 10 :: rest).
Proof.
  intros Hb Hl Hc.
  assert (Ei : indexOf_nl (buffer s) = Some (List.length l)).
  { rewrite Hb. apply indexOf_nl_first_line. exact Hl. }
  rewrite (drain_step _ _ _ _ Ei). cbv zeta.
  assert (Hf : firstn (List.length l) (buffer s) = l).
  { rewrite Hb, firstn_app, firstn_all, Nat.sub_diag. simpl. apply app_nil_r. }
  assert (Hs : skipn (S (List.length l)) (buffer s) = rest).
  { rewrite Hb, skipn_app, skipn_all2, Nat.sub_succ_l, Nat.sub_diag by lia.
    reflexivity. }
  rewrite Hf, Hs.
  apply classify_malformed_iff in Hc. destruct Hc as (Hp & Hd & Ht).
  rewrite Hp, Hd, Ht. reflexivity.
Qed.

Lemma stalled_on_chunk (s : session) (value : list byte) :
  stalled JSON_parse s ->
  stalled JSON_parse (on_chunk JSON_parse s value) /\
  deltas (on_chunk JSON_parse s value) = deltas s /\
  result (on_chunk JSON_parse s value) = result s /\
  analysis (on_chunk JSON_parse s value) = analysis s.
Proof.
  intros (l & rest & Hb & Hl & Hc).
  rewrite on_chunk_eq. cbv zeta.
  set (x := snd (decode (decoder s) value)).
  set (s1 := {| decoder := fst (decode (decoder s) value);
                buffer := buffer s ++ x; result := result s;
                analysis := analysis s; deltas := deltas s |}).
  assert (Hb1 : buffer s1 = l ++ 10 :: (rest ++ x)).
  { simpl. rewrite Hb, <- app_assoc. reflexivity. }
  assert (Hlen : exists f, List.length (buffer s1) = S f).
  { rewrite Hb1, length_app. simpl. exists (List.length l + List.length (rest ++ x))%nat. lia. }
  destruct Hlen as [f ->].
  rewrite (drain_malformed f s1 l (rest ++ x) Hb1 Hl Hc).
  split; [|auto].
  exists (strip_cr l), (rest ++ x). simpl.
  split; [reflexivity|]. split; [apply strip_cr_no_newline; exact Hl|].
  apply classify_strip_cr. exact Hc.
Qed.

Lemma halts_at_line (s s1 s' : session) (line c l rest : jsstring) (ts : list jsstring) :
  indexOf_nl line = None ->
  buffer s = line ++ 10 :: buffer s1 ->
  decoder s1 = decoder s ->
  deltas s1 = deltas s ++ ts ->
  texts [classify JSON_parse line] = ts ->
  halts_at JSON_parse s1 s' c l rest ->
  halts_at JSON_parse s s' (line ++ 10 :: c) l rest.
Proof.
  intros Hline Hb Hdec Hd Hts (Hb' & Hal & Hl & Hc & Hd' & Hdec' & Hbuf).
  unfold halts_at. rewrite text_frames_first_line by exact Hline.
  repeat split; auto.
  - rewrite Hb, Hb', <- app_assoc. reflexivity.
  - apply aligned_line; assumption.
  - rewrite Hd', Hd, <- app_assoc. f_equal.
    change (classify JSON_parse line :: text_frames JSON_parse c)
      with ([classify JSON_parse line] ++ text_frames JSON_parse c).
    rewrite texts_app, Hts. reflexivity.
  - rewrite Hdec'. exact Hdec.
Qed.

(** One pass of the inner loop over any buffer: it consumes whole lines,
    none of them malformed, and stops at the end of the complete lines,
    after a sentinel, or at the first malformed line. *)
Lemma drain_any (fuel : nat) (s : session) :
  (List.length (buffer s) <= fuel)%nat ->
  (exists c, consumes JSON_parse s (drain JSON_parse fuel s) c /\
             ~ In Malformed (text_frames JSON_parse c)) \/
  (exists c l rest, halts_at JSON_parse s (drain JSON_parse fuel s) c l rest /\
             ~ In Malformed (text_frames JSON_parse c)).
Proof.
  revert s. induction fuel as [|fuel IH]; intros s Hlen.
  - destruct (buffer s) as [|x b] eqn:Eb; [|simpl in Hlen; lia].
    left. exists []. unfold consumes. simpl. rewrite Eb. simpl. rewrite Eb.
    repeat split; auto. rewrite app_nil_r. reflexivity.
  - destruct (indexOf_nl (buffer s)) as [i|] eqn:Ei.
    + rewrite (drain_step _ _ _ _ Ei). cbv zeta.
      destruct (indexOf_nl_split _ _ Ei) as [Hsplit Hline].
      pose proof (indexOf_nl_length _ _ Ei) as Hi.
      set (line := firstn i (buffer s)) in *.
      set (rest := skipn (S i) (buffer s)) in *.
      assert (Hrest : (List.length rest <= fuel)%nat).
      { unfold rest. rewrite length_skipn. lia. }
      assert (Hnext : forall s1 ts,
                 buffer s1 = rest -> decoder s1 = decoder s ->
                 deltas s1 = deltas s ++ ts ->
                 texts [classify JSON_parse line] = ts ->
                 classify JSON_parse line <> Malformed ->
                 (exists c, consumes JSON_parse s (drain JSON_parse fuel s1) c /\
                            ~ In Malformed (text_frames JSON_parse c)) \/
                 (exists c l r, halts_at JSON_parse s (drain JSON_parse fuel s1) c l r /\
                            ~ In Malformed (text_frames JSON_parse c))).
      { intros s1 ts Hb1 Hdec1 Hd1 Hts Hnm.
        assert (Hrest1 : (List.length (buffer s1) <= fuel)%nat) by (rewrite Hb1; exact Hrest).
        assert (Hbs : buffer s = line ++ 10 :: buffer s1) by (rewrite Hb1; exact Hsplit).
        destruct (IH s1 Hrest1) as [(c & Hcons & Hok) | (c & l & r & Hh & Hok)].
        - left. exists (line ++ 10 :: c). split.
          + apply consumes_line with (s1 := s1) (ts := ts); auto.
          + rewrite text_frames_first_line by exact Hline.
            intros [H|H]; [exact (Hnm H) | exact (Hok H)].
        - right. exists (line ++ 10 :: c), l, r. split.
          + apply halts_at_line with (s1 := s1) (ts := ts); auto.
          + rewrite text_frames_first_line by exact Hline.
            intros [H|H]; [exact (Hnm H) | exact (Hok H)]. }
      destruct (classify_cases JSON_parse line) as [[E Hc] | [E [[E2 Hc] | [E2 Hc]]]];
        cbv zeta in *; rewrite E.
      * apply (Hnext (with_buffer s rest) []); auto.
        -- simpl. rewrite app_nil_r. reflexivity.
        -- rewrite Hc. reflexivity.
        -- rewrite Hc. discriminate.
      * rewrite E2. left.
        exists (line ++ [10]). unfold consumes.
        rewrite text_frames_first_line by exact Hline. rewrite Hc. simpl.
        split; [repeat split|].
        -- rewrite <- app_assoc. exact Hsplit.
        -- apply aligned_line; [exact Hline | reflexivity].
        -- rewrite app_nil_r. reflexivity.
        -- right. left. reflexivity.
        -- intros [H|[]]. discriminate H.
      * rewrite E2.
        destruct (try_frame JSON_parse (trim (skipn 6 (strip_cr line))))
          as [[text|]|] eqn:Etry.
        -- apply (Hnext (append (with_buffer s rest) text) [text]); auto.
           ++ rewrite Hc. reflexivity.
           ++ rewrite Hc. discriminate.
        -- apply (Hnext (with_buffer s rest) []); auto.
           ++ simpl. rewrite app_nil_r. reflexivity.
           ++ rewrite Hc. reflexivity.
           ++ rewrite Hc. discriminate.
        -- right. exists [], line, rest. split.
           ++ unfold halts_at. simpl. repeat split; auto.
              rewrite app_nil_r. reflexivity.
           ++ simpl. auto.
    + rewrite (drain_stop _ _ _ Ei). left.
      exists []. unfold consumes. simpl. split; [|auto]. repeat split; auto.
      rewrite app_nil_r. reflexivity.
Qed.

Lemma drain_decoder (fuel : nat) (s : session) :
  decoder (drain JSON_parse fuel s) = decoder s.
Proof.
  revert s. induction fuel as [|fuel IH]; intros s.
  - simpl. destruct (indexOf_nl (buffer s)); reflexivity.
  - destruct (indexOf_nl (buffer s)) as [i|] eqn:Ei.
    + rewrite (drain_step _ _ _ _ Ei). cbv zeta.
      destruct (negb (startsWith data_prefix _)); [rewrite IH; reflexivity|].
      destruct (jsstring_eqb _ DONE); [reflexivity|].
      destruct (try_frame JSON_parse _) as [[t|]|]; [| |reflexivity];
        rewrite IH; reflexivity.
    + rewrite (drain_stop _ _ _ Ei). reflexivity.
Qed.

Lemma on_chunk_decoder (s : session) (value : list byte) :
  decoder (on_chunk JSON_parse s value) = fst (decode (decoder s) value).
Proof. rewrite on_chunk_eq. cbv zeta. rewrite drain_decoder. reflexivity. Qed.

(** One turn of the outer loop keeps track of the text received. *)
Lemma tracks_on_chunk (s : session) (text : jsstring) (value : list byte) :
  tracks JSON_parse s text ->
  tracks JSON_parse (on_chunk JSON_parse s value)
         (text ++ snd (decode (decoder s) value)).
Proof.
  intros [(c & Ht & Hal & Hd & Hok & Hp) | (c & l & rest & Ht & Hal & Hl & Hc & Hd & Hok & Hst)].
  - rewrite on_chunk_eq. cbv zeta.
    set (x := snd (decode (decoder s) value)).
    set (s1 := {| decoder := fst (decode (decoder s) value);
                  buffer := buffer s ++ x; result := result s;
                  analysis := analysis s; deltas := deltas s |}).
    destruct (drain_any (List.length (buffer s1)) s1 (le_n _))
      as [(c' & (Hb & Halc & Hdc & Hdec & Hpc) & Hok') | (c' & l & r & (Hb & Halc & Hl & Hc & Hdc & Hdec & Hbuf) & Hok')].
    + left. exists (c ++ c'). repeat split.
      * rewrite Ht, <- !app_assoc. f_equal. exact Hb.
      * apply aligned_app; assumption.
      * rewrite Hdc, text_frames_aligned_app, texts_app by exact Hal.
        simpl. rewrite Hd. reflexivity.
      * rewrite text_frames_aligned_app by exact Hal.
        intros H. apply in_app_or in H. destruct H; auto.
      * destruct Hpc as [Hpc|Hpc]; [left; exact Hpc|].
        right. rewrite text_frames_aligned_app by exact Hal.
        apply in_or_app. right. exact Hpc.
    + right. exists (c ++ c'), l, r. repeat split; auto.
      * rewrite Ht, <- !app_assoc. f_equal. exact Hb.
      * apply aligned_app; assumption.
      * rewrite Hdc, text_frames_aligned_app, texts_app by exact Hal.
        simpl. rewrite Hd. reflexivity.
      * rewrite text_frames_aligned_app by exact Hal.
        intros H. apply in_app_or in H. destruct H; auto.
      * exists (strip_cr l), r. split; [exact Hbuf|].
        split; [apply strip_cr_no_newline; exact Hl | apply classify_strip_cr; exact Hc].
  - destruct (stalled_on_chunk s value Hst) as (Hst' & Hd' & _).
    right. exists c, l, (rest ++ snd (decode (decoder s) value)).
    repeat split; auto.
    + rewrite Ht, <- !app_assoc. reflexivity.
    + rewrite Hd'. exact Hd.
Qed.

Lemma tracks_read_loop (chunks : list (list byte)) (s : session) (text : jsstring) :
  tracks JSON_parse s text ->
  tracks JSON_parse (fold_left (on_chunk JSON_parse) chunks s)
         (text ++ snd (decode (decoder s) (List.concat chunks))).
Proof.
  revert s text. induction chunks as [|value chunks IH]; intros s text H.
  - simpl. rewrite app_nil_r. exact H.
  - simpl fold_left. simpl List.concat. rewrite decode_app. simpl snd.
    rewrite app_assoc, <- on_chunk_decoder.
    apply IH. apply tracks_on_chunk. exact H.
Qed.

Lemma tracks_start : tracks JSON_parse start [].
Proof.
  left. exists []. simpl. repeat split; auto.
Qed.

Lemma tracks_read_all (chunks : list (list byte)) :
  tracks JSON_parse (read_all JSON_parse chunks) (stream_text (List.concat chunks)).
Proof.
  unfold read_all, stream_text.
  exact (tracks_read_loop chunks start [] tracks_start).
Qed.

(** X1. Whatever the stream and however it is cut into chunks, the texts
    that the loop has appended are the texts of the first frames of the
    stream, in order and without a gap; none of these frames is
    malformed, and the loop stopped there because no whole line was
    left, because the next frame is malformed, or after a sentinel. *)
Theorem decoded_texts_are_a_frame_prefix (chunks : list (list byte)) :
  exists f1 f2,
    frames_of JSON_parse (List.concat chunks) = f1 ++ f2 /\
    ~ In Malformed f1 /\
    deltas (read_all JSON_parse chunks) = texts f1 /\
    (f2 = [] \/ (exists f, f2 = Malformed :: f) \/ In Sentinel f1).
Proof.
  unfold frames_of.
  destruct (tracks_read_all chunks)
    as [(c & Ht & Hal & Hd & Hok & Hp) | (c & l & rest & Ht & Hal & Hl & Hc & Hd & Hok & Hst)].
  - exists (text_frames JSON_parse c),
           (text_frames JSON_parse (buffer (read_all JSON_parse chunks))).
    rewrite Ht, text_frames_aligned_app by exact Hal.
    repeat split; auto.
    destruct Hp as [Hp|Hp]; [left | right; right; exact Hp].
    apply text_frames_no_newline. exact Hp.
  - exists (text_frames JSON_parse c), (Malformed :: text_frames JSON_parse rest).
    rewrite Ht, text_frames_aligned_app by exact Hal.
    rewrite text_frames_first_line by exact Hl. rewrite Hc.
    repeat split; auto.
    right. left. eexists. reflexivity.
Qed.

(** X2. A record that is not followed by a newline is never decoded: as
    long as the text received holds no newline, nothing is appended,
    whatever the chunks; the loop has no step that reads the buffer
    once the stream has ended. *)
Theorem unterminated_line_is_dropped (chunks : list (list byte)) :
  indexOf_nl (stream_text (List.concat chunks)) = None ->
  deltas (read_all JSON_parse chunks) = [] /\
  buffer (read_all JSON_parse chunks) = stream_text (List.concat chunks).
Proof.
  intros Hn.
  destruct (tracks_read_all chunks)
    as [(c & Ht & Hal & Hd & Hok & Hp) | (c & l & rest & Ht & Hal & Hl & Hc & Hd & Hok & Hst)].
  - rewrite Ht in Hn.
    assert (Hc : c = []).
    { pose proof (indexOf_nl_app_none _ _ Hn) as Hcn.
      pose proof (lines_tail_no_newline _ Hcn) as E.
      unfold aligned in Hal. rewrite E in Hal. exact Hal. }
    subst c. simpl in *. auto.
  - exfalso. rewrite Ht in Hn.
    assert (Hx : indexOf_nl (l ++ 10 :: rest) = None).
    { clear - Hn. induction c as [|a c IH]; [exact Hn|].
      simpl in Hn. destruct (a =? 10); [discriminate|].
      destruct (indexOf_nl (c ++ l ++ 10 :: rest)); [discriminate|].
      apply IH. reflexivity. }
    rewrite indexOf_nl_first_line in Hx by exact Hl. discriminate Hx.
Qed.

Lemma stalled_loop (chunks : list (list byte)) (s : session) :
  stalled JSON_parse s ->
  stalled JSON_parse (fold_left (on_chunk JSON_parse) chunks s) /\
  deltas (fold_left (on_chunk JSON_parse) chunks s) = deltas s /\
  result (fold_left (on_chunk JSON_parse) chunks s) = result s /\
  analysis (fold_left (on_chunk JSON_parse) chunks s) = analysis s.
Proof.
  revert s. induction chunks as [|value chunks IH]; intros s H; simpl; [auto|].
  destruct (stalled_on_chunk s value H) as (H1 & Hd & Hr & Ha).
  destruct (IH _ H1) as (H2 & Hd2 & Hr2 & Ha2).
  split; [exact H2|]. rewrite Hd2, Hr2, Ha2. auto.
Qed.

(** X3. A whole line that does not parse stalls the decoder for good:
    once the chunks read so far leave such a line at the head of the
    buffer, whatever chunks arrive afterwards, the line is tried again,
    fails again and is put back, so that no later frame is ever decoded
    and [result] and [analysis] never change. *)
Theorem malformed_line_stalls_decoder (before later : list (list byte)) :
  stalled JSON_parse (read_all JSON_parse before) ->
  stalled JSON_parse (read_all JSON_parse (before ++ later)) /\
  deltas (read_all JSON_parse (before ++ later)) = deltas (read_all JSON_parse before) /\
  result (read_all JSON_parse (before ++ later)) = result (read_all JSON_parse before) /\
  analysis (read_all JSON_parse (before ++ later))
    = analysis (read_all JSON_parse before).
Proof.
  intros H. unfold read_all in *. rewrite fold_left_app.
  apply stalled_loop. exact H.
Qed.

(** The texts appended only grow. *)
Lemma deltas_grow (chunks : list (list byte)) (s : session) :
  exists more, deltas (fold_left (on_chunk JSON_parse) chunks s) = deltas s ++ more.
Proof.
  revert s. induction chunks as [|value chunks IH]; intros s; simpl.
  - exists []. rewrite app_nil_r. reflexivity.
  - destruct (IH (on_chunk JSON_parse s value)) as [more Hm].
    assert (H1 : exists m1, deltas (on_chunk JSON_parse s value) = deltas s ++ m1).
    { rewrite on_chunk_eq. cbv zeta.
      match goal with |- context [drain JSON_parse ?f ?s1] =>
        destruct (drain_any f s1 (le_n _))
          as [(c & (_ & _ & Hd & _) & _) | (c & l & r & (_ & _ & _ & _ & Hd & _) & _)]
      end; rewrite Hd; eexists; reflexivity. }
    destruct H1 as [m1 H1]. exists (m1 ++ more).
    rewrite Hm, H1, app_assoc. reflexivity.
Qed.

(** The report shown only grows, by text added at its end. *)
Lemma analysis_grows (before later : list (list byte)) :
  exists more,
    analysis (read_all JSON_parse (before ++ later))
    = analysis (read_all JSON_parse before) ++ more.
Proof.
  destruct (read_loop_accumulates JSON_parse (before ++ later) start eq_refl eq_refl)
    as [Hr2 Ha2].
  destruct (read_loop_accumulates JSON_parse before start eq_refl eq_refl)
    as [Hr1 Ha1].
  fold (read_all JSON_parse (before ++ later)) in Hr2, Ha2.
  fold (read_all JSON_parse before) in Hr1, Ha1.
  destruct (deltas_grow later (read_all JSON_parse before)) as [more Hm].
  exists (List.concat more).
  rewrite Ha2, Hr2, Ha1, Hr1. unfold read_all at 1. rewrite fold_left_app.
  fold (read_all JSON_parse before). rewrite Hm, concat_app. reflexivity.
Qed.

End Loop.

(** X4. A carriage return before the newline is ignored: a line reads
    the same with and without it, so that a stream with CRLF line ends is
    decoded as the same stream with LF line ends. *)
Theorem carriage_return_is_ignored
    (JSON_parse : jsstring -> option jsvalue) (l : jsstring) :
  classify JSON_parse (l ++ [13]) = classify JSON_parse l.
Proof.
  assert (Hcr : forall x, strip_cr (x ++ [13]) = x).
  { intros x. unfold strip_cr, endsWith_cr. rewrite rev_app_distr. simpl.
    rewrite removelast_last. reflexivity. }
  unfold classify. cbv zeta. rewrite Hcr.
  destruct (endsWith_cr l) eqn:E.
  2:{ unfold strip_cr. rewrite E. reflexivity. }
  apply endsWith_cr_snoc in E. revert E. generalize (removelast l). intros l' ->.
  rewrite Hcr.
  destruct (startsWith data_prefix (l' ++ [13])) eqn:Ep.
  - assert (Hlen : (6 <= List.length l')%nat).
    { pose proof (startsWith_length _ _ Ep) as Hl.
      change (List.length data_prefix) with 6%nat in Hl.
      rewrite length_app in Hl. simpl in Hl.
      destruct (Nat.eq_dec (List.length l') 5) as [H5|H5]; [|lia].
      exfalso. apply startsWith_split in Ep. destruct Ep as [t Ep].
      destruct l' as [|c1 [|c2 [|c3 [|c4 [|c5 [|c6 t']]]]]]; try discriminate H5.
      discriminate Ep. }
    rewrite startsWith_snoc in Ep by exact Hlen. rewrite Ep.
    simpl negb. cbv iota.
    rewrite skipn_snoc by exact Hlen.
    rewrite trim_snoc_space by reflexivity. reflexivity.
  - assert (Ep' : startsWith data_prefix l' = false).
    { destruct (startsWith data_prefix l') eqn:E'; [|reflexivity].
      apply startsWith_split in E'. destruct E' as [t E'].
      rewrite E', <- app_assoc, AggregatorFacts.startsWith_app in Ep. discriminate Ep. }
    rewrite Ep'. reflexivity.
Qed.

(** X5. A record that is valid JSON can stall the decoder as well: the
    payload [null] parses, reading [choices] of it throws, and the
    [catch] takes the line for a record cut short.  After such a line
    nothing is decoded, whatever follows. *)
Theorem null_record_stalls_the_stream (later : list (list byte)) :
  classify parse (js "data: null") = Malformed /\
  stalled parse (read_all parse (line "data: null" :: later)) /\
  deltas (read_all parse (line "data: null" :: later)) = [].
Proof.
  split; [vm_compute; reflexivity|].
  assert (Hs : stalled parse (read_all parse [line "data: null"])).
  { exists (js "data: null"), []. split; [vm_compute; reflexivity|].
    split; vm_compute; reflexivity. }
  change (line "data: null" :: later) with ([line "data: null"] ++ later).
  unfold read_all in *. rewrite fold_left_app.
  destruct (stalled_loop parse later _ Hs) as (H1 & H2 & _).
  split; [exact H1|]. rewrite H2. vm_compute. reflexivity.
Qed.

(** *** The theorems on a stream *)

Lemma stalled_session_is_stalled : stalled parse stalled_session.
Proof.
  exists (jsq "data: {'choices':[{'delta':"), [].
  split; [vm_compute; reflexivity|]. split; vm_compute; reflexivity.
Defined.

Lemma malformed_line_stalls_decoder_witness :
  let later := [line "data: {'choices':[{'delta':{'content':'late'}}]}"] in
  stalled parse stalled_session /\
  deltas (fold_left (on_chunk parse) later stalled_session) = [].
Proof.
  intros later. split; [exact stalled_session_is_stalled|].
  destruct (malformed_line_stalls_decoder parse
              [line "data: {'choices':[{'delta':"] later
              stalled_session_is_stalled) as (_ & Hd & _).
  unfold read_all in Hd. rewrite fold_left_app in Hd.
  fold (read_all parse [line "data: {'choices':[{'delta':"]) in Hd.
  fold stalled_session in Hd. rewrite Hd. vm_compute. reflexivity.
Defined.

Lemma unterminated_line_is_dropped_witness :
  let chunks := [bytes_of "data: {'choices':[{'delta':{'content':'He'}}]}"] in
  indexOf_nl (stream_text (List.concat chunks)) = None /\
  deltas (read_all parse chunks) = [].
Proof.
  intros chunks.
  assert (H : indexOf_nl (stream_text (List.concat chunks)) = None)
    by (vm_compute; reflexivity).
  split; [exact H|].
  exact (proj1 (unterminated_line_is_dropped parse chunks H)).
Defined.

Lemma drain_fuel_witness :
  let s := with_buffer start (js "data: [DONE]" ++ [10]) in
  drain parse 100 s = drain parse 13 s.
Proof.
  intros s. apply (drain_fuel parse 100 13 s); vm_compute; lia.
Defined.

End StallFacts.

(** ** The outline of a report *)

Module OutlineFacts.
Import Js Value Segmenter SegmenterFacts Aggregator Outline StallFacts.

Lemma close_lines (c : open_section) (more : list jsstring) :
  close {| cur_icon := cur_icon c; cur_title := cur_title c;
           cur_lines := cur_lines c ++ more |} =
  {| icon := cur_icon c; title := cur_title c;
     content := trim (join [10] (cur_lines c ++ more)) |}.
Proof. reflexivity. Qed.

Lemma step_heading (st : locals) (l m : jsstring) :
  h2Match l = Some m ->
  step st l =
  {| sections := push_current st;
     current := Some {| cur_icon := icon_for (trim m); cur_title := trim m;
                        cur_lines := [] |} |}.
Proof. intros H. unfold step. rewrite H. reflexivity. Qed.

Lemma step_body (ss : list section) (c : open_section) (l : jsstring) :
  h2Match l = None ->
  step {| sections := ss; current := Some c |} l =
  {| sections := ss;
     current := Some {| cur_icon := cur_icon c; cur_title := cur_title c;
                        cur_lines := cur_lines c ++ [l] |} |}.
Proof. intros H. unfold step. rewrite H. reflexivity. Qed.

(** The loop once a heading has been seen. *)
Lemma loop_after_heading (lines : list jsstring) :
  forall (ss : list section) (c : open_section),
    push_current (fold_left step lines {| sections := ss; current := Some c |}) =
    ss ++ {| icon := cur_icon c; title := cur_title c;
             content := trim (join [10] (cur_lines c ++ fst (outline lines))) |}
       :: map titled (snd (outline lines)).
Proof.
  induction lines as [|l lines IH]; intros ss c.
  - simpl. unfold push_current, close. simpl. rewrite app_nil_r. reflexivity.
  - simpl fold_left. simpl outline.
    destruct (outline lines) as [pre gs] eqn:Eo.
    destruct (h2Match l) as [m|] eqn:Em.
    + rewrite (step_heading _ _ _ Em), IH. unfold push_current. simpl.
      rewrite <- app_assoc. simpl. rewrite app_nil_r. reflexivity.
    + rewrite (step_body _ _ _ Em), IH. simpl.
      rewrite <- app_assoc. reflexivity.
Qed.

(** The loop from a state in which no heading has been seen. *)
Lemma loop_outline (lines : list jsstring) :
  forall acc : jsstring,
    push_current
      (fold_left step lines {| sections := preamble_sections acc; current := None |}) =
    preamble_sections (acc ++ preamble_text (fst (outline lines)))
      ++ map titled (snd (outline lines)).
Proof.
  induction lines as [|l lines IH]; intros acc.
  - simpl. unfold preamble_text. simpl. rewrite !app_nil_r. reflexivity.
  - simpl fold_left. simpl outline.
    destruct (outline lines) as [pre gs] eqn:Eo.
    destruct (h2Match l) as [m|] eqn:Em.
    + rewrite (step_heading _ _ _ Em), loop_after_heading, Eo.
      unfold push_current. simpl.
      unfold preamble_text. simpl. rewrite app_nil_r. reflexivity.
    + rewrite step_before_heading by exact Em.
      rewrite IH. simpl. rewrite preamble_text_cons, app_assoc. reflexivity.
Qed.

(** X6. [parseSections] computes the outline of the text: one section
    without title for the lines before the first heading that are not
    blank (none when they are all blank), then one section for every
    heading line, in order; its title is the trimmed capture group, its
    icon the one of the title, and its content the lines up to the next
    heading, joined with newlines and trimmed. *)
Theorem parseSections_outline (md : jsstring) :
  parseSections md =
  preamble_sections (preamble_text (fst (outline (split_nl md))))
    ++ map titled (snd (outline (split_nl md))).
Proof.
  unfold parseSections.
  change {| sections := []; current := None |}
    with {| sections := preamble_sections []; current := None |}.
  rewrite loop_outline. reflexivity.
Qed.

(** *** The heading pattern *)

Lemma backtrack_some {A : Type} (f : nat -> option A) (k : nat) (r : A) :
  backtrack f k = Some r -> exists i, (i <= k)%nat /\ f i = Some r.
Proof.
  induction k as [|k IH]; simpl.
  - destruct (f O) eqn:E; [|discriminate]. intros H. injection H as <-.
    exists O. auto.
  - destruct (f (S k)) eqn:E.
    + intros H. injection H as <-. exists (S k). auto.
    + intros H. destruct (IH H) as (i & Hi & Hf). exists i. split; [lia | exact Hf].
Qed.

Lemma backtrack_first {A : Type} (f : nat -> option A) (k : nat) (r : A) :
  f k = Some r -> backtrack f k = Some r.
Proof. intros H. destruct k; simpl; rewrite H; reflexivity. Qed.

Lemma space_run_spaces (s : jsstring) (i : nat) :
  (i <= space_run s)%nat -> spaces (firstn i s) /\ List.length (firstn i s) = i.
Proof.
  revert i. induction s as [|c s IH]; intros i H; simpl in H.
  - replace i with O by lia. split; [constructor | reflexivity].
  - destruct i as [|i]; [split; [constructor | reflexivity]|].
    destruct (is_space c) eqn:E; [|lia].
    destruct (IH i) as [H1 H2]; [lia|].
    simpl. split; [constructor; assumption | f_equal; exact H2].
Qed.

Lemma space_run_app (s t : jsstring) :
  spaces s ->
  match t with [] => True | c :: _ => is_space c = false end ->
  space_run (s ++ t) = List.length s.
Proof.
  intros Hs Ht. induction Hs as [|c s Hc Hs IH]; simpl.
  - destruct t as [|c t]; [reflexivity|]. simpl. rewrite Ht. reflexivity.
  - rewrite Hc, IH. reflexivity.
Qed.

Lemma dot_run_span (s : jsstring) :
  exists rest, s = dot_run s ++ rest /\
    Forall (fun c => is_line_terminator c = false) (dot_run s) /\
    match rest with [] => True | c :: _ => is_line_terminator c = true end.
Proof.
  induction s as [|c s (rest & H1 & H2 & H3)]; simpl.
  - exists []. repeat split. constructor.
  - destruct (is_line_terminator c) eqn:E.
    + exists (c :: s). repeat split; [constructor | exact E].
    + exists rest. repeat split; auto.
      simpl. f_equal. exact H1.
Qed.

Lemma dot_plus_span (s m : jsstring) :
  dot_plus s = Some m -> exists rest, s = m ++ rest /\ dot_span m rest.
Proof.
  unfold dot_plus. destruct (dot_run_span s) as (rest & H1 & H2 & H3).
  destruct (dot_run s) as [|c run] eqn:E; [discriminate|].
  intros H. injection H as <-. exists rest.
  split; [exact H1|]. split; [discriminate|]. split; assumption.
Qed.

Lemma dot_run_app (m rest : jsstring) :
  Forall (fun c => is_line_terminator c = false) m ->
  match rest with [] => True | c :: _ => is_line_terminator c = true end ->
  dot_run (m ++ rest) = m.
Proof.
  intros Hm Hr. induction Hm as [|c m Hc Hm IH]; simpl.
  - destruct rest as [|c rest]; [reflexivity|]. simpl. rewrite Hr. reflexivity.
  - rewrite Hc, IH. reflexivity.
Qed.

Lemma dot_plus_app (m rest : jsstring) :
  dot_span m rest -> dot_plus (m ++ rest) = Some m.
Proof.
  intros (Hne & Hm & Hr). unfold dot_plus. rewrite dot_run_app by assumption.
  destruct m; [contradiction | reflexivity].
Qed.

Lemma after_symbol_some (s rest : jsstring) :
  after_symbol s = Some rest -> exists hi lo, symbol hi lo /\ s = hi :: lo :: rest.
Proof.
  unfold after_symbol. destruct s as [|hi [|lo r]]; try discriminate.
  destruct (between 0xD83C 0xD83F hi && between 0xDC00 0xDFFF lo) eqn:E; [|discriminate].
  intros H. injection H as <-. apply andb_true_iff in E.
  exists hi, lo. split; [exact E | reflexivity].
Qed.

Lemma title_part_some (s m : jsstring) :
  title_part s = Some m ->
  exists g rest, s = g ++ m ++ rest /\ dot_span m rest /\
    (g = [] \/ exists hi lo s2, symbol hi lo /\ spaces s2 /\ g = hi :: lo :: s2).
Proof.
  unfold title_part.
  destruct (after_symbol s) as [r|] eqn:Ea.
  - destruct (backtrack (fun j => dot_plus (skipn j r)) (space_run r)) as [m'|] eqn:Eb.
    + intros H. injection H as <-.
      destruct (after_symbol_some _ _ Ea) as (hi & lo & Hs & ->).
      destruct (backtrack_some _ _ _ Eb) as (j & Hj & Hd).
      destruct (dot_plus_span _ _ Hd) as (rest & Hsk & Hspan).
      destruct (space_run_spaces r j Hj) as [Hsp _].
      exists (hi :: lo :: firstn j r), rest. split; [|split].
      * simpl. f_equal. f_equal. rewrite <- Hsk. symmetry. apply firstn_skipn.
      * exact Hspan.
      * right. exists hi, lo, (firstn j r). auto.
    + intros H. destruct (dot_plus_span _ _ H) as (rest & Hs & Hspan).
      exists [], rest. auto.
  - intros H. destruct (dot_plus_span _ _ H) as (rest & Hs & Hspan).
    exists [], rest. auto.
Qed.

(** X7. Only a line that begins with two number signs and a white-space
    character is a heading, and what the pattern captures is the run of
    characters, up to the first line terminator or to the end of the
    line, that follows the white space and, when there is one, the symbol
    of U+1F000..U+1FFFF with the white space after it. *)
Theorem heading_line_shape (line m : jsstring) :
  h2Match line = Some m ->
  exists g rest,
    line = js "##" ++ g ++ m ++ rest /\ heading_gap g /\ dot_span m rest.
Proof.
  unfold h2Match.
  destruct (startsWith (js "##") line) eqn:Ep; [|discriminate].
  change (js "##") with [35; 35] in *.
  apply startsWith_split in Ep. destruct Ep as [r ->].
  change (skipn 2 ([35; 35] ++ r)) with r.
  destruct (space_run r) as [|k] eqn:Ek; [discriminate|].
  intros H. destruct (backtrack_some _ _ _ H) as (i & Hi & Ht).
  destruct (title_part_some _ _ Ht) as (g & rest & Hs & Hspan & Hg).
  destruct (space_run_spaces r (S i)) as [Hsp Hlen]; [lia|].
  exists (firstn (S i) r ++ g), rest. split; [|split].
  - rewrite <- app_assoc, <- Hs, firstn_skipn. reflexivity.
  - exists (firstn (S i) r). split; [|split].
    + intros E. rewrite E in Hlen. discriminate Hlen.
    + exact Hsp.
    + destruct Hg as [-> | (hi & lo & s2 & Hsym & Hs2 & ->)].
      * left. apply app_nil_r.
      * right. exists hi, lo, s2. auto.
  - exact Hspan.
Qed.

Lemma skipn_length_app {A : Type} (a b : list A) : skipn (List.length a) (a ++ b) = b.
Proof. induction a; simpl; auto. Qed.

Lemma symbol_not_space (hi lo : N) : symbol hi lo -> is_space hi = false.
Proof.
  intros [H _]. unfold between in H. apply andb_true_iff in H. destruct H as [H1 H2].
  apply N.leb_le in H1, H2.
  apply not_true_is_false. unfold is_space, between. intros Hs.
  repeat (apply orb_prop in Hs; destruct Hs as [Hs|Hs]);
    try (apply andb_true_iff in Hs; destruct Hs as [Hs Hs']; apply N.leb_le in Hs, Hs');
    try apply N.eqb_eq in Hs; lia.
Qed.

(** X8. A heading written as the pattern expects is recognised and its
    text captured whole: two number signs, white space, optionally one
    symbol of U+1F000..U+1FFFF and white space, then a text that does not
    begin with white space and runs to the end of the line or to a line
    terminator. *)
Theorem heading_capture (s1 t rest : jsstring) :
  s1 <> [] -> spaces s1 -> dot_span t rest ->
  match t with c :: _ => is_space c = false | [] => True end ->
  (after_symbol (t ++ rest) = None ->
   h2Match (js "##" ++ s1 ++ t ++ rest) = Some t) /\
  (forall hi lo s2, symbol hi lo -> spaces s2 ->
   h2Match (js "##" ++ s1 ++ hi :: lo :: s2 ++ t ++ rest) = Some t).
Proof.
  intros Hne Hs1 Hspan Hhead.
  assert (Hhead' : match t ++ rest with c :: _ => is_space c = false | [] => True end).
  { destruct Hspan as (Ht & _). destruct t; [contradiction | exact Hhead]. }
  destruct s1 as [|c s1']; [contradiction|]. clear Hne.
  set (s1 := c :: s1') in *.
  assert (Hlen : List.length s1 = S (List.length s1')) by reflexivity.
  change (js "##") with [35; 35].
  split.
  - intros Ha. unfold h2Match.
    change (startsWith (js "##") ([35; 35] ++ s1 ++ t ++ rest)) with true.
    cbv iota. change (skipn 2 ([35; 35] ++ s1 ++ t ++ rest)) with (s1 ++ t ++ rest).
    cbv zeta. rewrite space_run_app, Hlen by assumption.
    apply backtrack_first. rewrite <- Hlen, skipn_length_app.
    unfold title_part. rewrite Ha. apply dot_plus_app. exact Hspan.
  - intros hi lo s2 Hsym Hs2. unfold h2Match.
    change (startsWith (js "##") ([35; 35] ++ s1 ++ hi :: lo :: s2 ++ t ++ rest)) with true.
    cbv iota.
    change (skipn 2 ([35; 35] ++ s1 ++ hi :: lo :: s2 ++ t ++ rest))
      with (s1 ++ hi :: lo :: s2 ++ t ++ rest).
    cbv zeta. rewrite space_run_app, Hlen;
      [| exact Hs1 | exact (symbol_not_space hi lo Hsym)].
    apply backtrack_first. rewrite <- Hlen, skipn_length_app.
    unfold title_part, after_symbol.
    destruct Hsym as [Hhi Hlo]. rewrite Hhi, Hlo. simpl andb. cbv iota.
    rewrite space_run_app by assumption.
    rewrite (backtrack_first _ _ t); [reflexivity|].
    rewrite skipn_length_app. apply dot_plus_app. exact Hspan.
Qed.

(** *** A report that grows *)

Lemma backtrack_exists {A : Type} (f : nat -> option A) (k i : nat) :
  (i <= k)%nat -> f i <> None -> backtrack f k <> None.
Proof.
  induction k as [|k IH]; intros Hi Hf; simpl.
  - replace i with O in Hf by lia. destruct (f O); [discriminate | exact Hf].
  - destruct (f (S k)) eqn:E; [discriminate|].
    destruct (Nat.eq_dec i (S k)) as [->|Hne]; [contradiction|].
    apply IH; [lia | exact Hf].
Qed.

Lemma title_part_none (s : jsstring) : title_part s = None -> dot_plus s = None.
Proof.
  unfold title_part. destruct (after_symbol s) as [r|].
  - destruct (backtrack _ (space_run r)); [discriminate | auto].
  - auto.
Qed.

Lemma dot_plus_extends (s y : jsstring) :
  dot_plus s <> None -> dot_plus (s ++ y) <> None.
Proof.
  unfold dot_plus. destruct s as [|c s]; simpl; [contradiction|].
  destruct (is_line_terminator c); [contradiction | discriminate].
Qed.

Lemma title_part_extends (s y : jsstring) :
  title_part s <> None -> title_part (s ++ y) <> None.
Proof.
  intros H Hn. apply title_part_none in Hn.
  assert (Hd : dot_plus s <> None).
  { intros Hd. apply H. unfold title_part.
    destruct (after_symbol s) as [r|] eqn:Ea; [|exact Hd].
    destruct (backtrack _ (space_run r)) as [m|] eqn:Eb; [|exact Hd].
    exfalso. destruct (after_symbol_some _ _ Ea) as (hi & lo & Hsym & ->).
    unfold dot_plus in Hd. simpl in Hd.
    assert (Ht : is_line_terminator hi = false).
    { destruct Hsym as [Hhi _]. unfold between in Hhi.
      apply andb_true_iff in Hhi. destruct Hhi as [H1 H2]. apply N.leb_le in H1, H2.
      apply not_true_is_false. unfold is_line_terminator. intros Hs.
      repeat (apply orb_prop in Hs; destruct Hs as [Hs|Hs]);
        apply N.eqb_eq in Hs; lia. }
    rewrite Ht in Hd. discriminate Hd. }
  exact (dot_plus_extends s y Hd Hn).
Qed.

Lemma space_run_length (s : jsstring) : (space_run s <= List.length s)%nat.
Proof.
  induction s as [|c s IH]; simpl; [lia|]. destruct (is_space c); simpl; lia.
Qed.

Lemma space_run_extends (s y : jsstring) : (space_run s <= space_run (s ++ y))%nat.
Proof.
  induction s as [|c s IH]; simpl; [lia|]. destruct (is_space c); lia.
Qed.

(** A heading line is still a heading when more text is added to it. *)
Lemma h2Match_extends (x y : jsstring) :
  h2Match x <> None -> h2Match (x ++ y) <> None.
Proof.
  unfold h2Match.
  destruct (startsWith (js "##") x) eqn:Ep; [|contradiction].
  change (js "##") with [35; 35] in *.
  apply startsWith_split in Ep. destruct Ep as [r ->].
  rewrite <- app_assoc.
  change (startsWith [35; 35] ([35; 35] ++ r ++ y)) with true. cbv iota.
  change (skipn 2 ([35; 35] ++ r)) with r.
  change (skipn 2 ([35; 35] ++ r ++ y)) with (r ++ y). cbv zeta.
  destruct (space_run r) as [|k] eqn:Ek; [contradiction|].
  pose proof (space_run_extends r y) as Hle.
  pose proof (space_run_length r) as Hlen.
  destruct (space_run (r ++ y)) as [|k'] eqn:Ek'; [lia|].
  intros H.
  destruct (backtrack (fun i => title_part (skipn (S i) r)) k) as [m|] eqn:Eb;
    [|contradiction].
  destruct (backtrack_some _ _ _ Eb) as (i & Hi & Ht).
  apply (backtrack_exists _ k' i); [lia|].
  rewrite skipn_app. replace (S i - List.length r)%nat with O by lia.
  apply title_part_extends. rewrite Ht. discriminate.
Qed.

Lemma split_nl_last (a : jsstring) :
  exists L x, split_nl a = L ++ [x] /\
    forall b, exists y B, split_nl (a ++ b) = L ++ (x ++ y) :: B.
Proof.
  induction a as [|c a (L & x & Ha & Hb)].
  - exists [], []. split; [reflexivity|]. intros b. simpl.
    destruct b as [|c b]; [exists [], []; reflexivity|].
    simpl. destruct (c =? 10); [eexists; eexists; reflexivity|].
    destruct (split_nl b); eexists; eexists; reflexivity.
  - simpl. destruct (c =? 10).
    + exists ([] :: L), x. split; [rewrite Ha; reflexivity|].
      intros b. destruct (Hb b) as (y & B & E). exists y, B. rewrite E. reflexivity.
    + destruct L as [|l L].
      * exists [], (c :: x). split; [rewrite Ha; reflexivity|].
        intros b. destruct (Hb b) as (y & B & E). exists y, B. rewrite E. reflexivity.
      * exists ((c :: l) :: L), x. split; [rewrite Ha; reflexivity|].
        intros b. destruct (Hb b) as (y & B & E). exists y, B. rewrite E. reflexivity.
Qed.

Lemma reachable_step (st : locals) (l : jsstring) :
  reachable st -> reachable (step st l).
Proof.
  intros H. destruct (h2Match l) as [m|] eqn:Em.
  - rewrite (step_heading _ _ _ Em). exact I.
  - destruct st as [ss [c|]].
    + rewrite (step_body _ _ _ Em). exact I.
    + destruct H as [acc H]. simpl in H. subst ss.
      rewrite (step_before_heading _ _ Em). eexists. reflexivity.
Qed.

Lemma finished_step (st : locals) (l : jsstring) :
  reachable st -> exists more, finished (step st l) = finished st ++ more.
Proof.
  intros H. destruct (h2Match l) as [m|] eqn:Em.
  - rewrite (step_heading _ _ _ Em). unfold finished, push_current. simpl.
    destruct (current st) as [c|]; eexists; reflexivity.
  - destruct st as [ss [c|]].
    + rewrite (step_body _ _ _ Em). exists []. simpl. rewrite app_nil_r. reflexivity.
    + destruct H as [acc H]. simpl in H. subst ss.
      rewrite (step_before_heading _ _ Em). exists []. reflexivity.
Qed.

Lemma finished_loop (lines : list jsstring) (st : locals) :
  reachable st ->
  reachable (fold_left step lines st) /\
  exists more, finished (fold_left step lines st) = finished st ++ more.
Proof.
  revert st. induction lines as [|l lines IH]; intros st H; simpl.
  - split; [exact H|]. exists []. rewrite app_nil_r. reflexivity.
  - destruct (IH _ (reachable_step st l H)) as [Hr [more Hm]].
    split; [exact Hr|].
    destruct (finished_step st l H) as [more' Hm'].
    exists (more' ++ more). rewrite Hm, Hm', app_assoc. reflexivity.
Qed.

Lemma finished_push (st : locals) :
  reachable st -> exists more, push_current st = finished st ++ more.
Proof.
  intros H. unfold push_current, finished.
  destruct (current st); eexists; reflexivity.
Qed.

Lemma removelast_push (st : locals) :
  reachable st -> removelast (push_current st) = finished st.
Proof.
  unfold reachable, push_current, finished.
  destruct (current st) as [c|].
  - intros _. apply removelast_last.
  - intros [acc ->]. destruct acc; reflexivity.
Qed.

(** When text is added at the end, every section but the last one is
    found again, unchanged and at the same place. *)
Lemma parseSections_grows (a b : jsstring) :
  exists more, parseSections (a ++ b) = removelast (parseSections a) ++ more.
Proof.
  destruct (split_nl_last a) as (L & x & Ha & Hb).
  destruct (Hb b) as (y & B & Hab).
  unfold parseSections. rewrite Ha, Hab, !fold_left_app. simpl fold_left.
  set (init := {| sections := []; current := None |}).
  assert (Hinit : reachable init) by (exists []; reflexivity).
  destruct (finished_loop L init Hinit) as [Hst _].
  set (st := fold_left step L init) in *.
  rewrite removelast_push by (apply reachable_step; exact Hst).
  destruct (finished_loop B (step st (x ++ y)) (reachable_step _ _ Hst))
    as [Hr [more1 Hm1]].
  destruct (finished_push _ Hr) as [more2 Hm2].
  assert (Hx : exists more0, finished (step st (x ++ y)) = finished (step st x) ++ more0).
  { destruct (h2Match x) as [m|] eqn:Em.
    - destruct (h2Match (x ++ y)) as [m'|] eqn:Em'.
      + rewrite (step_heading _ _ _ Em), (step_heading _ _ _ Em').
        exists []. unfold finished. simpl. rewrite app_nil_r. reflexivity.
      + exfalso. apply (h2Match_extends x y); [rewrite Em; discriminate | exact Em'].
    - destruct (finished_step st (x ++ y) Hst) as [more0 Hm0].
      exists more0. rewrite Hm0. f_equal.
      destruct st as [ss [c|]].
      + rewrite (step_body _ _ _ Em). reflexivity.
      + destruct Hst as [acc Hacc]. simpl in Hacc. subst ss.
        rewrite (step_before_heading _ _ Em). reflexivity. }
  destruct Hx as [more0 Hm0].
  exists (more0 ++ more1 ++ more2).
  rewrite Hm2, Hm1, Hm0, <- !app_assoc. reflexivity.
Qed.

(** X9. While the report streams in, the sections that are finished
    stay as they are: whatever chunks arrive after the chunks read so
    far, every section but the last one of the sections shown so far is
    shown again, unchanged and at the same place. *)
Theorem finished_sections_are_stable
    (JSON_parse : jsstring -> option jsvalue) (before later : list (list byte)) :
  exists more,
    parseSections (Decoder.analysis (Decoder.read_all JSON_parse (before ++ later)))
    = removelast
        (parseSections (Decoder.analysis (Decoder.read_all JSON_parse before)))
      ++ more.
Proof.
  destruct (StallFacts.analysis_grows JSON_parse before later) as [text ->].
  apply parseSections_grows.
Qed.

(** X10. The headings that the system prompt prescribes are the headings
    that the page knows: each of the seven is a heading line for the
    segmenter and gets the icon of the table, in the order of the table.
    The titles are what follows the first symbol of U+1F000..U+1FFFF: a
    variation selector, or a symbol outside that range, stays in the
    title. *)
Theorem prompt_headings_find_their_icons :
  map (fun h => option_map (fun m => icon_for (trim m)) (h2Match h))
      prescribed_headings
    = map (fun e => Some (snd e)) sectionIcons /\
  map title (parseSections (join [10] prescribed_headings))
    = [ 0xFE0F :: js " Project Overview";
        js "⚙️ Tech Stack Analysis";
        js "Architecture Pattern";
        js "Repository Health Score: X/100";
        js "Good First Issues";
        js "Contribution Difficulty: [Easy/Medium/Hard]";
        js "Open Source Onboarding Plan" ].
Proof. split; vm_compute; reflexivity. Qed.

(** *** The theorems on a heading *)

Lemma heading_line_shape_witness :
  h2Match (js "## 🚀 Plan") = Some (js "Plan") /\
  exists g rest,
    js "## 🚀 Plan" = js "##" ++ g ++ js "Plan" ++ rest /\
    heading_gap g /\ dot_span (js "Plan") rest.
Proof.
  assert (H : h2Match (js "## 🚀 Plan") = Some (js "Plan")) by (vm_compute; reflexivity).
  split; [exact H|].
  exact (heading_line_shape _ _ H).
Defined.

Lemma heading_capture_witness :
  h2Match (js "##" ++ [32] ++ js "Plan" ++ []) = Some (js "Plan").
Proof.
  apply (heading_capture [32] (js "Plan") []).
  - discriminate.
  - repeat constructor.
  - split; [discriminate|]. split; [|exact I]. repeat constructor.
  - reflexivity.
  - reflexivity.
Defined.

End OutlineFacts.

(** ** The answers of the edge function *)

Module AnswersFacts.
Import Js Value Aggregator AggregatorFacts Answers.

#[local] Arguments js : simpl never.
#[local] Arguments jsq : simpl never.
#[local] Arguments decimal : simpl never.
#[local] Arguments N.to_nat : simpl never.
#[local] Arguments firstn : simpl never.

Lemma yields_ret {A : Type} (P : A -> Prop) (a : A) : P a -> yields P (ret a).
Proof. intros H. exact H. Qed.

Lemma yields_throw {A : Type} (P : A -> Prop) (e : jsstring) : yields P (@throw A e).
Proof. exact I. Qed.

Lemma yields_bind {A B : Type} (Q : A -> Prop) (P : B -> Prop) (m : M A) (k : A -> M B) :
  yields Q m -> (forall a, Q a -> yields P (k a)) -> yields P (bind m k).
Proof.
  unfold yields, bind. intros Hm Hk. destruct m as [[e|a] t]; simpl in *; [exact I|].
  specialize (Hk a Hm). destruct (k a) as [r t']. exact Hk.
Qed.

Lemma yields_any {A : Type} (m : M A) : yields (fun _ => True) m.
Proof. unfold yields. destruct (fst m); exact I. Qed.

Lemma yields_then {A B : Type} (P : B -> Prop) (m : M A) (k : A -> M B) :
  (forall a, yields P (k a)) -> yields P (bind m k).
Proof. intros H. apply (yields_bind (fun _ => True)); [apply yields_any | auto]. Qed.

Lemma yields_try_catch {A : Type} (P : A -> Prop) (m : M A) (fallback : A) :
  yields P m -> P fallback -> yields P (try_catch m fallback).
Proof.
  unfold yields, try_catch. destruct m as [[e|a] t]; simpl; auto.
Qed.

Lemma yields_weaken {A : Type} (Q P : A -> Prop) (m : M A) :
  yields Q m -> (forall a, Q a -> P a) -> yields P m.
Proof. unfold yields. destruct (fst m); auto. Qed.

Lemma yields_fst {A : Type} (P : A -> Prop) (m : M A) (a : A) :
  yields P m -> fst m = inr a -> P a.
Proof. unfold yields. intros H E. rewrite E in H. exact H. Qed.

Lemma github_calls_app (t u : list event) :
  github_calls (t ++ u) = github_calls t ++ github_calls u.
Proof. unfold github_calls. apply flat_map_app. Qed.

Section World.

Variable w : world.

Lemma prepare_yields (req : request) :
  yields (fun p => match p with
                   | inl early =>
                       exists code message,
                         In code [400; 404] /\ early = error_response code message
                   | inr greq => request_shape w greq
                   end) (prepare w req).
Proof.
  unfold prepare.
  apply yields_then. intros body.
  apply yields_then. intros owner.
  apply yields_then. intros repo.
  destruct (negb (ToBoolean owner) || negb (ToBoolean repo)).
  { apply yields_ret. exists 400, (js "Please provide owner and repo").
    split; [left; reflexivity | reflexivity]. }
  apply yields_then. intros _.
  destruct (env_LOVABLE_API_KEY w) as [[|c key]|] eqn:Ek;
    [apply yields_throw | | apply yields_throw].
  apply yields_then. intros readme.
  apply yields_then. intros issues.
  apply yields_then. intros [st|].
  - apply yields_then. intros user. apply yields_ret.
    split; [reflexivity|]. split; [reflexivity|]. split; [reflexivity|].
    exists (c :: key). split; [|reflexivity].
    split; [exact Ek | discriminate].
  - apply yields_then. intros message. apply yields_ret.
    exists 404, message. split; [right; left; reflexivity | reflexivity].
Qed.

Lemma relay_yields (res : gateway_response) :
  yields (fun r =>
            r = {| status := 200;
                   headers := corsHeaders ++ [(js "Content-Type", js "text/event-stream")];
                   payload := BodyStream (gw_body res) |} \/
            exists code message,
              In code [402; 429; 500] /\ r = error_response code message)
         (relay res).
Proof.
  unfold relay.
  destruct (negb (ok (gw_status res))); [|apply yields_ret; left; reflexivity].
  destruct (gw_status res =? 429).
  { apply yields_ret. right. eexists. eexists. split; [|reflexivity]. simpl. auto. }
  destruct (gw_status res =? 402).
  { apply yields_ret. right. eexists. eexists. split; [|reflexivity]. simpl. auto. }
  apply yields_then. intros t. apply yields_then. intros _.
  apply yields_ret. right. eexists. eexists. split; [|reflexivity]. simpl. auto.
Qed.

Lemma serve_try_yields (req : request) : yields response_shape (serve_try w req).
Proof.
  unfold serve_try.
  apply (yields_bind _ _ _ _ (prepare_yields req)).
  intros [early|greq] H.
  - apply yields_ret. destruct H as (code & message & Hc & ->).
    right. right. exists code, message. split; [|reflexivity].
    simpl in *. intuition.
  - apply yields_then. intros _. apply yields_then. intros res.
    apply (yields_weaken _ _ _ (relay_yields res)).
    intros r [-> | (code & message & Hc & ->)].
    + right. left. eexists. reflexivity.
    + right. right. exists code, message. split; [|reflexivity].
      simpl in *. intuition.
Qed.

(** X11. Whatever the request and whatever the outside world does, the
    handler answers with one of three things: the empty answer to a
    preflight, the event stream of the gateway with status 200, or an
    error object [error_response] whose status is 400, 402, 404, 429 or
    500.  Every answer carries the CORS headers. *)
Theorem every_answer_has_a_shape (req : request) :
  response_shape (fst (serve w req)) /\
  exists more, headers (fst (serve w req)) = corsHeaders ++ more.
Proof.
  assert (H : response_shape (fst (serve w req))).
  { unfold serve.
    destruct (jsstring_eqb (method req) (js "OPTIONS")); [left; reflexivity|].
    pose proof (serve_try_yields req) as Hy. unfold yields in Hy.
    destruct (serve_try w req) as [[message|r] t]; simpl in *.
    - right. right. exists 500, message. split; [|reflexivity]. simpl. auto 10.
    - exact Hy. }
  split; [exact H|].
  destruct H as [-> | [[chunks ->] | (code & message & _ & ->)]].
  - exists []. symmetry. apply app_nil_r.
  - eexists. reflexivity.
  - eexists. reflexivity.
Qed.

(** *** The trace of the handler *)

Lemma logs_only (t : list event) :
  Forall logs t -> github_calls t = [] /\ gateway_calls t = O.
Proof.
  induction 1 as [|e t [args ->] _ [IH1 IH2]]; [split; reflexivity|].
  split; [exact IH1 | exact IH2].
Qed.

Lemma relay_logs (res : gateway_response) : only logs (relay res).
Proof.
  unfold relay.
  destruct (negb (ok (gw_status res))); [|apply only_ret].
  destruct (gw_status res =? 429); [apply only_ret|].
  destruct (gw_status res =? 402); [apply only_ret|].
  apply only_bind; [apply only_await|]. intros t.
  apply only_bind; [|intros _; apply only_ret].
  apply only_tell. eexists. reflexivity.
Qed.

(** After the request is prepared, the handler calls the gateway at
    most once, with the request prepared, and otherwise only logs. *)
Lemma serve_trace (req : request) :
  jsstring_eqb (method req) (js "OPTIONS") = false ->
  exists tail,
    snd (serve w req) = snd (prepare w req) ++ tail /\
    (Forall logs tail \/
     exists greq tail',
       fst (prepare w req) = inr (inr greq) /\
       tail = FetchGateway greq :: tail' /\ Forall logs tail').
Proof.
  intros Hm. unfold serve, serve_try. rewrite Hm.
  destruct (prepare w req) as [[e|[early|greq]] t]; simpl.
  - exists [ConsoleError [js "analyze-repo error:"; e]]. split; [reflexivity|].
    left. constructor; [eexists; reflexivity | constructor].
  - exists []. split; [reflexivity|]. left. constructor.
  - destruct (gateway w greq) as [e|res]; simpl.
    + exists [FetchGateway greq; ConsoleError [js "analyze-repo error:"; e]].
      split; [rewrite <- app_assoc; reflexivity|].
      right. exists greq, [ConsoleError [js "analyze-repo error:"; e]].
      split; [reflexivity|]. split; [reflexivity|].
      constructor; [eexists; reflexivity | constructor].
    + pose proof (relay_logs res) as Hl. unfold only in Hl.
      destruct (relay res) as [[e|r] t']; simpl in *.
      * exists (FetchGateway greq :: t' ++ [ConsoleError [js "analyze-repo error:"; e]]).
        split; [rewrite <- app_assoc; reflexivity|].
        right. eexists. eexists. split; [reflexivity|]. split; [reflexivity|].
        apply Forall_app. split; [exact Hl|].
        constructor; [eexists; reflexivity | constructor].
      * exists (FetchGateway greq :: t'). split; [reflexivity|].
        right. eexists. eexists. split; [reflexivity|]. split; [reflexivity | exact Hl].
Qed.

Lemma prepare_no_gateway (req : request) (greq : gateway_request) :
  ~ In (FetchGateway greq) (snd (prepare w req)).
Proof.
  pose proof (no_call_prepare w req) as H. unfold only in H.
  rewrite Forall_forall in H. intros Hin. specialize (H _ Hin). discriminate H.
Qed.

(** X12. The gateway is called last and at most once: in the trace of
    any request, no call to GitHub comes after a call to the gateway, and
    there is at most one call to the gateway. *)
Theorem gateway_is_called_last (req : request) :
  exists before after,
    snd (serve w req) = before ++ after /\
    gateway_calls before = O /\
    github_calls after = [] /\
    (gateway_calls after <= 1)%nat.
Proof.
  destruct (jsstring_eqb (method req) (js "OPTIONS")) eqn:Hm.
  - exists [], []. unfold serve. rewrite Hm. simpl. auto.
  - destruct (serve_trace req Hm) as (tail & Ht & Hc).
    exists (snd (prepare w req)), tail. split; [exact Ht|].
    split.
    { destruct (prepare w req) as [r t] eqn:Hp.
      exact (only_not_gateway _ _ _ (no_call_prepare w req) Hp). }
    destruct Hc as [Hl | (greq & tail' & _ & -> & Hl)];
      destruct (logs_only _ Hl) as [H1 H2].
    + rewrite H1, H2. auto.
    + split; [exact H1|].
      change (gateway_calls (FetchGateway greq :: tail'))
        with (S (gateway_calls tail')).
      rewrite H2. auto.
Qed.

(** X13. Nothing goes to the gateway without the credential: every
    request that the handler sends to the gateway asks for a stream from
    the one model, with the system prompt, and carries the credential of
    the environment, which is set and not empty. *)
Theorem gateway_request_has_a_shape (req : request) (greq : gateway_request) :
  In (FetchGateway greq) (snd (serve w req)) -> request_shape w greq.
Proof.
  intros Hin.
  destruct (jsstring_eqb (method req) (js "OPTIONS")) eqn:Hm.
  { unfold serve in Hin. rewrite Hm in Hin. contradiction. }
  destruct (serve_trace req Hm) as (tail & Ht & Hc).
  rewrite Ht in Hin. apply in_app_or in Hin. destruct Hin as [Hin|Hin].
  { exfalso. exact (prepare_no_gateway req greq Hin). }
  assert (Hlogs : forall t, Forall logs t -> ~ In (FetchGateway greq) t).
  { intros t Hl H. rewrite Forall_forall in Hl. destruct (Hl _ H) as [args E].
    discriminate E. }
  destruct Hc as [Hl | (greq' & tail' & Hp & -> & Hl)].
  { exfalso. exact (Hlogs _ Hl Hin). }
  destruct Hin as [E|Hin]; [|exfalso; exact (Hlogs _ Hl Hin)].
  injection E as <-.
  exact (yields_fst _ _ _ (prepare_yields req) Hp).
Qed.

Lemma prepare_without_credential (req : request) (owner repo : jsvalue) :
  analysis_request req owner repo ->
  env_LOVABLE_API_KEY w = None \/ env_LOVABLE_API_KEY w = Some [] ->
  prepare w req =
    (inl (js "LOVABLE_API_KEY is not configured"), [EnvGet (js "LOVABLE_API_KEY")]).
Proof.
  intros (Hm & body & Hb & Ho & Hr & Hto & Htr) Hk.
  unfold prepare. rewrite Hb. unfold await. rewrite bind_ret.
  unfold field. rewrite Ho, Hr, !bind_ret, Hto, Htr. simpl negb. simpl orb.
  cbv iota. destruct Hk as [-> | ->]; reflexivity.
Qed.

(** X14. Without the credential the handler answers 500 with the fixed
    message, after reading the environment and before any fetch: the
    trace holds the read of the variable and the log entry, nothing
    else. *)
Theorem missing_credential_is_500 (req : request) (owner repo : jsvalue) :
  analysis_request req owner repo ->
  env_LOVABLE_API_KEY w = None \/ env_LOVABLE_API_KEY w = Some [] ->
  serve w req =
    (error_response 500 (js "LOVABLE_API_KEY is not configured"),
     [EnvGet (js "LOVABLE_API_KEY");
      ConsoleError [js "analyze-repo error:";
                    js "LOVABLE_API_KEY is not configured"]]).
Proof.
  intros Hreq Hk.
  rewrite (serve_thrown w req _ _ (proj1 Hreq)
             (prepare_without_credential req owner repo Hreq Hk)).
  reflexivity.
Qed.

(** X15. A body that cannot be read as JSON, or that is [null], is not
    answered with 400: reading it, or taking [owner] from it, throws, and
    the handler answers 500 with the message of the error, without
    reading the environment or fetching anything. *)
Theorem unreadable_body_is_500 (req : request) :
  jsstring_eqb (method req) (js "OPTIONS") = false ->
  (forall message, json_body req = inl message ->
     serve w req =
       (error_response 500 message,
        [ConsoleError [js "analyze-repo error:"; message]])) /\
  (forall body, json_body req = inr body -> nullish body = true ->
     serve w req =
       (error_response 500 (runtime_message w DestructureNullish),
        [ConsoleError [js "analyze-repo error:";
                       runtime_message w DestructureNullish]])).
Proof.
  intros Hm. split.
  - intros message Hb.
    assert (Hp : prepare w req = (inl message, [])).
    { unfold prepare. rewrite Hb. reflexivity. }
    rewrite (serve_thrown w req _ _ Hm Hp). reflexivity.
  - intros body Hb Hn.
    assert (Hp : prepare w req = (inl (runtime_message w DestructureNullish), [])).
    { unfold prepare. rewrite Hb. unfold await. rewrite bind_ret.
      unfold field. destruct body; try discriminate Hn; reflexivity. }
    rewrite (serve_thrown w req _ _ Hm Hp). reflexivity.
Qed.

(** X16. An owner or a repository that cannot be printed (an object with
    a [toString] property of its own) makes the three collectors fail
    before they fetch anything; the handler then fails to print the
    message of the answer 404 and answers 500 with the message of the
    runtime, without any call to GitHub or to the gateway. *)
Theorem unprintable_name_is_500 (req : request) (owner repo : jsvalue) (key : jsstring) :
  analysis_request req owner repo ->
  configured w key ->
  ToString owner = None \/ ToString repo = None ->
  serve w req =
    (error_response 500 (runtime_message w NotPrimitive),
     [EnvGet (js "LOVABLE_API_KEY");
      ConsoleError [js "analyze-repo error:"; runtime_message w NotPrimitive]]).
Proof.
  intros Hreq Hkey Hn.
  pose proof (prepare_collects w req owner repo key Hreq Hkey) as Hp.
  assert (Hu : repo_url w owner repo = (inl (runtime_message w NotPrimitive), [])).
  { unfold repo_url, str. destruct (ToString owner) as [o|].
    - destruct Hn as [Hn|Hn]; [discriminate Hn|]. rewrite Hn, bind_ret. reflexivity.
    - reflexivity. }
  assert (Hnf : not_found_message w owner repo =
                (inl (runtime_message w NotPrimitive), [])).
  { unfold not_found_message, str. destruct (ToString owner) as [o|].
    - destruct Hn as [Hn|Hn]; [discriminate Hn|]. rewrite Hn, bind_ret. reflexivity.
    - reflexivity. }
  unfold fetchReadme, fetchIssues, fetchRepoStats in Hp.
  rewrite Hu in Hp. simpl in Hp. rewrite Hnf in Hp. simpl in Hp.
  destruct Hreq as [Hm _].
  rewrite (serve_thrown w req _ _ Hm Hp). reflexivity.
Qed.

Lemma N_length_firstn (n : N) (s : jsstring) :
  N.of_nat (List.length (firstn (N.to_nat n) s)) <= n.
Proof. rewrite length_firstn. lia. Qed.

(** X17. The README that goes into the prompt has at most 6000 code
    units, whatever the endpoint answers: the text is cut, and the two
    defaults are shorter. *)
Theorem readme_is_cut_at_6000 (owner repo : jsvalue) (readme : jsstring) :
  fst (fetchReadme w owner repo) = inr readme ->
  N.of_nat (List.length readme) <= 6000.
Proof.
  apply (yields_fst (fun s => N.of_nat (List.length s) <= 6000)).
  unfold fetchReadme. apply yields_try_catch; [|vm_compute; discriminate].
  apply yields_then. intros base. apply yields_then. intros res.
  destruct (negb (ok (gh_status res))).
  - apply yields_ret. vm_compute. discriminate.
  - apply yields_then. intros text. apply yields_ret. apply N_length_firstn.
Qed.

Lemma fetchRepoStats_trace (owner repo : jsvalue) (o r : jsstring) :
  ToString owner = Some o -> ToString repo = Some r ->
  snd (fetchRepoStats w owner repo) =
  [FetchGitHub (stats_url o r) (js "application/vnd.github+json")].
Proof.
  intros Ho Hr. unfold fetchRepoStats.
  rewrite (repo_url_printed w _ _ _ _ Ho Hr), bind_ret.
  unfold github_fetch, tell.
  destruct (github w (stats_url o r)) as [e|res]; simpl; [reflexivity|].
  destruct (ok (gh_status res)); simpl; [|reflexivity].
  destruct (gh_json res) as [data|]; simpl; [|reflexivity].
  destruct (nullish data) eqn:En.
  - unfold prop. destruct data; try discriminate En; reflexivity.
  - rewrite !(prop_defined w _ _ En), !bind_ret. reflexivity.
Qed.

Lemma prepare_trace (req : request) (owner repo : jsvalue) (key o r : jsstring) :
  analysis_request req owner repo -> configured w key ->
  ToString owner = Some o -> ToString repo = Some r ->
  snd (prepare w req) =
  [EnvGet (js "LOVABLE_API_KEY");
   FetchGitHub (readme_url o r) (js "application/vnd.github.raw");
   FetchGitHub (issues_url o r) (js "application/vnd.github+json");
   FetchGitHub (stats_url o r) (js "application/vnd.github+json")].
Proof.
  intros Hreq Hkey Ho Hr.
  rewrite (prepare_collects w req owner repo key Hreq Hkey).
  rewrite (fetchReadme_eq w _ _ _ _ Ho Hr), (fetchIssues_eq w _ _ _ _ Ho Hr).
  pose proof (fetchRepoStats_trace owner repo o r Ho Hr) as H3.
  destruct (fetchRepoStats_returns w owner repo) as (stats & t3 & E3).
  rewrite E3 in H3 |- *. simpl in H3. subst t3.
  unfold tell. rewrite !bind_pair. cbv beta iota. simpl snd.
  destruct stats as [st|].
  - unfold userContent.
    pose proof (only_silent _ (only_stats_head w _ owner repo st)) as Hs.
    destruct (stats_head w owner repo st) as [[e|head] ts]; simpl in Hs; subst ts;
      [reflexivity|].
    rewrite bind_pair. cbv beta.
    match goal with |- context [issues_block w ?l] =>
      pose proof (only_silent _ (only_issues_block w _ l)) as Hb;
      destruct (issues_block w l) as [[e|block] tb]; simpl in Hb; subst tb
    end; reflexivity.
  - unfold not_found_message, str. rewrite Ho, Hr, !bind_ret. reflexivity.
Qed.

(** X18. The three sources are asked in a fixed order, each exactly
    once: whatever they answer and whatever follows, the calls to GitHub
    in the trace of a request are the README, the open issues (fifteen a
    page) and the repository, each at its address under
    [api.github.com/repos/owner/repo] with its [Accept] header. *)
Theorem sources_are_asked_in_order
    (req : request) (owner repo : jsvalue) (key o r : jsstring) :
  analysis_request req owner repo -> configured w key ->
  ToString owner = Some o -> ToString repo = Some r ->
  github_calls (snd (serve w req)) =
  [ (js "https://api.github.com/repos/" ++ o ++ js "/" ++ r ++ js "/readme",
     js "application/vnd.github.raw");
    (js "https://api.github.com/repos/" ++ o ++ js "/" ++ r
       ++ js "/issues?state=open&per_page=15",
     js "application/vnd.github+json");
    (js "https://api.github.com/repos/" ++ o ++ js "/" ++ r,
     js "application/vnd.github+json") ].
Proof.
  intros Hreq Hkey Ho Hr.
  destruct (serve_trace req (proj1 Hreq)) as (tail & Ht & Hc).
  rewrite Ht, (prepare_trace req owner repo key o r Hreq Hkey Ho Hr).
  rewrite github_calls_app.
  assert (Htail : github_calls tail = []).
  { destruct Hc as [Hl | (greq & tail' & _ & -> & Hl)];
      destruct (logs_only _ Hl) as [H1 _]; exact H1. }
  rewrite Htail, app_nil_r.
  unfold github_calls, readme_url, issues_url, stats_url, GITHUB_API. simpl flat_map.
  rewrite <- !app_assoc. reflexivity.
Qed.

Lemma prepare_answers_404 (req : request) (owner repo : jsvalue) :
  analysis_request req owner repo ->
  yields (fun p => match p with
                   | inl early => exists message, early = error_response 404 message
                   | inr _ => True
                   end) (prepare w req).
Proof.
  intros Hreq.
  destruct (env_LOVABLE_API_KEY w) as [[|c key]|] eqn:Ek.
  - rewrite (prepare_without_credential req owner repo Hreq); [exact I | auto].
  - rewrite (prepare_collects w req owner repo (c :: key) Hreq);
      [|split; [exact Ek | discriminate]].
    apply yields_then. intros _.
    apply yields_then. intros readme.
    apply yields_then. intros issues.
    apply yields_then. intros [st|].
    + apply yields_then. intros user. apply yields_ret. exact I.
    + apply yields_then. intros message. apply yields_ret. eexists. reflexivity.
  - rewrite (prepare_without_credential req owner repo Hreq); [exact I | auto].
Qed.

Lemma analysis_request_status (req : request) (owner repo : jsvalue) :
  analysis_request req owner repo ->
  In (status (fst (serve w req))) [200; 402; 404; 429; 500].
Proof.
  intros Hreq. pose proof (prepare_answers_404 req owner repo Hreq) as Hy.
  destruct Hreq as [Hm _]. unfold serve, serve_try. rewrite Hm.
  unfold yields in Hy.
  destruct (prepare w req) as [[e|[early|greq]] t]; simpl in *.
  - auto 10.
  - destruct Hy as [message ->]. simpl. auto 10.
  - destruct (gateway w greq) as [e|res]; simpl; [auto 10|].
    pose proof (relay_yields res) as Hr. unfold yields in Hr.
    destruct (relay res) as [[e|r] t']; simpl in *; [auto 10|].
    destruct Hr as [-> | (code & message & Hc & ->)]; simpl; [auto|].
    simpl in Hc. intuition; subst; auto 10.
Qed.

End World.

(** *** The theorems on sample worlds *)

Lemma gateway_request_has_a_shape_witness :
  exists greq,
    In (FetchGateway greq) (snd (serve world_overloaded sample_request)) /\
    request_shape world_overloaded greq.
Proof.
  destruct (prepare world_overloaded sample_request) as [[e|[early|greq]] t] eqn:Hp;
    try (vm_compute in Hp; discriminate Hp).
  exists greq.
  assert (Hin : In (FetchGateway greq) (snd (serve world_overloaded sample_request)))
    by exact (serve_calls_gateway world_overloaded sample_request greq t eq_refl Hp).
  split; [exact Hin|].
  exact (gateway_request_has_a_shape world_overloaded sample_request greq Hin).
Defined.

Lemma missing_credential_is_500_witness :
  payload (fst (serve world_without_key sample_request)) =
    BodyText (jsq "{'error':'LOVABLE_API_KEY is not configured'}") /\
  github_calls (snd (serve world_without_key sample_request)) = [].
Proof.
  rewrite (missing_credential_is_500 world_without_key sample_request
             (text "foo") (text "bar") sample_request_is_analysis
             (or_introl eq_refl)).
  split; vm_compute; reflexivity.
Defined.

Lemma unreadable_body_is_500_witness :
  status (fst (serve world_not_found request_not_json)) = 500 /\
  snd (serve world_not_found request_not_json) =
    [ConsoleError [js "analyze-repo error:"; js "Unexpected end of JSON input"]].
Proof.
  destruct (unreadable_body_is_500 world_not_found request_not_json eq_refl)
    as [H _].
  rewrite (H (js "Unexpected end of JSON input") eq_refl).
  split; reflexivity.
Defined.

Lemma request_with_object_is_analysis :
  analysis_request request_with_object (JObject [(js "toString", JNull)]) (text "bar").
Proof.
  split; [reflexivity|]. eexists. split; [reflexivity|].
  repeat split; reflexivity.
Defined.

Lemma unprintable_name_is_500_witness :
  status (fst (serve world_not_found request_with_object)) = 500 /\
  github_calls (snd (serve world_not_found request_with_object)) = [].
Proof.
  rewrite (unprintable_name_is_500 world_not_found request_with_object
             (JObject [(js "toString", JNull)]) (text "bar") (js "secret")
             request_with_object_is_analysis (sample_world_configured _ _ _ _)
             (or_introl eq_refl)).
  split; reflexivity.
Defined.

Lemma readme_is_cut_at_6000_witness :
  fst (fetchReadme world_not_found (text "foo") (text "bar")) = inr (js "# bar") /\
  N.of_nat (List.length (js "# bar")) <= 6000.
Proof.
  assert (H : fst (fetchReadme world_not_found (text "foo") (text "bar"))
              = inr (js "# bar")) by (vm_compute; reflexivity).
  split; [exact H|].
  exact (readme_is_cut_at_6000 world_not_found (text "foo") (text "bar") _ H).
Defined.

Lemma sources_are_asked_in_order_witness :
  map fst (github_calls (snd (serve world_overloaded sample_request))) =
  [ js "https://api.github.com/repos/foo/bar/readme";
    js "https://api.github.com/repos/foo/bar/issues?state=open&per_page=15";
    js "https://api.github.com/repos/foo/bar" ].
Proof.
  rewrite (sources_are_asked_in_order world_overloaded sample_request
             (text "foo") (text "bar") (js "secret") (js "foo") (js "bar")
             sample_request_is_analysis (sample_world_configured _ _ _ _)
             eq_refl eq_refl).
  vm_compute. reflexivity.
Defined.

Lemma stats_unavailable_iff_witness :
  fst (fetchRepoStats world_not_found (text "foo") (text "bar")) = inr None <->
  stats_failed (github world_not_found (stats_url (js "foo") (js "bar"))).
Proof.
  exact (stats_unavailable_iff world_not_found (text "foo") (text "bar")
           (js "foo") (js "bar") eq_refl eq_refl).
Defined.

(** *** The credential *)

Lemma fmap_bind {A B C : Type} (f : B -> C) (m : M A) (k1 : A -> M B) (k2 : A -> M C) :
  (forall a, k2 a = fmap f (k1 a)) -> bind m k2 = fmap f (bind m k1).
Proof.
  intros H. unfold bind. destruct m as [[e|a] t]; [reflexivity|].
  rewrite H. destruct (k1 a) as [[e|b] t']; reflexivity.
Qed.

Lemma fmap_ret {A B : Type} (f : A -> B) (a : A) : ret (f a) = fmap f (ret a).
Proof. reflexivity. Qed.

Lemma fmap_throw {A B : Type} (f : A -> B) (e : jsstring) :
  @throw B e = fmap f (@throw A e).
Proof. reflexivity. Qed.

Section Credential.

Variable w : world.
Variables old new : jsstring.
Hypothesis Hold : configured w old.
Hypothesis Hnew : new <> [].

Lemma prepare_rekeyed (req : request) :
  prepare (rekeyed w old new) req = fmap (set_key new) (prepare w req).
Proof.
  destruct Hold as [Hk Hne].
  unfold prepare.
  apply fmap_bind. intros body.
  apply fmap_bind. intros owner.
  apply fmap_bind. intros repo.
  destruct (negb (ToBoolean owner) || negb (ToBoolean repo)); [reflexivity|].
  apply fmap_bind. intros _.
  rewrite Hk. simpl env_LOVABLE_API_KEY.
  destruct old as [|c0 k0]; [contradiction|].
  destruct new as [|c1 k1] eqn:E; [contradiction|]. rewrite <- E.
  apply fmap_bind. intros readme.
  apply fmap_bind. intros issues.
  apply fmap_bind. intros [st|].
  - apply fmap_bind. intros user. reflexivity.
  - apply fmap_bind. intros message. reflexivity.
Qed.

Lemma with_credential_twice (greq : gateway_request) (a b : jsstring) :
  with_credential (with_credential greq a) b = with_credential greq b.
Proof. reflexivity. Qed.

Lemma with_credential_same (greq : gateway_request) :
  request_shape w greq -> with_credential greq old = greq.
Proof.
  intros (_ & _ & _ & key & [Hk _] & Ha).
  destruct Hold as [Hk' _]. rewrite Hk in Hk'. injection Hk' as ->.
  destruct greq. simpl in *. subst. reflexivity.
Qed.

Lemma redact_app (t u : list event) : redact (t ++ u) = redact t ++ redact u.
Proof. apply map_app. Qed.

(** X19. The credential stays in the [Authorization] header: with
    another credential in the environment, everything else being equal,
    the handler gives the same answer and leaves the same trace, the
    header of the call to the gateway apart.  The credential reaches
    neither the answer, nor the log, nor GitHub. *)
Theorem credential_stays_in_the_header (req : request) :
  fst (serve (rekeyed w old new) req) = fst (serve w req) /\
  redact (snd (serve (rekeyed w old new) req)) = redact (snd (serve w req)).
Proof.
  unfold serve.
  destruct (jsstring_eqb (method req) (js "OPTIONS")); [split; reflexivity|].
  unfold serve_try. rewrite prepare_rekeyed.
  pose proof (prepare_yields w req) as Hy. unfold yields in Hy.
  destruct (prepare w req) as [[e|[early|greq]] t]; simpl in Hy.
  - split; reflexivity.
  - split; reflexivity.
  - unfold fmap, set_key. rewrite !bind_pair. cbv beta iota.
    unfold tell. rewrite !bind_pair. cbv beta.
    change (gateway (rekeyed w old new) (with_credential greq new))
      with (gateway w (with_credential (with_credential greq new) old)).
    rewrite with_credential_twice, (with_credential_same greq Hy).
    destruct (gateway w greq) as [e|res]; simpl.
    + split; [reflexivity|]. rewrite !redact_app. reflexivity.
    + destruct (relay res) as [[e|r] t']; simpl.
      * split; [reflexivity|]. rewrite !redact_app. reflexivity.
      * split; [reflexivity|]. rewrite !redact_app. reflexivity.
Qed.

End Credential.

Lemma credential_stays_in_the_header_witness :
  fst (serve (rekeyed world_overloaded (js "secret") (js "other")) sample_request)
    = fst (serve world_overloaded sample_request).
Proof.
  exact (proj1 (credential_stays_in_the_header world_overloaded
                  (js "secret") (js "other")
                  (sample_world_configured _ _ _ _)
                  ltac:(discriminate) sample_request)).
Defined.

(** *** The prompt *)

Section Prompt.

Variable w : world.

(** X20. The prompt is made of the three sources and of nothing else:
    whenever the handler has a request for the gateway, the statistics
    were there, and the user message is the statistics printed, then the
    README as [fetchReadme] returned it, then the heading of the issue
    list, then the issue list printed. *)
Theorem prompt_is_made_of_the_sources
    (req : request) (owner repo : jsvalue) (greq : gateway_request)
    (t : list event) :
  analysis_request req owner repo ->
  prepare w req = (inr (inr greq), t) ->
  exists readme issues st head block,
    fst (fetchReadme w owner repo) = inr readme /\
    fst (fetchIssues w owner repo) = inr issues /\
    fst (fetchRepoStats w owner repo) = inr (Some st) /\
    fst (stats_head w owner repo st) = inr head /\
    fst (issues_block w issues) = inr block /\
    user_content greq = head ++ readme ++ issues_heading ++ block.
Proof.
  intros Hreq Hp.
  destruct (env_LOVABLE_API_KEY w) as [[|c key]|] eqn:Ek.
  - rewrite (prepare_without_credential w req owner repo Hreq) in Hp by auto.
    discriminate Hp.
  - rewrite (prepare_collects w req owner repo (c :: key) Hreq) in Hp
      by (split; [exact Ek | discriminate]).
    destruct (fetchReadme_returns w owner repo) as (readme & t1 & E1).
    destruct (fetchIssues_returns w owner repo) as (issues & t2 & E2).
    destruct (fetchRepoStats_returns w owner repo) as (stats & t3 & E3).
    rewrite E1, E2, E3 in Hp |- *.
    unfold tell in Hp. rewrite !bind_pair in Hp. cbv beta iota in Hp.
    simpl fst in Hp. simpl snd in Hp.
    destruct stats as [st|].
    + unfold userContent in Hp.
      destruct (stats_head w owner repo st) as [[e|head] th] eqn:Eh;
        [discriminate Hp|].
      rewrite bind_pair in Hp. cbv beta in Hp.
      destruct (issues_block w issues) as [[e|block] tb] eqn:Eb;
        [discriminate Hp|].
      rewrite !bind_pair in Hp. cbv beta in Hp. unfold ret in Hp. simpl in Hp.
      injection Hp as <- _.
      exists readme, issues, st, head, block. rewrite Eh, Eb.
      repeat split; reflexivity.
    + exfalso.
      destruct (not_found_message w owner repo) as [[e|m] tm];
        rewrite ?bind_pair in Hp; simpl in Hp; discriminate Hp.
  - rewrite (prepare_without_credential w req owner repo Hreq) in Hp by auto.
    discriminate Hp.
Qed.

Lemma join_or_some (items : list jsvalue) (sep fallback ls : jsstring) :
  fst (join_or w (JArray items) sep fallback) = inr ls ->
  exists joined,
    array_join sep items = Some joined /\
    ls = match joined with [] => fallback | _ :: _ => joined end.
Proof.
  unfold join_or.
  destruct (array_join sep items) as [[|c s]|]; simpl; intros H.
  - injection H as <-. exists []. auto.
  - injection H as <-. exists (c :: s). auto.
  - discriminate H.
Qed.

Lemma issue_line_some (idx : N) (i : issue) (l : jsstring) :
  fst (issue_line w idx i) = inr l ->
  exists t joined c,
    ToString (issue_title i) = Some t /\
    array_join (js ", ") (issue_labels i) = Some joined /\
    ToString (issue_comments i) = Some c /\
    l = decimal (idx + 1) ++ js ". **" ++ t ++ js "** — Labels: ["
        ++ match joined with [] => js "none" | _ :: _ => joined end
        ++ js "] — Comments: " ++ c.
Proof.
  unfold issue_line, str.
  destruct (ToString (issue_title i)) as [t|]; [|discriminate].
  rewrite bind_ret.
  destruct (join_or w (JArray (issue_labels i)) (js ", ") (js "none"))
    as [[e|ls] tl] eqn:Ej; [discriminate|].
  destruct (join_or_some (issue_labels i) (js ", ") (js "none") ls)
    as (joined & Hj & ->); [rewrite Ej; reflexivity|].
  rewrite bind_pair. cbv beta.
  destruct (ToString (issue_comments i)) as [c|]; [|discriminate].
  rewrite bind_ret. simpl fst. intros H. injection H as <-.
  exists t, joined, c. auto.
Qed.

Lemma map_index_M_entries {A B : Type} (f : N -> A -> M B) (xs : list A) :
  forall (idx : N) (ys : list B),
    fst (map_index_M f idx xs) = inr ys ->
    List.length ys = List.length xs /\
    forall k x, nth_error xs k = Some x ->
      exists y, nth_error ys k = Some y /\ fst (f (idx + N.of_nat k) x) = inr y.
Proof.
  induction xs as [|x xs IH]; intros idx ys H; simpl in H.
  - injection H as <-. split; [reflexivity|]. intros [|k] x0 Hk; discriminate Hk.
  - destruct (f idx x) as [[e|y] ty] eqn:Ey; [discriminate H|].
    rewrite bind_pair in H. cbv beta in H.
    destruct (map_index_M f (idx + 1) xs) as [[e|ys'] ts] eqn:Es; [discriminate H|].
    rewrite bind_pair in H. simpl in H. injection H as <-.
    destruct (IH (idx + 1) ys') as [Hlen Hnth]; [rewrite Es; reflexivity|].
    split; [simpl; f_equal; exact Hlen|].
    intros [|k] x0 Hk; simpl in Hk.
    + injection Hk as <-. exists y. split; [reflexivity|].
      rewrite N.add_0_r, Ey. reflexivity.
    + destruct (Hnth k x0 Hk) as (y0 & Hy0 & Hf). exists y0. split; [exact Hy0|].
      replace (idx + N.of_nat (S k)) with (idx + 1 + N.of_nat k) by lia. exact Hf.
Qed.

(** X21. The issues are listed in the order of the answer and numbered
    from one: the block of the prompt is one line for each issue, joined
    by newlines, and the line of the issue at position [k] is its number
    [k + 1], its title in bold, its labels and the number of its
    comments.  The labels are the labels of that issue joined by a comma
    and a space, or the word none when that text is empty. *)
Theorem issues_are_numbered_from_one (issues : list issue) (block : jsstring) :
  issues <> [] ->
  fst (issues_block w issues) = inr block ->
  exists lines,
    block = join [10] lines /\
    List.length lines = List.length issues /\
    forall k i, nth_error issues k = Some i ->
      exists t joined c,
        ToString (issue_title i) = Some t /\
        array_join (js ", ") (issue_labels i) = Some joined /\
        ToString (issue_comments i) = Some c /\
        nth_error lines k =
          Some (decimal (N.of_nat k + 1) ++ js ". **" ++ t
                ++ js "** — Labels: ["
                ++ match joined with [] => js "none" | _ :: _ => joined end
                ++ js "] — Comments: " ++ c).
Proof.
  intros Hne Hb. unfold issues_block in Hb.
  destruct issues as [|i0 rest]; [contradiction|].
  destruct (map_index_M (issue_line w) 0 (i0 :: rest)) as [[e|lines] tl] eqn:Em;
    [discriminate Hb|].
  rewrite bind_pair in Hb. simpl in Hb. injection Hb as <-.
  destruct (map_index_M_entries (issue_line w) (i0 :: rest) 0 lines) as [Hlen Hnth];
    [rewrite Em; reflexivity|].
  exists lines. split; [reflexivity|]. split; [exact Hlen|].
  intros k i Hk. destruct (Hnth k i Hk) as (l & Hl & Hf).
  destruct (issue_line_some _ _ _ Hf) as (t & joined & c & Ht & Hj & Hc & ->).
  exists t, joined, c. rewrite N.add_0_l in Hl. auto.
Qed.

End Prompt.

Lemma prompt_is_made_of_the_sources_witness :
  exists greq readme,
    fst (prepare world_overloaded sample_request) = inr (inr greq) /\
    fst (fetchReadme world_overloaded (text "foo") (text "bar")) = inr readme /\
    includes readme (user_content greq) = true.
Proof.
  destruct (prepare world_overloaded sample_request) as [[e|[early|greq]] t] eqn:Hp;
    try (vm_compute in Hp; discriminate Hp).
  destruct (prompt_is_made_of_the_sources world_overloaded sample_request
              (text "foo") (text "bar") greq t sample_request_is_analysis Hp)
    as (readme & issues & st & head & block & H1 & _ & _ & _ & _ & Hu).
  exists greq, readme. split; [reflexivity|]. split; [exact H1|].
  rewrite Hu. apply includes_middle.
Defined.

Lemma issues_are_numbered_from_one_witness :
  let first := {| issue_title := text "Crash on start";
                  issue_labels := [text "bug"; text "help wanted"];
                  issue_state := text "open"; issue_comments := number 3;
                  issue_url := JNull |} in
  let second := {| issue_title := text "Typo"; issue_labels := [];
                   issue_state := text "open"; issue_comments := number 0;
                   issue_url := JNull |} in
  exists lines,
    fst (issues_block world_overloaded [first; second]) = inr (join [10] lines) /\
    List.length lines = 2%nat /\
    nth_error lines 0
      = Some (js "1. **Crash on start** — Labels: [bug, help wanted] — Comments: 3") /\
    nth_error lines 1 = Some (js "2. **Typo** — Labels: [none] — Comments: 0").
Proof.
  intros first second.
  destruct (issues_block world_overloaded [first; second]) as [[e|block] tb] eqn:Eb;
    [vm_compute in Eb; discriminate Eb|].
  destruct (issues_are_numbered_from_one world_overloaded [first; second] block)
    as (lines & Hj & Hl & Hn); [discriminate | rewrite Eb; reflexivity|].
  exists lines. split; [rewrite Hj; reflexivity|]. split; [exact Hl|].
  split.
  - destruct (Hn 0%nat first eq_refl) as (t & joined & c & Ht & Hjn & Hc & ->).
    vm_compute in Ht, Hjn, Hc.
    injection Ht as <-. injection Hjn as <-. injection Hc as <-. reflexivity.
  - destruct (Hn 1%nat second eq_refl) as (t & joined & c & Ht & Hjn & Hc & ->).
    vm_compute in Ht, Hjn, Hc.
    injection Ht as <-. injection Hjn as <-. injection Hc as <-. reflexivity.
Defined.

End AnswersFacts.

(** ** The page *)

Module PageFacts.
Import Js Value Json Segmenter Decoder Aggregator Answers Page.
Import DecoderFacts AggregatorFacts StallFacts OutlineFacts AnswersFacts.

#[local] Arguments js : simpl never.

Lemma name_run_names (s : jsstring) (i : nat) :
  (i <= name_run s)%nat ->
  Forall (fun c => name_char c = true) (firstn i s) /\ List.length (firstn i s) = i.
Proof.
  revert i. induction s as [|c s IH]; intros i H; simpl in H.
  - replace i with O by lia. split; [constructor | reflexivity].
  - destruct i as [|i]; [split; [constructor | reflexivity]|].
    destruct (name_char c) eqn:E; [|lia].
    destruct (IH i) as [H1 H2]; [lia|].
    simpl. split; [constructor; assumption | f_equal; exact H2].
Qed.

Lemma name_run_app (s t : jsstring) :
  Forall (fun c => name_char c = true) s ->
  match t with [] => True | c :: _ => name_char c = false end ->
  name_run (s ++ t) = List.length s.
Proof.
  intros Hs Ht. induction Hs as [|c s Hc Hs IH]; simpl.
  - destruct t as [|c t]; [reflexivity|]. simpl. rewrite Ht. reflexivity.
  - rewrite Hc, IH. reflexivity.
Qed.

Lemma firstn_name (s : jsstring) (i : nat) :
  (S i <= name_run s)%nat -> name (firstn (S i) s).
Proof.
  intros H. destruct (name_run_names s (S i) H) as [H1 H2].
  split; [|exact H1]. intros E. rewrite E in H2. discriminate H2.
Qed.

Lemma repo_and_end_some (owner s o r : jsstring) :
  repo_and_end owner s = Some (o, r) ->
  o = owner /\ name r /\ (s = r \/ s = r ++ [47]).
Proof.
  unfold repo_and_end. destruct (name_run s) as [|k] eqn:Ek; [discriminate|].
  intros H. destruct (backtrack_some _ _ _ H) as (j & Hj & Hm).
  pose proof (firstn_skipn (S j) s) as Hs.
  assert (Hn : name (firstn (S j) s)) by (apply firstn_name; lia).
  cbv beta zeta in Hm. revert Hs Hm.
  destruct (skipn (S j) s) as [|c [|c' t]]; intros Hs Hm.
  - injection Hm as <- <-. rewrite app_nil_r in Hs. auto.
  - destruct (c =? 47) eqn:E; [|discriminate].
    apply N.eqb_eq in E. subst c. injection Hm as <- <-. auto.
  - discriminate.
Qed.

Lemma owner_and_repo_some (s o r : jsstring) :
  owner_and_repo s = Some (o, r) ->
  name o /\ name r /\ (s = o ++ [47] ++ r \/ s = o ++ [47] ++ r ++ [47]).
Proof.
  unfold owner_and_repo. destruct (name_run s) as [|k] eqn:Ek; [discriminate|].
  intros H. destruct (backtrack_some _ _ _ H) as (i & Hi & Hm).
  pose proof (firstn_skipn (S i) s) as Hs.
  assert (Hn : name (firstn (S i) s)) by (apply firstn_name; lia).
  cbv beta in Hm. revert Hs Hm.
  destruct (skipn (S i) s) as [|c s2]; intros Hs Hm; [discriminate|].
  destruct (c =? 47) eqn:E; [|discriminate].
  apply N.eqb_eq in E. subst c.
  destruct (repo_and_end_some _ _ _ _ Hm) as (-> & Hr & Hs2).
  split; [exact Hn|]. split; [exact Hr|].
  destruct Hs2 as [E | E]; subst s2; [left | right]; symmetry; exact Hs.
Qed.

Lemma repo_and_end_names (owner r s : jsstring) :
  name r -> s = [] \/ s = [47] -> repo_and_end owner (r ++ s) = Some (owner, r).
Proof.
  intros [Hne Hr] Hs. unfold repo_and_end.
  assert (Hrun : name_run (r ++ s) = List.length r).
  { apply name_run_app; [exact Hr|]. destruct Hs as [-> | ->]; [exact I | reflexivity]. }
  rewrite Hrun. destruct r as [|c r']; [contradiction|].
  set (r := c :: r') in *. change (List.length r) with (S (List.length r')).
  apply backtrack_first. cbv zeta.
  change (S (List.length r')) with (List.length r).
  rewrite skipn_length_app, firstn_app, firstn_all, Nat.sub_diag. simpl firstn.
  rewrite app_nil_r. destruct Hs as [-> | ->]; reflexivity.
Qed.

Lemma owner_and_repo_names (o r s : jsstring) :
  name o -> name r -> s = [] \/ s = [47] ->
  owner_and_repo (o ++ [47] ++ r ++ s) = Some (o, r).
Proof.
  intros [Hne Ho] Hr Hs. unfold owner_and_repo.
  rewrite name_run_app by (auto; reflexivity).
  destruct o as [|c o']; [contradiction|].
  set (o := c :: o') in *. change (List.length o) with (S (List.length o')).
  apply backtrack_first.
  change (S (List.length o')) with (List.length o).
  rewrite skipn_length_app, firstn_app, firstn_all, Nat.sub_diag. simpl firstn.
  rewrite app_nil_r. simpl. apply repo_and_end_names; assumption.
Qed.

(** A text that begins with a name and a slash does not begin with the
    address. *)
Lemma after_address_names (o r t : jsstring) :
  name o -> name r -> after_address (o ++ [47] ++ r ++ t) = None.
Proof.
  intros [_ Ho] [Hne Hr]. unfold after_address.
  destruct r as [|c r]; [contradiction|]. inversion Hr as [|? ? Hc _]. subst.
  assert (H47 : name_char 47 = false) by reflexivity.
  assert (Hno : forall a b,
                 startsWith (a ++ 47 :: 47 :: b) (o ++ [47] ++ (c :: r) ++ t) = true ->
                 Forall (fun x => name_char x = true) a -> False).
  { intros a b Hp Ha. apply startsWith_split in Hp. destruct Hp as [t' Hp].
    clear Hne Hr. revert a Ha Hp. induction Ho as [|x o Hx Ho IH]; intros a Ha Hp.
    - destruct a as [|y a]; simpl in Hp.
      + injection Hp as Hc' _. subst c. rewrite H47 in Hc. discriminate Hc.
      + injection Hp as Hy _. subst y. inversion Ha as [|? ? Hy _]. subst.
        rewrite H47 in Hy. discriminate Hy.
    - destruct a as [|y a]; simpl in Hp.
      + injection Hp as Hx' _. subst x. rewrite H47 in Hx. discriminate Hx.
      + injection Hp as _ Hp. inversion Ha as [|? ? _ Ha']. subst.
        exact (IH a Ha' Hp). }
  destruct (startsWith (js "https://github.com/") _) eqn:E1.
  { exfalso. apply (Hno (js "https:") (js "github.com/") E1). repeat constructor. }
  destruct (startsWith (js "http://github.com/") _) eqn:E2.
  { exfalso. apply (Hno (js "http:") (js "github.com/") E2). repeat constructor. }
  reflexivity.
Qed.

Lemma after_address_some (s rest : jsstring) :
  after_address s = Some rest ->
  s = js "https://github.com/" ++ rest \/ s = js "http://github.com/" ++ rest.
Proof.
  unfold after_address.
  destruct (startsWith (js "https://github.com/") s) eqn:E1.
  - intros H. injection H as <-. apply startsWith_split in E1. destruct E1 as [t ->].
    left. reflexivity.
  - destruct (startsWith (js "http://github.com/") s) eqn:E2; [|discriminate].
    intros H. injection H as <-. apply startsWith_split in E2. destruct E2 as [t ->].
    right. reflexivity.
Qed.

Lemma match_repo_sound (repoInput o r : jsstring) :
  match_repo repoInput = Some (o, r) ->
  name o /\ name r /\
  exists address slash,
    In address [[]; js "http://github.com/"; js "https://github.com/"] /\
    In slash [[]; [47]] /\
    trim repoInput = address ++ o ++ [47] ++ r ++ slash.
Proof.
  unfold match_repo. cbv zeta. intros H.
  destruct (after_address (trim repoInput)) as [rest|] eqn:Ea.
  - destruct (owner_and_repo rest) as [[o' r']|] eqn:Er.
    + injection H as -> ->.
      destruct (owner_and_repo_some _ _ _ Er) as (Ho & Hr & Hs).
      split; [exact Ho|]. split; [exact Hr|].
      destruct (after_address_some _ _ Ea) as [E|E];
        [exists (js "https://github.com/") | exists (js "http://github.com/")];
        destruct Hs as [-> | ->];
        [exists [] | exists [47] | exists [] | exists [47]];
        (split; [simpl; auto|]; split; [simpl; auto|]);
        rewrite E; rewrite ?app_nil_r; reflexivity.
    + destruct (owner_and_repo_some _ _ _ H) as (Ho & Hr & Hs).
      split; [exact Ho|]. split; [exact Hr|].
      exists []. destruct Hs as [-> | ->]; [exists [] | exists [47]];
        (split; [simpl; auto|]; split; [simpl; auto|]);
        rewrite ?app_nil_r; reflexivity.
  - destruct (owner_and_repo_some _ _ _ H) as (Ho & Hr & Hs).
    split; [exact Ho|]. split; [exact Hr|].
    exists []. destruct Hs as [-> | ->]; [exists [] | exists [47]];
      (split; [simpl; auto|]; split; [simpl; auto|]);
      rewrite ?app_nil_r; reflexivity.
Qed.

Lemma match_repo_complete (repoInput o r address slash : jsstring) :
  name o -> name r ->
  In address [[]; js "http://github.com/"; js "https://github.com/"] ->
  In slash [[]; [47]] ->
  trim repoInput = address ++ o ++ [47] ++ r ++ slash ->
  match_repo repoInput = Some (o, r).
Proof.
  unfold match_repo. cbv zeta. intros Ho Hr Ha Hs ->.
  assert (Hs' : slash = [] \/ slash = [47]).
  { destruct Hs as [<-|[<-|[]]]; auto. }
  destruct Ha as [<-|[<-|[<-|[]]]].
  - change ([] ++ o ++ [47] ++ r ++ slash) with (o ++ [47] ++ r ++ slash).
    rewrite after_address_names by assumption.
    apply owner_and_repo_names; assumption.
  - change (after_address (js "http://github.com/" ++ o ++ [47] ++ r ++ slash))
      with (Some (o ++ [47] ++ r ++ slash)).
    cbv iota. rewrite owner_and_repo_names by assumption. reflexivity.
  - change (after_address (js "https://github.com/" ++ o ++ [47] ++ r ++ slash))
      with (Some (o ++ [47] ++ r ++ slash)).
    cbv iota. rewrite owner_and_repo_names by assumption. reflexivity.
Qed.

(** X22. The input box accepts exactly the texts that, once trimmed, are
    an owner, a slash and a repository, optionally after the address of
    GitHub with [http] or [https] and optionally before one more slash;
    owner and repository are then the two names, which are not empty and
    hold no slash and no white space. *)
Theorem accepted_inputs (repoInput o r : jsstring) :
  match_repo repoInput = Some (o, r) <->
  name o /\ name r /\
  exists address slash,
    In address [[]; js "http://github.com/"; js "https://github.com/"] /\
    In slash [[]; [47]] /\
    trim repoInput = address ++ o ++ [47] ++ r ++ slash.
Proof.
  split.
  - apply match_repo_sound.
  - intros (Ho & Hr & address & slash & Ha & Hs & E).
    exact (match_repo_complete _ _ _ _ _ Ho Hr Ha Hs E).
Qed.

(** *** The bodies written and read *)

Lemma hex_sum (c : N) :
  c < 65536 ->
  4096 * (c / 4096 mod 16) + 256 * (c / 256 mod 16) + 16 * (c / 16 mod 16)
  + c mod 16 = c.
Proof.
  intros H.
  assert (E2 : c / 256 = c / 16 / 16) by (rewrite N.Div0.div_div; reflexivity).
  assert (E3 : c / 4096 = c / 256 / 16) by (rewrite N.Div0.div_div; reflexivity).
  pose proof (N.div_mod c 16 ltac:(discriminate)) as H1.
  pose proof (N.div_mod (c / 16) 16 ltac:(discriminate)) as H2.
  pose proof (N.div_mod (c / 256) 16 ltac:(discriminate)) as H3.
  rewrite <- E2 in H2. rewrite <- E3 in H3.
  assert (H4 : c / 4096 < 16) by (apply N.Div0.div_lt_upper_bound; exact H).
  rewrite (N.mod_small _ _ H4).
  generalize dependent (c / 4096). generalize dependent (c / 256).
  generalize dependent (c / 16). intros d1 H1 d2 H2 E2 d3 H3 E3 H4.
  generalize dependent (c mod 16). generalize dependent (d1 mod 16).
  generalize dependent (d2 mod 16). intros. lia.
Qed.

Lemma hex_digit_char (d : N) : d < 16 -> hex_digit (hex_char d) = Some d.
Proof.
  intros H. unfold hex_char, hex_digit, between.
  destruct (d <? 10) eqn:E.
  - apply N.ltb_lt in E.
    rewrite (proj2 (N.leb_le 48 (48 + d))), (proj2 (N.leb_le (48 + d) 57)) by lia.
    cbn [andb]. f_equal. lia.
  - apply N.ltb_ge in E.
    rewrite (proj2 (N.leb_gt (87 + d) 57)) by lia. rewrite andb_false_r.
    rewrite (proj2 (N.leb_le 97 (87 + d))), (proj2 (N.leb_le (87 + d) 102)) by lia.
    cbn [andb]. f_equal. lia.
Qed.

Lemma string_body_escape (a b c d x3 x2 x1 x0 : N) (rest : jsstring) :
  hex_digit a = Some x3 -> hex_digit b = Some x2 ->
  hex_digit c = Some x1 -> hex_digit d = Some x0 ->
  string_body (92 :: 117 :: a :: b :: c :: d :: rest) =
  cons_fst (4096 * x3 + 256 * x2 + 16 * x1 + x0) (string_body rest).
Proof.
  intros Ha Hb Hc Hd.
  change (string_body (92 :: 117 :: a :: b :: c :: d :: rest))
    with (match hex_digit a, hex_digit b, hex_digit c, hex_digit d with
          | Some x3, Some x2, Some x1, Some x0 =>
              cons_fst (4096 * x3 + 256 * x2 + 16 * x1 + x0) (string_body rest)
          | _, _, _, _ => None
          end).
  rewrite Ha, Hb, Hc, Hd. reflexivity.
Qed.

Lemma string_body_unicode_escape (c : N) (rest : jsstring) :
  c < 65536 ->
  string_body (unicode_escape c ++ rest) = cons_fst c (string_body rest).
Proof.
  intros H. unfold unicode_escape.
  change ([92; 117; hex_char (c / 4096 mod 16); hex_char (c / 256 mod 16);
           hex_char (c / 16 mod 16); hex_char (c mod 16)] ++ rest)
    with (92 :: 117 :: hex_char (c / 4096 mod 16) :: hex_char (c / 256 mod 16)
             :: hex_char (c / 16 mod 16) :: hex_char (c mod 16) :: rest).
  rewrite (string_body_escape _ _ _ _ (c / 4096 mod 16) (c / 256 mod 16)
             (c / 16 mod 16) (c mod 16));
    try (apply hex_digit_char; apply N.mod_lt; discriminate).
  rewrite hex_sum by exact H. reflexivity.
Qed.

Lemma string_body_plain (c : N) (rest : jsstring) :
  c <> 34 -> c <> 92 -> 32 <= c ->
  string_body (c :: rest) = cons_fst c (string_body rest).
Proof.
  intros H1 H2 H3. simpl.
  rewrite (proj2 (N.eqb_neq c 34) H1), (proj2 (N.eqb_neq c 92) H2).
  rewrite (proj2 (N.ltb_ge c 32) H3). reflexivity.
Qed.

Lemma string_body_quote_unit (c : N) (rest : jsstring) :
  c < 65536 ->
  string_body (quote_unit c ++ rest) = cons_fst c (string_body rest).
Proof.
  intros H. unfold quote_unit.
  destruct (c =? 8) eqn:E8; [apply N.eqb_eq in E8; subst; reflexivity|].
  destruct (c =? 9) eqn:E9; [apply N.eqb_eq in E9; subst; reflexivity|].
  destruct (c =? 10) eqn:E10; [apply N.eqb_eq in E10; subst; reflexivity|].
  destruct (c =? 12) eqn:E12; [apply N.eqb_eq in E12; subst; reflexivity|].
  destruct (c =? 13) eqn:E13; [apply N.eqb_eq in E13; subst; reflexivity|].
  destruct (c =? 34) eqn:E34; [apply N.eqb_eq in E34; subst; reflexivity|].
  destruct (c =? 92) eqn:E92; [apply N.eqb_eq in E92; subst; reflexivity|].
  destruct (c <? 32) eqn:E32.
  - apply string_body_unicode_escape. exact H.
  - apply N.eqb_neq in E34, E92. apply N.ltb_ge in E32.
    apply string_body_plain; assumption.
Qed.

Lemma string_body_surrogate (c : N) (rest : jsstring) :
  55296 <= c -> string_body (c :: rest) = cons_fst c (string_body rest).
Proof. intros H. apply string_body_plain; lia. Qed.

(** The characters that [JSON.stringify] writes for a string are read
    back by [JSON.parse] as the string. *)
Lemma string_body_quote_units (m rest : jsstring) :
  code_units m ->
  string_body (quote_units m ++ 34 :: rest) = Some (m, rest).
Proof.
  remember (List.length m) as n eqn:Hn.
  revert m Hn. induction n as [n IH] using lt_wf_ind. intros m Hn Hm.
  destruct m as [|c r]; [reflexivity|].
  inversion Hm as [|? ? Hc Hr]. subst.
  assert (IHr : string_body (quote_units r ++ 34 :: rest) = Some (r, rest)).
  { apply (IH (List.length r)); [simpl; lia | reflexivity | exact Hr]. }
  change (quote_units (c :: r)) with
    (if between 0xD800 0xDBFF c then
       match r with
       | lo :: r' =>
           if between 0xDC00 0xDFFF lo then c :: lo :: quote_units r'
           else unicode_escape c ++ quote_units r
       | [] => unicode_escape c
       end
     else if between 0xDC00 0xDFFF c then unicode_escape c ++ quote_units r
     else quote_unit c ++ quote_units r).
  destruct (between 0xD800 0xDBFF c) eqn:Ehi.
  - destruct r as [|lo r'].
    + rewrite string_body_unicode_escape by exact Hc. reflexivity.
    + destruct (between 0xDC00 0xDFFF lo) eqn:Elo.
      * unfold between in Ehi, Elo.
        apply andb_true_iff in Ehi. destruct Ehi as [Ehi _]. apply N.leb_le in Ehi.
        apply andb_true_iff in Elo. destruct Elo as [Elo _]. apply N.leb_le in Elo.
        change ((c :: lo :: quote_units r') ++ 34 :: rest)
          with (c :: lo :: quote_units r' ++ 34 :: rest).
        rewrite string_body_surrogate by lia.
        rewrite string_body_surrogate by lia.
        inversion Hr as [|? ? _ Hr']. subst.
        rewrite (IH (List.length r')); [reflexivity | simpl; lia | reflexivity | exact Hr'].
      * rewrite <- app_assoc, string_body_unicode_escape by exact Hc.
        rewrite IHr. reflexivity.
  - destruct (between 0xDC00 0xDFFF c) eqn:Elo.
    + rewrite <- app_assoc, string_body_unicode_escape by exact Hc.
      rewrite IHr. reflexivity.
    + rewrite <- app_assoc, string_body_quote_unit by exact Hc.
      rewrite IHr. reflexivity.
Qed.

Section Parser.

Variable number_of_literal : jsstring -> jsnumber.

Lemma error_body_is_read (message : jsstring) :
  code_units message ->
  JSON_parse number_of_literal (stringify_error message) =
  Some (JObject [(js "error", JString message)]).
Proof.
  intros Hm. unfold JSON_parse, stringify_error.
  set (text := [123; 34] ++ js "error" ++ [34; 58; 34] ++ quote_units message ++ [34; 125]).
  assert (Hf : exists f, (2 * List.length text + 2 = S (S (S f)))%nat).
  { exists (2 * List.length text - 1)%nat. unfold text. simpl. lia. }
  destruct Hf as [f ->]. unfold text.
  change (js "error") with [101; 114; 114; 111; 114].
  simpl.
  change (quote_units message ++ [34; 125]) with (quote_units message ++ 34 :: [125]).
  rewrite string_body_quote_units by exact Hm.
  reflexivity.
Qed.




Lemma request_body_is_read (o r : jsstring) :
  code_units o -> code_units r ->
  JSON_parse number_of_literal (stringify_request o r) =
  Some (JObject [(js "owner", JString o); (js "repo", JString r)]).
Proof.
  intros Ho Hr. unfold JSON_parse, stringify_request.
  set (text := [123; 34] ++ js "owner" ++ [34; 58; 34] ++ quote_units o
                ++ [34; 44; 34] ++ js "repo" ++ [34; 58; 34] ++ quote_units r
                ++ [34; 125]).
  assert (Hf : exists f, (2 * List.length text + 2 = S (S (S (S f))))%nat).
  { exists (2 * List.length text - 2)%nat. unfold text. simpl. lia. }
  destruct Hf as [f ->]. unfold text.
  change (js "owner") with [111; 119; 110; 101; 114].
  change (js "repo") with [114; 101; 112; 111].
  simpl.
  change (quote_units o ++ 34 :: 44 :: 34 :: 114 :: 101 :: 112 :: 111 :: 34 :: 58 :: 34
            :: quote_units r ++ [34; 125])
    with (quote_units o ++ 34 :: (44 :: 34 :: 114 :: 101 :: 112 :: 111 :: 34 :: 58 :: 34
            :: quote_units r ++ [34; 125])).
  rewrite string_body_quote_units by exact Ho.
  simpl.
  change (quote_units r ++ [34; 125]) with (quote_units r ++ 34 :: [125]).
  rewrite string_body_quote_units by exact Hr.
  reflexivity.
Qed.

(** X23. The two JSON bodies that the page and the handler exchange are
    read back as they were written: [JSON.parse] of [JSON.stringify] gives
    the object again, with its strings unchanged whatever their
    characters, for the error object of the handler and for the request
    of the page. *)
Theorem bodies_round_trip :
  (forall message,
     code_units message ->
     JSON_parse number_of_literal (stringify_error message) =
     Some (JObject [(js "error", JString message)])) /\
  (forall owner repo,
     code_units owner -> code_units repo ->
     JSON_parse number_of_literal (stringify_request owner repo) =
     Some (JObject [(js "owner", JString owner); (js "repo", JString repo)])).
Proof.
  split.
  - exact error_body_is_read.
  - exact request_body_is_read.
Qed.

(** *** Code units through [trim] *)

Lemma Forall_trimStart (P : N -> Prop) (s : jsstring) :
  Forall P s -> Forall P (trimStart s).
Proof.
  induction 1 as [|c s Hc Hs IH]; simpl; [constructor|].
  destruct (is_space c); [exact IH | constructor; assumption].
Qed.

Lemma Forall_trim (P : N -> Prop) (s : jsstring) : Forall P s -> Forall P (trim s).
Proof.
  intros H. unfold trim, trimEnd.
  apply Forall_rev, Forall_trimStart, Forall_rev, Forall_trimStart. exact H.
Qed.

Lemma code_units_groups (repoInput o r : jsstring) :
  code_units repoInput -> match_repo repoInput = Some (o, r) ->
  code_units o /\ code_units r.
Proof.
  intros Hc Hm.
  destruct (match_repo_sound _ _ _ Hm) as (_ & _ & address & slash & _ & _ & E).
  pose proof (Forall_trim _ _ Hc) as Ht. rewrite E in Ht. unfold code_units.
  apply Forall_app in Ht. destruct Ht as [_ Ht].
  apply Forall_app in Ht. destruct Ht as [Ho Ht].
  apply Forall_app in Ht. destruct Ht as [_ Ht].
  apply Forall_app in Ht. destruct Ht as [Hr _]. auto.
Qed.

Lemma name_truthy (s : jsstring) : name s -> ToBoolean (JString s) = true.
Proof. intros [Hne _]. destruct s; [contradiction | reflexivity]. Qed.

(** The request of the page, as the handler reads it. *)
Lemma page_request_is_read (syntax_error repoInput o r : jsstring) :
  code_units repoInput -> match_repo repoInput = Some (o, r) ->
  analysis_request
    (arrives (JSON_parse number_of_literal) syntax_error
       {| fetch_method := js "POST"; fetch_body := stringify_request o r |})
    (JString o) (JString r).
Proof.
  intros Hc Hm.
  destruct (code_units_groups _ _ _ Hc Hm) as [Ho Hr].
  destruct (match_repo_sound _ _ _ Hm) as (Hno & Hnr & _).
  split; [reflexivity|].
  exists (JObject [(js "owner", JString o); (js "repo", JString r)]).
  split.
  { unfold arrives, json_of. simpl fetch_body.
    rewrite (request_body_is_read o r Ho Hr). reflexivity. }
  split; [reflexivity|]. split; [reflexivity|].
  split; apply name_truthy; assumption.
Qed.

Section Server.

Variable w : world.

(** X24. A request of the page always passes the validation of the
    handler: for every input that the input box accepts, the body that
    the page sends is read by the handler as an object whose [owner] and
    [repo] are the two names of the input, both truthy, and the handler,
    whatever the world, does not answer 400. *)
Theorem page_request_passes_validation (syntax_error repoInput o r : jsstring) :
  code_units repoInput ->
  match_repo repoInput = Some (o, r) ->
  let req := arrives (JSON_parse number_of_literal) syntax_error
               {| fetch_method := js "POST";
                  fetch_body := stringify_request o r |} in
  json_body req = inr (JObject [(js "owner", JString o); (js "repo", JString r)]) /\
  analysis_request req (JString o) (JString r) /\
  status (fst (serve w req)) <> 400.
Proof.
  intros Hc Hm req.
  pose proof (page_request_is_read syntax_error _ _ _ Hc Hm) as Hreq.
  fold req in Hreq.
  destruct (code_units_groups _ _ _ Hc Hm) as [Ho Hr].
  split.
  { unfold req, arrives, json_of. simpl fetch_body.
    rewrite (request_body_is_read o r Ho Hr). reflexivity. }
  split; [exact Hreq|].
  pose proof (analysis_request_status w req _ _ Hreq) as Hs.
  intros E. rewrite E in Hs. simpl in Hs.
  repeat (destruct Hs as [Hs|Hs]; [discriminate Hs|]). exact Hs.
Qed.

End Server.

Section Browser.

Variable JSON_parse : jsstring -> option jsvalue.
Variable b : browser.

Lemma handleAnalyze_accepted (repoInput o r : jsstring) (p : page) :
  match_repo repoInput = Some (o, r) ->
  let req := {| fetch_method := js "POST"; fetch_body := stringify_request o r |} in
  handleAnalyze JSON_parse b repoInput p =
  let p1 := {| analysis := fst (attempt JSON_parse b req); isLoading := true;
               error := []; toasts := toasts p; requests := requests p ++ [req] |} in
  let p2 := match snd (attempt JSON_parse b req) with
            | Some message => failure p1 message
            | None => p1
            end in
  {| analysis := analysis p2; isLoading := false; error := error p2;
     toasts := toasts p2; requests := requests p2 |}.
Proof.
  intros Hm req. unfold handleAnalyze. rewrite Hm. fold req.
  destruct (attempt JSON_parse b req). reflexivity.
Qed.

(** X25. An error of the handler is shown as it was written: when the
    response is an error object of the handler, received as it was sent,
    the page ends with the message of the object as its error and in one
    toast, with no analysis, and not loading; an empty message is shown
    as [Analysis failed]. *)
Theorem server_error_is_shown
    (syntax_error repoInput o r message : jsstring) (code : N)
    (resp : fetch_response) (p : page) :
  match_repo repoInput = Some (o, r) ->
  fetch b {| fetch_method := js "POST"; fetch_body := stringify_request o r |}
    = inr resp ->
  delivers (Json.JSON_parse number_of_literal) syntax_error (error_response code message) resp ->
  ok code = false ->
  code_units message ->
  let shown := match message with
               | [] => js "Analysis failed"
               | _ :: _ => message
               end in
  handleAnalyze JSON_parse b repoInput p =
  {| analysis := []; isLoading := false; error := shown;
     toasts := toasts p ++ [(js "Error", shown)];
     requests := requests p ++ [{| fetch_method := js "POST";
                                   fetch_body := stringify_request o r |}] |}.
Proof.
  intros Hm Hf [Hs Hj] Hok Hc shown. simpl in Hs, Hj.
  rewrite (handleAnalyze_accepted _ _ _ p Hm). cbv zeta.
  assert (Ha : attempt JSON_parse b
                 {| fetch_method := js "POST"; fetch_body := stringify_request o r |}
               = ([], Some shown)).
  { unfold attempt. rewrite Hf, Hs, Hok. simpl negb. cbv iota.
    rewrite Hj. unfold json_of.
    rewrite (error_body_is_read message Hc).
    unfold shown. destruct message as [|c m]; reflexivity. }
  rewrite Ha. simpl fst. simpl snd. cbv iota. unfold failure. simpl.
  unfold shown. destruct message as [|c m]; reflexivity.
Qed.

(** X26. A stream that ends is shown whole: when the response is a
    success whose body is a valid frame stream, in whatever chunks it
    arrives, the page ends with the concatenation of the payload texts of
    the frames as its analysis, with no error and no toast, and not
    loading. *)
Theorem stream_is_shown
    (repoInput o r : jsstring) (resp : fetch_response)
    (chunks : list (list byte)) (p : page) :
  match_repo repoInput = Some (o, r) ->
  fetch b {| fetch_method := js "POST"; fetch_body := stringify_request o r |}
    = inr resp ->
  ok (resp_status resp) = true ->
  resp_body resp = Some (chunks, None) ->
  valid_frame_stream JSON_parse (List.concat chunks) ->
  handleAnalyze JSON_parse b repoInput p =
  {| analysis := List.concat (payload_texts JSON_parse (List.concat chunks));
     isLoading := false; error := []; toasts := toasts p;
     requests := requests p ++ [{| fetch_method := js "POST";
                                   fetch_body := stringify_request o r |}] |}.
Proof.
  intros Hm Hf Hok Hb Hv.
  rewrite (handleAnalyze_accepted _ _ _ p Hm). cbv zeta.
  assert (Ha : attempt JSON_parse b
                 {| fetch_method := js "POST"; fetch_body := stringify_request o r |}
               = (List.concat (payload_texts JSON_parse (List.concat chunks)), None)).
  { unfold attempt. rewrite Hf, Hok, Hb. simpl negb. cbv iota.
    destruct (read_loop_accumulates JSON_parse chunks start eq_refl eq_refl) as [Hr Han].
    fold (read_all JSON_parse chunks) in Hr, Han.
    rewrite Han, Hr, (read_all_payload_texts JSON_parse chunks Hv). reflexivity. }
  rewrite Ha. reflexivity.
Qed.

(** X27. Errors and toasts: an input that the input box refuses is
    answered with the format error alone, without toast and without
    request, and the loading flag is left as it was; an input that it
    accepts sends exactly one request and ends not loading, either with
    no error and no toast, or with an error that is not empty and one
    toast that carries it. *)
Theorem errors_and_toasts (repoInput : jsstring) (p : page) :
  (match_repo repoInput = None ->
   handleAnalyze JSON_parse b repoInput p =
   {| analysis := []; isLoading := isLoading p;
      error := js "Invalid format. Use owner/repo or a GitHub URL.";
      toasts := toasts p; requests := requests p |}) /\
  (forall o r, match_repo repoInput = Some (o, r) ->
   let p' := handleAnalyze JSON_parse b repoInput p in
   isLoading p' = false /\
   requests p' = requests p ++ [{| fetch_method := js "POST";
                                   fetch_body := stringify_request o r |}] /\
   ((error p' = [] /\ toasts p' = toasts p) \/
    (error p' <> [] /\ toasts p' = toasts p ++ [(js "Error", error p')]))).
Proof.
  split.
  - intros Hm. unfold handleAnalyze. rewrite Hm. reflexivity.
  - intros o r Hm p'. unfold p'.
    rewrite (handleAnalyze_accepted _ _ _ p Hm). cbv zeta.
    destruct (attempt JSON_parse b _) as [shown [message|]]; simpl.
    + split; [reflexivity|]. split; [reflexivity|]. right.
      destruct message as [|c m]; (split; [discriminate | reflexivity]).
    + split; [reflexivity|]. split; [reflexivity|]. left. auto.
Qed.

End Browser.
End Parser.

(** *** The theorems on sample pages *)

Lemma code_units_by_check (s : jsstring) :
  forallb (fun c => c <? 65536) s = true -> code_units s.
Proof.
  intros H. apply Forall_forall. intros c Hc.
  rewrite forallb_forall in H. apply N.ltb_lt. exact (H c Hc).
Defined.

Lemma page_request_passes_validation_witness :
  code_units (js " https://github.com/foo/bar/ ") /\
  match_repo (js " https://github.com/foo/bar/ ") = Some (js "foo", js "bar") /\
  status (fst (serve world_not_found (arrives parse [] foo_bar))) <> 400.
Proof.
  assert (Hc : code_units (js " https://github.com/foo/bar/ "))
    by (apply code_units_by_check; vm_compute; reflexivity).
  assert (Hm : match_repo (js " https://github.com/foo/bar/ ") = Some (js "foo", js "bar"))
    by (vm_compute; reflexivity).
  split; [exact Hc|]. split; [exact Hm|].
  exact (proj2 (proj2 (page_request_passes_validation integer_literal
                         world_not_found [] _ _ _ Hc Hm))).
Defined.

Lemma not_found_is_delivered :
  delivers parse (js "SyntaxError")
    (error_response 404 (js "Repository foo/bar not found or inaccessible."))
    not_found_received.
Proof. split; vm_compute; reflexivity. Defined.

Lemma server_error_is_shown_witness :
  error (handleAnalyze parse (browser_with not_found_received) (js "foo/bar") blank_page)
    = js "Repository foo/bar not found or inaccessible.".
Proof.
  rewrite (server_error_is_shown integer_literal parse
             (browser_with not_found_received)
             (js "SyntaxError") (js "foo/bar") (js "foo") (js "bar")
             (js "Repository foo/bar not found or inaccessible.") 404
             not_found_received blank_page).
  - reflexivity.
  - vm_compute. reflexivity.
  - reflexivity.
  - exact not_found_is_delivered.
  - reflexivity.
  - apply code_units_by_check. vm_compute. reflexivity.
Defined.

Lemma stream_is_shown_witness :
  analysis (handleAnalyze parse (browser_with hello_received) (js "foo/bar") blank_page)
    = js "Hello".
Proof.
  rewrite (stream_is_shown parse (browser_with hello_received)
             (js "foo/bar") (js "foo") (js "bar") hello_received hello_chunks
             blank_page).
  - vm_compute. reflexivity.
  - vm_compute. reflexivity.
  - reflexivity.
  - reflexivity.
  - reflexivity.
  - exact hello_stream_valid.
Defined.

(** *** From the gateway to the page *)


Section Pipeline.

Variable number_of_literal : jsstring -> jsnumber.
Variable JSON_parse : jsstring -> option jsvalue.
Variable w : world.
Variable b : browser.

(** X28. What the gateway streams is what the page shows: when the
    handler passes on the body of the gateway and the page receives it,
    cut into chunks in any way, then, the body being a valid frame
    stream, the page ends with the concatenation of the payload texts of
    the frames of the gateway's body as its analysis, and with no
    error. *)
Theorem gateway_stream_is_shown
    (syntax_error repoInput o r : jsstring) (greq : gateway_request)
    (res : gateway_response) (t : list event) (resp : fetch_response) (p : page) :
  match_repo repoInput = Some (o, r) ->
  let sent := {| fetch_method := js "POST";
                 fetch_body := stringify_request o r |} in
  let req := arrives (Json.JSON_parse number_of_literal) syntax_error sent in
  prepare w req = (inr (inr greq), t) ->
  gateway w greq = inr res ->
  ok (gw_status res) = true ->
  fetch b sent = inr resp ->
  delivers (Json.JSON_parse number_of_literal) syntax_error (fst (serve w req)) resp ->
  valid_frame_stream JSON_parse (List.concat (gw_body res)) ->
  analysis (handleAnalyze JSON_parse b repoInput p)
    = List.concat (payload_texts JSON_parse (List.concat (gw_body res))) /\
  error (handleAnalyze JSON_parse b repoInput p) = [] /\
  toasts (handleAnalyze JSON_parse b repoInput p) = toasts p.
Proof.
  intros Hm sent req Hp Hg Hok Hf Hd Hv.
  assert (Hs : serve w req =
               ({| status := 200;
                   headers := corsHeaders ++ [(js "Content-Type", js "text/event-stream")];
                   payload := BodyStream (gw_body res) |},
                t ++ [FetchGateway greq])).
  { rewrite (serve_proxied w req greq res t eq_refl Hp Hg).
    unfold relay. rewrite Hok. reflexivity. }
  rewrite Hs in Hd. destruct Hd as [Hst (chunks & Hb & Hc)]. simpl in Hst.
  rewrite <- Hc in Hv |- *.
  rewrite (handleAnalyze_accepted JSON_parse b _ _ _ p Hm). cbv zeta.
  fold sent.
  assert (Ha : attempt JSON_parse b sent
               = (List.concat (payload_texts JSON_parse (List.concat chunks)), None)).
  { unfold attempt. rewrite Hf, Hst, Hb. simpl negb. cbv iota.
    destruct (read_loop_accumulates JSON_parse chunks start eq_refl eq_refl) as [Hr Han].
    fold (read_all JSON_parse chunks) in Hr, Han.
    rewrite Han, Hr, (read_all_payload_texts JSON_parse chunks Hv). reflexivity. }
  rewrite Ha. simpl. auto.
Qed.

End Pipeline.

Lemma gateway_stream_is_shown_witness :
  let w := sample_world readme_ok issues_ok stats_ok
             (inr {| gw_status := 200; gw_body := [hello_stream];
                     gw_text := inr [] |}) in
  payload (fst (serve w (arrives parse [] foo_bar))) = BodyStream [hello_stream] /\
  analysis (handleAnalyze parse (browser_with hello_received)
              (js "foo/bar") blank_page) = js "Hello".
Proof.
  intros w. split; [vm_compute; reflexivity|].
  set (req := arrives parse [] foo_bar).
  destruct (prepare w req) as [[e|[early|greq]] t] eqn:Hp;
    try (vm_compute in Hp; discriminate Hp).
  destruct (gateway_stream_is_shown integer_literal parse w
              (browser_with hello_received) [] (js "foo/bar") (js "foo") (js "bar")
              greq {| gw_status := 200; gw_body := [hello_stream]; gw_text := inr [] |}
              t hello_received blank_page) as (Ha & _).
  - vm_compute. reflexivity.
  - exact Hp.
  - reflexivity.
  - reflexivity.
  - reflexivity.
  - change (delivers parse [] (fst (serve w req)) hello_received).
    rewrite (serve_proxied w req greq _ t eq_refl Hp eq_refl).
    split; [reflexivity|]. simpl. exists hello_chunks. split; reflexivity.
  - change (valid_frame_stream parse (hello_stream ++ [])).
    rewrite app_nil_r. exact hello_stream_valid.
  - rewrite Ha. vm_compute. reflexivity.
Defined.

End PageFacts.
